(** * NYX Cloud Scanner, AWS module: probe engine, scoring and flow analysis

    A shallow embedding of [nyx_cloud_scanner_aws.py] (the classes
    [AWSKeyValidator] and [TelegramNotifier], and [main]) and the
    properties of its probe engine, cache, timeouts, scoring, flow
    analyzer, notifier and command line.

    Conventions of the embedding.
    - Python [dict]s are insertion-ordered association lists ([PyDict]).
    - [time.time()] and the elapsed times derived from it are rationals
      ([Q]); the clock is an oracle of the environment, read by position.
    - Where the source rounds, the arithmetic is binary64 (primitive
      floats): the average and the product of the timeout override, and the
      completion percentage; the power of the backoff delay is read with
      the range of the format.
    - A remote capability check ([check_func()]) is an oracle of the
      environment: it returns, or raises an [Exception].
    - [print] calls and the human-readable description texts are display
      only and are left out. *)

From Stdlib Require Import List String Ascii Bool ZArith QArith Qminmax Qpower Qround.
From Stdlib Require Import Lia Lqa Floats Uint63.
Import ListNotations.

Local Open Scope string_scope.
Local Open Scope Z_scope.

(* ================================================================== *)
(** * Part I: definitions *)
(* ================================================================== *)

(** ** Python dictionaries with string keys *)

Module PyDict.

Definition dict (V : Type) : Type := list (string * V).

Definition empty {V} : dict V := [].

(** [d.get(k)] *)
Fixpoint get {V} (k : string) (d : dict V) : option V :=
  match d with
  | [] => None
  | (k', v) :: d' => if String.eqb k k' then Some v else get k d'
  end.

(** [k in d] *)
Definition mem {V} (k : string) (d : dict V) : bool :=
  match get k d with Some _ => true | None => false end.

(** [d[k] = v]: an existing key keeps its position, a new key goes last. *)
Fixpoint set {V} (k : string) (v : V) (d : dict V) : dict V :=
  match d with
  | [] => [(k, v)]
  | (k', v') :: d' =>
      if String.eqb k k' then (k', v) :: d' else (k', v') :: set k v d'
  end.

(** A dict display [{k1: v1, k2: v2, ...}]: entries are stored left to
    right, so a repeated key keeps its first position and its last value. *)
Definition of_literal {V} (l : list (string * V)) : dict V :=
  fold_left (fun d kv => set (fst kv) (snd kv) d) l empty.

Definition items {V} (d : dict V) : list (string * V) := d.
Definition keys {V} (d : dict V) : list string := map fst d.
Definition values {V} (d : dict V) : list V := map snd d.

End PyDict.

Import PyDict.

(** ** Strings and lists, as Python reads them *)

(** [kw in s] on strings: [kw] occurs in [s] as a contiguous substring. *)
Fixpoint str_in (kw s : string) : bool :=
  String.prefix kw s ||
  match s with
  | EmptyString => false
  | String _ s' => str_in kw s'
  end.

(** [x in l] on a list of strings. *)
Definition list_in (x : string) (l : list string) : bool :=
  existsb (String.eqb x) l.

(** [any(kw in s for kw in kws)] *)
Definition any_in (kws : list string) (s : string) : bool :=
  existsb (fun kw => str_in kw s) kws.

(** [l[-n:]] for [n > 0] *)
Definition last_n {A} (n : nat) (l : list A) : list A :=
  skipn (List.length l - n) l.

(** [sum(l)] on a list of times. *)
Definition Qsum (l : list Q) : Q := fold_left Qplus l (0%Q).

(** [sum(l)] on a list of integers. *)
Definition Zsum (l : list Z) : Z := fold_left Z.add l 0.

(** ** Settings of [AWSKeyValidator.__init__] *)

Definition base_timeout : Z := 3.
Definition critical_timeout : Z := 15.
Definition max_timeout : Z := 30.
Definition retry_attempts : nat := 3.
Definition backoff_multiplier : Q := (3 # 2)%Q.   (* 1.5 *)
Definition cache_ttl : Z := 300.

(** [self.service_scores], entry by entry in source order
    ([systems_manager_parameters] is written twice there). *)
Definition service_scores : dict Z := of_literal
  [ ("iam_create_user", 60); ("iam_create_role", 60);
    ("iam_attach_user_policy", 55); ("iam_attach_role_policy", 55);
    ("iam_create_access_key", 50); ("iam_put_user_policy", 55);
    ("iam_create_login_profile", 50); ("iam_update_login_profile", 45);
    ("iam_put_role_policy", 55); ("iam_update_assume_role_policy", 50);
    ("iam_tag_role", 40); ("iam_untag_role", 40); ("iam_pass_role", 45);
    ("sts_assume_role", 50); ("secrets_manager_create_secret", 50);
    ("secrets_manager_update_secret", 45);
    ("secrets_manager_delete_secret", 40);
    ("secrets_manager_restore_secret", 35);
    ("secrets_manager_rotate_secret", 40); ("s3_put_object", 45);
    ("s3_create_bucket", 40); ("s3_delete_bucket", 35);
    ("s3_get_object", 35); ("s3_get_object_acl", 30);
    ("s3_put_object_acl", 35); ("s3_put_bucket_policy", 40);
    ("s3_put_bucket_acl", 35); ("ec2_run_instances", 45);
    ("ec2_create_key_pair", 40); ("ec2_start_instances", 45);
    ("ec2_authorize_security_group_ingress", 40);
    ("ec2_create_security_group", 40); ("ec2_create_image", 45);
    ("ec2_modify_instance_attribute", 40); ("ec2_modify_volume", 35);
    ("ec2_create_tags", 30); ("ec2_snapshots", 20);
    ("lambda_update_function_code", 45); ("lambda_delete_function", 35);
    ("lambda_get_function", 25);
    ("lambda_update_function_configuration", 40);
    ("lambda_add_permission", 45); ("lambda_publish_version", 40);
    ("lambda_create_layer_version", 50); ("lambda_create_alias", 35);
    ("lambda_update_alias", 30); ("lambda_delete_alias", 25);
    ("lambda_get_layer_version", 20); ("lambda_delete_layer_version", 30);
    ("secrets_manager_secrets", 45); ("s3_objects", 35);
    ("systems_manager_commands", 35); ("rds_snapshots", 15);
    ("rds_create_db_snapshot", 40); ("rds_start_export_task", 45);
    ("rds_copy_db_snapshot", 35); ("rds_modify_db_instance", 40);
    ("rds_modify_db_cluster", 40); ("rds_create_db_instance", 45);
    ("rds_create_db_cluster", 45); ("systems_manager_parameters", 30);
    ("systems_manager_send_command", 40);
    ("systems_manager_start_session", 45);
    ("systems_manager_terminate_session", 25);
    ("systems_manager_create_document", 45);
    ("systems_manager_update_document", 40);
    ("systems_manager_delete_document", 35); ("ec2_instances", 30);
    ("s3_buckets", 30); ("ec2_volumes", 25); ("lambda_create_function", 25);
    ("kms_keys", 25); ("rds_instances", 25); ("rds_clusters", 25);
    ("iam_attach_group_policy", 20); ("iam_add_user_to_group", 20);
    ("lambda_invoke_function", 20); ("iam_create_group", 20);
    ("iam_users", 15); ("lambda_functions", 15); ("iam_groups", 10);
    ("ec2_key_pairs", 10); ("ec2_images", 10); ("ec2_security_groups", 10);
    ("kms_aliases", 10); ("systems_manager_parameters", 10);
    ("kms_create_key", 40); ("kms_put_key_policy", 50);
    ("cloudtrail_delete_trail", 60); ("cloudtrail_stop_logging", 55);
    ("cloudtrail_put_event_selectors", 50);
    ("cloudwatch_logs_delete_log_group", 50);
    ("cloudwatch_logs_stop_logging", 45);
    ("cloudwatch_logs_put_retention_policy", 40);
    ("cloudwatch_logs_delete_log_stream", 35);
    ("cloudwatch_delete_logs", 30) ].

(** [self.service_scores.get(service_name, 0)] *)
Definition weight (service_name : string) : Z :=
  match get service_name service_scores with
  | Some w => w
  | None => 0
  end.

(** [self.attack_flows] (the description texts are left out). *)
Record flow_info := {
  flow_name : string;
  required_services : list string;
  escalation_roles : list string
}.

Definition attack_flows : dict flow_info := of_literal
  [ ("ec2_management",
     {| flow_name := "EC2 Management Attack";
        required_services := ["ec2_instances"; "ec2_volumes"; "ec2_snapshots"];
        escalation_roles := ["AWSLambdaBasicExecutionRole"; "IAMFullAccess"] |});
    ("s3_exfiltration",
     {| flow_name := "S3 Bucket Exfiltration";
        required_services := ["s3_buckets"; "s3_objects"];
        escalation_roles := ["AWSLambdaBasicExecutionRole"; "IAMFullAccess"] |});
    ("rds_data_extraction",
     {| flow_name := "RDS Data Extraction";
        required_services :=
          ["rds_instances"; "rds_snapshots"; "rds_clusters";
           "rds_create_db_snapshot"; "rds_start_export_task"];
        escalation_roles := ["AWSLambdaBasicExecutionRole"; "IAMFullAccess"] |});
    ("lambda_escalation",
     {| flow_name := "Lambda Privilege Escalation";
        required_services := ["lambda_functions"];
        escalation_roles := ["AWSLambdaBasicExecutionRole"; "IAMFullAccess"] |});
    ("cross_service_attack",
     {| flow_name := "Cross-Account Attack Chain";
        required_services := ["sts_assume_role"; "iam_create_role"; "iam_pass_role"];
        escalation_roles := ["IAMFullAccess"; "AdministratorAccess"] |});
    ("log_deletion",
     {| flow_name := "Log Deletion Attack";
        required_services :=
          ["cloudtrail_delete_trail"; "cloudtrail_stop_logging";
           "cloudwatch_logs_delete_log_group"];
        escalation_roles := ["CloudTrailFullAccess"; "CloudWatchLogsFullAccess"] |});
    ("forensic_cleanup",
     {| flow_name := "Forensic Cleanup Attack";
        required_services :=
          ["secrets_manager_delete_secret"; "s3_delete_bucket";
           "lambda_delete_function"];
        escalation_roles :=
          ["SecretsManagerFullAccess"; "S3FullAccess"; "AWSLambdaFullAccess"] |}) ].

(** [self.account_categories] *)
Record category_info := {
  min_score : Z;
  emoji : string;
  cat_name : string
}.

Definition account_categories : dict category_info := of_literal
  [ ("critical", {| min_score := 50; emoji := "🔥";
                    cat_name := "CRITICAL - Максимальная угроза" |});
    ("high",     {| min_score := 30; emoji := "🚨";
                    cat_name := "HIGH - Высокая угроза" |});
    ("medium",   {| min_score := 15; emoji := "⚠️";
                    cat_name := "MEDIUM - Средняя угроза" |});
    ("low",      {| min_score := 5;  emoji := "📊";
                    cat_name := "LOW - Низкая угроза" |});
    ("minimal",  {| min_score := 0;  emoji := "🔍";
                    cat_name := "MINIMAL - Минимальная угроза" |}) ].

(** ** Calls that may raise *)

(** A call that returns a value or lets an exception escape. *)
Inductive outcome (A : Type) :=
| Returns (a : A)
| Raises (exc : string).
Arguments Returns {A} a.
Arguments Raises {A} exc.

(** ** Binary64 arithmetic *)

(** [len(l)] as a binary64 float, as true division converts it (exact below
    2^53). *)
Definition float_of_len (n : nat) : float :=
  PrimFloat.of_uint63 (Uint63.of_Z (Z.of_nat n)).

(** [int(f)] on a finite float: truncation toward zero. *)
Definition int_of_float (f : float) : Z :=
  match Prim2SF f with
  | S754_finite s m e =>
      let magnitude :=
        match e with
        | Z0 => Zpos m
        | Zpos p => Z.shiftl (Zpos m) (Zpos p)
        | Zneg p => Z.shiftr (Zpos m) (Zpos p)
        end in
      if s then - magnitude else magnitude
  | _ => 0
  end.

(** An integer as a number of the format's specification, not yet rounded. *)
Definition Z2SF (z : Z) : spec_float :=
  match z with
  | Z0 => S754_zero false
  | Zpos p => S754_finite false p 0
  | Zneg p => S754_finite true p 0
  end.

(** The binary64 number nearest to a rational (ties to even): the division
    of the format, applied to numerator and denominator. The store keeps
    elapsed times as rationals; this is the float the source holds for
    them. *)
Definition float_of_Q (q : Q) : float :=
  SF2Prim (SF64div (Z2SF (Qnum q)) (Z2SF (Zpos (Qden q)))).

(** [sum(l)] on a list of floats: from 0, left to right, every addition
    rounded (CPython up to 3.11; later versions add a correction term). *)
Definition float_sum (l : list float) : float :=
  fold_left PrimFloat.add l PrimFloat.zero.

(** The rational a finite float stands for (0 for the others). *)
Definition Q_of_float (f : float) : Q :=
  match Prim2SF f with
  | S754_finite s m e =>
      let magnitude :=
        match e with
        | Z0 => inject_Z (Zpos m)
        | Zpos p => inject_Z (Zpos m * 2 ^ Zpos p)
        | Zneg p => (Zpos m # Pos.pow 2 p)%Q
        end in
      if s then (- magnitude)%Q else magnitude
  | _ => 0%Q
  end.

(** ** Timeouts and backoff *)

(** [_get_adaptive_timeout(service_name, operation_type="read")] *)
Definition _get_adaptive_timeout (service_name operation_type : string) : Z :=
  if String.eqb operation_type "write"
     || str_in "create" service_name || str_in "delete" service_name
  then critical_timeout
  else if any_in ["list"; "describe"; "get"] service_name
  then base_timeout
  else Z.min (base_timeout * 2) max_timeout.

(** The first attempt number at which [backoff_multiplier ** attempt]
    leaves the binary64 range: [1.5 ** 1750] is about 1.44e308, and
    [1.5 ** 1751] raises [OverflowError]. *)
Definition backoff_overflow_attempt : nat := 1751.

(** What [min(base_timeout * backoff_multiplier ** attempt, max_timeout)]
    evaluates to when the power is computed. Up to attempt 5 the product
    is an exact binary64 number below the cap; from attempt 6 on the
    product, rounded or infinite, is above 30 and [min] returns the cap. *)
Definition backoff_delay (attempt : nat) : Q :=
  Qmin (inject_Z base_timeout * backoff_multiplier ^ Z.of_nat attempt)
       (inject_Z max_timeout).

(** [_calculate_backoff_delay(attempt)], for an attempt number from 0 on,
    as [range] produces it. *)
Definition _calculate_backoff_delay (attempt : nat) : outcome Q :=
  if (attempt <? backoff_overflow_attempt)%nat
  then Returns (backoff_delay attempt)
  else Raises "OverflowError: (34, 'Numerical result out of range')".

(** ** The environment and the mutable store *)

(** What the program cannot decide by itself. [now k] is the value of the
    [k]-th reading of [time.time()]; [remote name k] tells whether the
    [k]-th remote invocation of the run, made for operation [name], returns
    ([true]) or raises an [Exception] ([false]); [clients_ok] tells whether
    the [boto3.client] constructions succeed. *)
Record world := {
  now : nat -> Q;
  remote : string -> nat -> bool;
  clients_ok : bool
}.

(** Effects of a probe, oldest first. *)
Inductive event :=
| MakeConfig (service_name : string) (timeout : Z)
| RemoteCall (service_name : string)
| Sleep (delay : Q).

Definition is_remote_call (e : event) : bool :=
  match e with RemoteCall _ => true | _ => false end.

Definition remote_calls (tr : list event) : nat :=
  List.length (filter is_remote_call tr).

(** [{'accessible': ..., 'score': ...}] *)
Record probe_result := {
  accessible : bool;
  score : Z
}.

(** An entry of [self.service_cache] *)
Record cache_entry := {
  result : probe_result;
  timestamp : Q
}.

(** [self.performance_stats] ([avg_response_time] is never written). *)
Record performance := {
  total_requests : Z;
  successful_requests : Z;
  failed_requests : Z;
  service_response_times : dict (list Q)
}.

Inductive block_status := BLOCK_READY | BLOCK_PARTIAL | BLOCK_BLOCKED.

(** An entry of [escalation_results] *)
Record escalation_entry := {
  esc_status : block_status;
  esc_accessible_services : list string;
  esc_missing_services : list string
}.

(** The mutable store: the validator's attributes, the locals that
    [check_service_permissions] shares with its closures, and the position
    reached in the oracles of the environment. *)
Record machine := {
  service_cache : dict cache_entry;
  performance_stats : performance;
  results : dict probe_result;
  escalation_results : dict escalation_entry;
  total_score : Z;
  current_service : Z;
  clock_reads : nat;
  trace : list event
}.

(** A fresh [AWSKeyValidator()]. *)
Definition new_validator : machine :=
  {| service_cache := empty;
     performance_stats :=
       {| total_requests := 0; successful_requests := 0;
          failed_requests := 0; service_response_times := empty |};
     results := empty;
     escalation_results := empty;
     total_score := 0;
     current_service := 0;
     clock_reads := 0%nat;
     trace := [] |}.

(** ** A state monad over the store *)

Definition M (A : Type) : Type := machine -> A * machine.

Definition ret {A} (a : A) : M A := fun m => (a, m).

Definition bind {A B} (c : M A) (k : A -> M B) : M B :=
  fun m => let (a, m') := c m in k a m'.

Declare Scope monad_scope.
Delimit Scope monad_scope with monad.
Notation "x <- c ;; k" := (bind c (fun x => k))
  (at level 61, c at next level, right associativity) : monad_scope.
Notation "c ;; k" := (bind c (fun _ => k))
  (at level 61, right associativity) : monad_scope.
Local Open Scope monad_scope.

Definition gets {A} (f : machine -> A) : M A := fun m => (f m, m).
Definition modify (f : machine -> machine) : M unit := fun m => (tt, f m).

Definition with_cache (c : dict cache_entry) (m : machine) : machine :=
  {| service_cache := c; performance_stats := performance_stats m;
     results := results m; escalation_results := escalation_results m;
     total_score := total_score m; current_service := current_service m;
     clock_reads := clock_reads m; trace := trace m |}.

Definition with_stats (p : performance) (m : machine) : machine :=
  {| service_cache := service_cache m; performance_stats := p;
     results := results m; escalation_results := escalation_results m;
     total_score := total_score m; current_service := current_service m;
     clock_reads := clock_reads m; trace := trace m |}.

Definition with_results (r : dict probe_result) (m : machine) : machine :=
  {| service_cache := service_cache m; performance_stats := performance_stats m;
     results := r; escalation_results := escalation_results m;
     total_score := total_score m; current_service := current_service m;
     clock_reads := clock_reads m; trace := trace m |}.

Definition with_escalation (e : dict escalation_entry) (m : machine) : machine :=
  {| service_cache := service_cache m; performance_stats := performance_stats m;
     results := results m; escalation_results := e;
     total_score := total_score m; current_service := current_service m;
     clock_reads := clock_reads m; trace := trace m |}.

Definition with_total (t : Z) (m : machine) : machine :=
  {| service_cache := service_cache m; performance_stats := performance_stats m;
     results := results m; escalation_results := escalation_results m;
     total_score := t; current_service := current_service m;
     clock_reads := clock_reads m; trace := trace m |}.

Definition with_current (c : Z) (m : machine) : machine :=
  {| service_cache := service_cache m; performance_stats := performance_stats m;
     results := results m; escalation_results := escalation_results m;
     total_score := total_score m; current_service := c;
     clock_reads := clock_reads m; trace := trace m |}.

Definition with_clock (k : nat) (m : machine) : machine :=
  {| service_cache := service_cache m; performance_stats := performance_stats m;
     results := results m; escalation_results := escalation_results m;
     total_score := total_score m; current_service := current_service m;
     clock_reads := k; trace := trace m |}.

Definition with_trace (tr : list event) (m : machine) : machine :=
  {| service_cache := service_cache m; performance_stats := performance_stats m;
     results := results m; escalation_results := escalation_results m;
     total_score := total_score m; current_service := current_service m;
     clock_reads := clock_reads m; trace := tr |}.

Definition emit (e : event) : M unit :=
  modify (fun m => with_trace (trace m ++ [e]) m).

(** ** The probe engine *)

Definition Qltb (x y : Q) : bool := negb (Qle_bool y x).

(** [int(avg_time * 3)] with [avg_time = sum(recent_times) / len(recent_times)],
    in binary64 arithmetic, for a non-empty history. (The source raises in
    [int] when the product is infinite or undefined, which takes elapsed
    times beyond 10^307 seconds; [int_of_float] gives 0 there.) *)
Definition tripled_average (recent_times : list Q) : float :=
  let avg_time :=
    PrimFloat.div (float_sum (map float_of_Q recent_times))
                  (float_of_len (List.length recent_times)) in
  PrimFloat.mul avg_time (float_of_len 3).

(** [_get_optimized_timeout(service_name)], reading the statistics [p]. *)
Definition _get_optimized_timeout (p : performance) (service_name : string) : Z :=
  match get service_name (service_response_times p) with
  | None => _get_adaptive_timeout service_name "read"
  | Some recent_times =>
      match recent_times with
      | [] => _get_adaptive_timeout service_name "read"
      | _ :: _ => Z.min (int_of_float (tripled_average recent_times)) max_timeout
      end
  end.

(** The body of [_update_performance_stats] on the statistics record. *)
Definition record_sample (service_name : string) (response_time : Q)
    (success : bool) (p : performance) : performance :=
  let times :=
    (match get service_name (service_response_times p) with
     | None => []
     | Some l => l
     end ++ [response_time])%list in
  let times :=
    if (10 <? List.length times)%nat then last_n 10 times else times in
  {| total_requests := total_requests p + 1;
     successful_requests :=
       if success then successful_requests p + 1 else successful_requests p;
     failed_requests :=
       if success then failed_requests p else failed_requests p + 1;
     service_response_times := set service_name times (service_response_times p) |}.

Section Engine.

Variable w : world.

(** [time.time()] *)
Definition time_time : M Q :=
  fun m => (now w (clock_reads m), with_clock (S (clock_reads m)) m).

(** [time.sleep(delay)] *)
Definition time_sleep (delay : Q) : M unit := emit (Sleep delay).

(** [check_func()]: [true] when the call returns, [false] when it raises. *)
Definition check_func (service_name : string) : M bool :=
  fun m => (remote w service_name (remote_calls (trace m)),
            with_trace (trace m ++ [RemoteCall service_name]) m).

(** [_is_cache_valid(service_name)] *)
Definition _is_cache_valid (service_name : string) : M bool :=
  cache <- gets service_cache ;;
  match get service_name cache with
  | None => ret false
  | Some entry =>
      t <- time_time ;;
      ret (Qltb (t - timestamp entry) (inject_Z cache_ttl))
  end.

(** [_update_performance_stats(service_name, response_time, success)] *)
Definition _update_performance_stats (service_name : string)
    (response_time : Q) (success : bool) : M unit :=
  modify (fun m =>
    with_stats (record_sample service_name response_time success
                  (performance_stats m)) m).

(** The retry loop of [check_service],
    [for attempt in range(self.retry_attempts)]: [true] when the loop is
    left without an exception, [false] when an exception leaves it for the
    outer handler (the last attempt re-raises, or the delay cannot be
    computed). *)
Fixpoint retry_loop (service_name : string) (attempts : list nat) : M bool :=
  match attempts with
  | [] => ret true
  | attempt :: rest =>
      ok <- check_func service_name ;;
      if ok then ret true
      else if (attempt <? retry_attempts - 1)%nat
      then
        match _calculate_backoff_delay attempt with
        | Returns delay => time_sleep delay ;; retry_loop service_name rest
        | Raises _ => ret false
        end
      else ret false
  end.

(** The tail shared by both outcomes of a probe: statistics, cache and
    [results] are written and the score is returned. *)
Definition record_outcome (service_name : string) (start_time : Q)
    (success : bool) : M Z :=
  t_end <- time_time ;;
  let response_time := (t_end - start_time)%Q in
  _update_performance_stats service_name response_time success ;;
  let score := if success then weight service_name else 0 in
  let result := {| accessible := success; score := score |} in
  t_cache <- time_time ;;
  modify (fun m =>
    with_cache (set service_name
                  {| result := result; timestamp := t_cache |}
                  (service_cache m)) m) ;;
  modify (fun m => with_results (set service_name result (results m)) m) ;;
  ret score.

(** The part of [check_service] that follows a cache miss: timeout
    selection, the per-probe [Config], the retry loop and the recording of
    the outcome. [operation_type] is computed as in the source, where
    nothing reads it. *)
Definition fresh_probe (service_name : string) (start_time : Q) : M Z :=
  let operation_type :=
    if any_in ["create"; "delete"; "update"; "put"; "attach"] service_name
    then "write" else "read" in
  stats <- gets performance_stats ;;
  let timeout := _get_optimized_timeout stats service_name in
  emit (MakeConfig service_name timeout) ;;
  ok <- retry_loop service_name (seq 0 retry_attempts) ;;
  record_outcome service_name start_time ok.

(** The closure [check_service(service_name, check_func, current, total)];
    [current] and [total] only feed the progress line. *)
Definition check_service (service_name : string) : M Z :=
  start_time <- time_time ;;
  valid <- _is_cache_valid service_name ;;
  cache <- gets service_cache ;;
  match valid, get service_name cache with
  | true, Some cached_result =>
      modify (fun m =>
        with_results (set service_name (result cached_result) (results m)) m) ;;
      ret (score (result cached_result))
  | _, _ => fresh_probe service_name start_time
  end.

(** [current_service += 1; total_score += check_service(name, ...)] *)
Definition probe (service_name : string) : M unit :=
  modify (fun m => with_current (current_service m + 1) m) ;;
  s <- check_service service_name ;;
  modify (fun m => with_total (total_score m + s) m).

(** A run of probes, in order. *)
Fixpoint probe_all (service_names : list string) : M unit :=
  match service_names with
  | [] => ret tt
  | n :: rest => probe n ;; probe_all rest
  end.

(** The closure [check_escalation_block(flow_name, required_services)] *)
Definition check_escalation_block (flow_name : string)
    (required : list string) : M unit :=
  res <- gets results ;;
  let accessible_services :=
    filter (fun s => match get s res with
                     | Some r => accessible r
                     | None => false
                     end) required in
  let missing_services :=
    filter (fun s => negb (list_in s accessible_services)) required in
  let status :=
    if (List.length accessible_services =? List.length required)%nat
    then BLOCK_READY
    else if (0 <? List.length accessible_services)%nat
    then BLOCK_PARTIAL
    else BLOCK_BLOCKED in
  modify (fun m =>
    with_escalation
      (set flow_name
         {| esc_status := status;
            esc_accessible_services := accessible_services;
            esc_missing_services := missing_services |}
         (escalation_results m)) m).

End Engine.

(** ** Selection of flows and the scan *)

(** [filters.get(k)] read as a truth value. *)
Definition filter_on (filters : dict bool) (k : string) : bool :=
  match get k filters with
  | Some b => b
  | None => false
  end.

Definition all_flows_critical : list string :=
  [ "IAM User Escalation"; "IAM Role Escalation"; "Secrets Manager";
    "Systems Manager"; "S3 Data Exfiltration"; "EC2 Management Attack";
    "Lambda Privilege Escalation"; "RDS Data Extraction";
    "Log Deletion Attack"; "Forensic Cleanup Attack" ].
Definition all_flows_high : list string := [ "Security & Compliance" ].
Definition all_flows_medium : list string := [ "IAM Groups Escalation" ].
Definition all_flows_low : list string := [].

(** [_determine_flows_to_check(filters)] *)
Definition _determine_flows_to_check (filters : dict bool) : list string :=
  let everything :=
    (all_flows_critical ++ all_flows_high ++ all_flows_medium ++ all_flows_low)%list in
  if negb (existsb (fun b => b) (values filters)) then everything
  else
    let flows_to_check :=
      ((if filter_on filters "critical" then all_flows_critical else []) ++
       (if filter_on filters "high" then all_flows_high else []) ++
       (if filter_on filters "medium" then all_flows_medium else []) ++
       (if filter_on filters "low" then all_flows_low else []))%list in
    if negb (filter_on filters "critical" || filter_on filters "high"
             || filter_on filters "medium" || filter_on filters "low")
    then everything
    else flows_to_check.

(** One [if '<flow>' in flows_to_check:] block of [check_service_permissions]:
    the flow it tests for, the operations it probes in order, and the
    arguments of its closing [check_escalation_block] call. *)
Record probe_block := {
  block_flow : string;
  block_services : list string;
  block_label : string;
  block_required : list string
}.

(** The twelve blocks, in source order. *)
Definition probe_blocks : list probe_block :=
  [ {| block_flow := "IAM User Escalation";
       block_services :=
         ["iam_create_user"; "iam_attach_user_policy"; "iam_create_access_key";
          "iam_put_user_policy"; "iam_create_login_profile";
          "iam_update_login_profile"];
       block_label := " IAM User Escalation";
       block_required :=
         ["iam_create_user"; "iam_attach_user_policy"; "iam_create_access_key";
          "iam_put_user_policy"; "iam_create_login_profile"] |};
    {| block_flow := "IAM Role Escalation";
       block_services :=
         ["iam_create_role"; "iam_attach_role_policy"; "sts_assume_role";
          "iam_pass_role"; "iam_put_role_policy";
          "iam_update_assume_role_policy"];
       block_label := " IAM Role Escalation";
       block_required :=
         ["iam_create_role"; "iam_attach_role_policy"; "sts_assume_role";
          "iam_pass_role"] |};
    {| block_flow := "Secrets Manager";
       block_services :=
         ["secrets_manager_secrets"; "secrets_manager_create_secret";
          "secrets_manager_update_secret"; "secrets_manager_delete_secret"];
       block_label := " Secrets Manager";
       block_required :=
         ["secrets_manager_secrets"; "secrets_manager_create_secret";
          "secrets_manager_update_secret"] |};
    {| block_flow := "Systems Manager";
       block_services :=
         ["systems_manager_commands"; "systems_manager_parameters";
          "systems_manager_send_command"; "systems_manager_start_session";
          "systems_manager_terminate_session"];
       block_label := " Systems Manager";
       block_required :=
         ["systems_manager_commands"; "systems_manager_parameters";
          "systems_manager_send_command"; "systems_manager_start_session"] |};
    {| block_flow := "S3 Data Exfiltration";
       block_services :=
         ["s3_buckets"; "s3_objects"; "s3_put_object"; "s3_create_bucket";
          "s3_delete_bucket"];
       block_label := " S3 Data Exfiltration";
       block_required :=
         ["s3_buckets"; "s3_objects"; "s3_put_object"; "s3_create_bucket";
          "s3_delete_bucket"] |};
    {| block_flow := "RDS Data Extraction";
       block_services :=
         ["rds_instances"; "rds_snapshots"; "rds_clusters";
          "rds_create_db_snapshot"; "rds_start_export_task";
          "rds_copy_db_snapshot"];
       block_label := " RDS Data Extraction";
       block_required :=
         ["rds_instances"; "rds_snapshots"; "rds_clusters";
          "rds_create_db_snapshot"; "rds_start_export_task"] |};
    {| block_flow := "EC2 Management Attack";
       block_services :=
         ["ec2_instances"; "ec2_volumes"; "ec2_snapshots"; "ec2_run_instances";
          "ec2_create_key_pair"; "ec2_start_instances";
          "ec2_authorize_security_group_ingress"];
       block_label := " EC2 Management Attack";
       block_required :=
         ["ec2_instances"; "ec2_volumes"; "ec2_snapshots"; "ec2_run_instances";
          "ec2_create_key_pair"; "ec2_start_instances";
          "ec2_authorize_security_group_ingress"] |};
    {| block_flow := "Lambda Privilege Escalation";
       block_services :=
         ["lambda_functions"; "lambda_create_function"; "lambda_invoke_function";
          "lambda_update_function_code"; "lambda_delete_function";
          "lambda_get_function"; "lambda_update_function_configuration";
          "lambda_add_permission"; "lambda_publish_version";
          "lambda_create_layer_version"];
       block_label := " Lambda Privilege Escalation";
       block_required :=
         ["lambda_functions"; "lambda_create_function"; "lambda_invoke_function";
          "lambda_update_function_code"; "lambda_delete_function";
          "lambda_get_function"; "lambda_update_function_configuration";
          "lambda_add_permission"; "lambda_publish_version";
          "lambda_create_layer_version"] |};
    {| block_flow := "Security & Compliance";
       block_services :=
         ["kms_keys"; "kms_aliases"; "kms_create_key"; "kms_put_key_policy"];
       block_label := " Security & Compliance";
       block_required :=
         ["kms_keys"; "kms_aliases"; "kms_create_key"; "kms_put_key_policy"] |};
    {| block_flow := "IAM Groups Escalation";
       block_services :=
         ["iam_users"; "iam_groups"; "iam_create_group";
          "iam_attach_group_policy"; "iam_add_user_to_group"];
       block_label := " IAM Groups Escalation";
       block_required :=
         ["iam_users"; "iam_groups"; "iam_create_group";
          "iam_attach_group_policy"; "iam_add_user_to_group"] |};
    {| block_flow := "Log Deletion Attack";
       block_services :=
         ["cloudtrail_delete_trail"; "cloudtrail_stop_logging";
          "cloudtrail_put_event_selectors"; "cloudwatch_logs_delete_log_group";
          "cloudwatch_logs_stop_logging"; "cloudwatch_logs_put_retention_policy";
          "cloudwatch_logs_delete_log_stream"; "cloudwatch_delete_logs"];
       block_label := " Log Deletion Attack";
       block_required :=
         ["cloudtrail_delete_trail"; "cloudtrail_stop_logging";
          "cloudtrail_put_event_selectors"; "cloudwatch_logs_delete_log_group";
          "cloudwatch_logs_stop_logging"; "cloudwatch_logs_put_retention_policy";
          "cloudwatch_logs_delete_log_stream"; "cloudwatch_delete_logs"] |};
    {| block_flow := "Forensic Cleanup Attack";
       block_services :=
         ["secrets_manager_delete_secret"; "s3_delete_bucket";
          "lambda_delete_function"];
       block_label := " Forensic Cleanup Attack";
       block_required :=
         ["secrets_manager_delete_secret"; "s3_delete_bucket";
          "lambda_delete_function"] |} ].

(** The operations a selection of flows probes, in probing order. *)
Definition selected_services (flows_to_check : list string) : list string :=
  flat_map block_services
    (filter (fun b => list_in (block_flow b) flows_to_check) probe_blocks).

(** The dictionary returned by [check_service_permissions] on a normal run. *)
Record report := {
  rep_results : dict probe_result;
  rep_total_score : Z;
  rep_accessible_services : list string;
  rep_escalation_results : dict escalation_entry;
  rep_performance_stats : performance
}.

(** [{'error': ...}] when the clients cannot be built, the report otherwise. *)
Inductive scan_outcome :=
| ClientConstructionError
| Report (r : report).

Section Scan.

Variable w : world.

Definition run_block (flows_to_check : list string) (b : probe_block) : M unit :=
  if list_in (block_flow b) flows_to_check
  then probe_all w (block_services b) ;;
       check_escalation_block (block_label b) (block_required b)
  else ret tt.

Fixpoint run_blocks (flows_to_check : list string) (bs : list probe_block)
    : M unit :=
  match bs with
  | [] => ret tt
  | b :: rest => run_block flows_to_check b ;; run_blocks flows_to_check rest
  end.

(** [check_service_permissions(access_key, secret_key, region, filters)] *)
Definition check_service_permissions (filters : dict bool) : M scan_outcome :=
  let flows_to_check := _determine_flows_to_check filters in
  modify (with_results empty) ;;
  modify (with_total 0) ;;
  modify (with_escalation empty) ;;
  if negb (clients_ok w) then ret ClientConstructionError
  else
    modify (with_current 0) ;;
    run_blocks flows_to_check probe_blocks ;;
    m <- gets (fun m => m) ;;
    ret (Report
      {| rep_results := results m;
         rep_total_score := total_score m;
         rep_accessible_services :=
           map fst (filter (fun kv => accessible (snd kv)) (items (results m)));
         rep_escalation_results := escalation_results m;
         rep_performance_stats := performance_stats m |}).

End Scan.

(** ** Scoring *)

(** The dictionary returned by [get_account_category]: the bucket's fields,
    and ['key'] when the bucket was found by the scan. *)
Record category := {
  cat_info : category_info;
  cat_key : option string
}.

Fixpoint first_category (cats : list (string * category_info)) (score : Z)
    : option category :=
  match cats with
  | [] => None
  | (category_key, info) :: rest =>
      if min_score info <=? score
      then Some {| cat_info := info; cat_key := Some category_key |}
      else first_category rest score
  end.

(** [get_account_category(score)] over a table [cats]; [None] stands for the
    [KeyError] of [cats['minimal']]. *)
Definition get_account_category_in (cats : dict category_info) (score : Z)
    : option category :=
  match first_category (items cats) score with
  | Some c => Some c
  | None =>
      match get "minimal" cats with
      | Some info => Some {| cat_info := info; cat_key := None |}
      | None => None
      end
  end.

Definition get_account_category (score : Z) : option category :=
  get_account_category_in account_categories score.

(** ** Flow analysis *)

(** One role of [escalation_result['roles_analysis']]; a missing
    ['attached_policies'] reads as [[]], a missing ['escalation_score'] as 0. *)
Record role_data := {
  attached_policies : list string;
  escalation_score : Z
}.

(** The [escalation_result] argument: whether it has an ['error'] key, and
    its ['roles_analysis'] (empty when the key is missing). *)
Record escalation_result := {
  has_error : bool;
  roles_analysis : dict role_data
}.

(** An element of [available_roles]. *)
Record available_role := {
  role_name : string;
  policy_arn : string;
  role_escalation_score : Z
}.

Inductive flow_state :=
| READY
| ESCALATION_NEEDED
| BLOCKED_NO_ESCALATION
| BLOCKED.

(** The [flow_status] dictionary (the ['description'] and ['action'] texts
    are left out). *)
Record flow_status := {
  fs_flow_key : string;
  fs_flow_name : string;
  fs_required_services : list string;
  fs_available_services : list string;
  fs_missing_services : list string;
  fs_escalation_roles : list string;
  fs_available_escalation_roles : list available_role;
  fs_completion_percentage : Z;
  fs_status : flow_state
}.

(** The lists of [flow_analysis] (the ['recommendations'] texts are left out). *)
Record flow_analysis := {
  available_flows : list flow_status;
  blocked_flows : list flow_status;
  escalation_opportunities : list flow_status
}.

(** [int((len(available_services) / len(required_services)) * 100)
     if required_services else 0], in binary64 arithmetic:
    [float_percent] is the arithmetic on the two lengths. *)
Definition float_percent (n_available n_required : nat) : Z :=
  int_of_float
    (PrimFloat.mul
       (PrimFloat.div (float_of_len n_available) (float_of_len n_required))
       (float_of_len 100)).

Definition completion_percentage (available required : list string) : Z :=
  match required with
  | [] => 0
  | _ :: _ => float_percent (List.length available) (List.length required)
  end.

(** The accessible operations read off [permissions_result['results']]. *)
Definition accessible_services_of (res : dict probe_result) : list string :=
  map fst (filter (fun kv => accessible (snd kv)) (items res)).

(** The [available_roles] list built for one flow. *)
Definition available_roles_for (esc : escalation_result)
    (markers : list string) : list available_role :=
  if has_error esc then []
  else
    flat_map (fun kv : string * role_data =>
      flat_map (fun arn =>
        flat_map (fun escalation_role =>
          if str_in escalation_role arn
          then [ {| role_name := fst kv; policy_arn := arn;
                    role_escalation_score := escalation_score (snd kv) |} ]
          else [])
          markers)
        (attached_policies (snd kv)))
      (items (roles_analysis esc)).

(** The body of the loop of [analyze_attack_flows] for one flow. *)
Definition analyze_flow (accessible_services : list string)
    (esc : escalation_result) (flow_key : string) (info : flow_info)
    : flow_status :=
  let required := required_services info in
  let available := filter (fun s => list_in s accessible_services) required in
  let missing :=
    filter (fun s => negb (list_in s accessible_services)) required in
  let available_roles := available_roles_for esc (escalation_roles info) in
  {| fs_flow_key := flow_key;
     fs_flow_name := flow_name info;
     fs_required_services := required;
     fs_available_services := available;
     fs_missing_services := missing;
     fs_escalation_roles := escalation_roles info;
     fs_available_escalation_roles := available_roles;
     fs_completion_percentage := completion_percentage available required;
     fs_status :=
       if (List.length available =? List.length required)%nat then READY
       else if (0 <? List.length available)%nat
               && negb (match available_roles with [] => true | _ => false end)
       then ESCALATION_NEEDED
       else if (0 <? List.length available)%nat then BLOCKED_NO_ESCALATION
       else BLOCKED |}.

(** The list of [flow_analysis] that holds the flows of a given state. *)
Definition list_of_state (fa : flow_analysis) (st : flow_state)
    : list flow_status :=
  match st with
  | READY => available_flows fa
  | ESCALATION_NEEDED => escalation_opportunities fa
  | BLOCKED_NO_ESCALATION | BLOCKED => blocked_flows fa
  end.

(** Whether [available_roles] is non-empty (its truth value in Python). *)
Definition has_match (roles : list available_role) : bool :=
  match roles with [] => false | _ :: _ => true end.

(** Filing of a status in the list its state selects. *)
Definition file_status (fa : flow_analysis) (fs : flow_status) : flow_analysis :=
  match fs_status fs with
  | READY =>
      {| available_flows := available_flows fa ++ [fs];
         blocked_flows := blocked_flows fa;
         escalation_opportunities := escalation_opportunities fa |}
  | ESCALATION_NEEDED =>
      {| available_flows := available_flows fa;
         blocked_flows := blocked_flows fa;
         escalation_opportunities := escalation_opportunities fa ++ [fs] |}
  | BLOCKED_NO_ESCALATION | BLOCKED =>
      {| available_flows := available_flows fa;
         blocked_flows := blocked_flows fa ++ [fs];
         escalation_opportunities := escalation_opportunities fa |}
  end.

(** [analyze_attack_flows(permissions_result, escalation_result)] over a
    table of flows. *)
Definition analyze_flows_in (flows : dict flow_info)
    (res : dict probe_result) (esc : escalation_result) : flow_analysis :=
  let accessible_services := accessible_services_of res in
  fold_left
    (fun fa kv => file_status fa (analyze_flow accessible_services esc (fst kv) (snd kv)))
    (items flows)
    {| available_flows := []; blocked_flows := [];
       escalation_opportunities := [] |}.

Definition analyze_attack_flows (res : dict probe_result)
    (esc : escalation_result) : flow_analysis :=
  analyze_flows_in attack_flows res esc.

(** ** The credential gate *)

(** How a call of [sts_client.get_caller_identity()] (client construction
    included) ends: with a response dictionary, with a [ClientError]
    carrying [e.response['Error']['Code']], or with another [Exception];
    [text] is [str(e)]. *)
Inductive sts_outcome :=
| Responded (response : dict string)
| RaisedClientError (error_code : string) (text : string)
| RaisedOther (text : string).

(** The dictionary returned by [_quick_liveness_check]; [None] is a missing
    key. *)
Record liveness := {
  alive : bool;
  lv_account_id : option string;
  lv_response_time : option Z;
  lv_error : option string
}.

Definition invalid_credential_codes : list string :=
  ["InvalidUserID.NotFound"; "SignatureDoesNotMatch"; "InvalidAccessKeyId"].

Definition throttling_codes : list string :=
  ["RequestLimitExceeded"; "ThrottlingException"].

(** [_quick_liveness_check(access_key, secret_key, region)], given how its
    one identity call ends. *)
Definition _quick_liveness_check (call : sts_outcome) : liveness :=
  match call with
  | Responded response =>
      {| alive := true;
         lv_account_id :=
           Some (match get "Account" response with
                 | Some a => a
                 | None => "Unknown"
                 end);
         lv_response_time := Some 0;
         lv_error := None |}
  | RaisedClientError error_code _ =>
      if list_in error_code invalid_credential_codes
      then {| alive := false; lv_account_id := None; lv_response_time := None;
              lv_error := Some "Неверные учетные данные" |}
      else if list_in error_code throttling_codes
      then {| alive := true; lv_account_id := None; lv_response_time := None;
              lv_error := Some "Rate limit (ключ живой, но ограничен)" |}
      else {| alive := false; lv_account_id := None; lv_response_time := None;
              lv_error := Some ("AWS ошибка: " ++ error_code) |}
  | RaisedOther text =>
      {| alive := false; lv_account_id := None; lv_response_time := None;
         lv_error := Some ("Ошибка подключения: " ++ text) |}
  end.

(** What [validate_key] is given by its first two steps and by the platform:
    the error list of [_validate_key_format], the result of
    [_check_aws_connectivity] (the endpoint reached, or the error text), and
    how the identity calls of steps 3 and 4 end. *)
Record gate_inputs := {
  format_errors : list string;
  connectivity : string + string;
  liveness_call : sts_outcome;
  identity_call : sts_outcome
}.

(** The success dictionary of [validate_key]. *)
Record identity := {
  id_account_id : string;
  id_arn : string;
  id_user_id : string;
  id_username : string
}.

(** The dictionaries [validate_key] returns. *)
Inductive validation :=
| Invalid (error : string) (format_errs : list string)
| Valid (i : identity).

(** [s.split('/')[-1]]: the text after the last ['/'] of [s] (all of [s]
    when it has none); [acc] is the segment read so far. *)
Fixpoint last_segment (acc s : string) : string :=
  match s with
  | EmptyString => acc
  | String c s' =>
      if Ascii.eqb c "/"%char then last_segment EmptyString s'
      else last_segment (acc ++ String c EmptyString) s'
  end.

Definition username_of_arn (arn : string) : string :=
  if str_in "/" arn then last_segment EmptyString arn else "root".

Section Gate.

Variable w : world.
Variable g : gate_inputs.

(** Step 4 of [validate_key]: the [try] block and its handler. *)
Definition full_validation (start_time : Q) : M validation :=
  let timeout := _get_adaptive_timeout "sts_get_caller_identity" "read" in
  emit (MakeConfig "sts_get_caller_identity" timeout) ;;
  emit (RemoteCall "sts_get_caller_identity") ;;
  let failed (text : string) : M validation :=
    t <- time_time w ;;
    _update_performance_stats "sts_get_caller_identity" (t - start_time)%Q false ;;
    ret (Invalid text []) in
  match identity_call g with
  | Responded response =>
      t <- time_time w ;;
      _update_performance_stats "sts_get_caller_identity" (t - start_time)%Q true ;;
      match get "Account" response, get "Arn" response, get "UserId" response with
      | Some account, Some arn, Some user_id =>
          ret (Valid {| id_account_id := account; id_arn := arn;
                        id_user_id := user_id;
                        id_username := username_of_arn arn |})
      | None, _, _ => failed "'Account'"
      | _, None, _ => failed "'Arn'"
      | _, _, None => failed "'UserId'"
      end
  | RaisedClientError _ text => failed text
  | RaisedOther text => failed text
  end.

(** [validate_key(access_key, secret_key, region)] *)
Definition validate_key : M (outcome validation) :=
  start_time <- time_time w ;;
  match format_errors g with
  | _ :: _ =>
      ret (Returns (Invalid "Неверный формат ключей" (format_errors g)))
  | [] =>
      match connectivity g with
      | inr error => ret (Returns (Invalid ("AWS недоступен: " ++ error) []))
      | inl _ =>
          emit (RemoteCall "sts_get_caller_identity") ;;
          let liveness_check := _quick_liveness_check (liveness_call g) in
          if negb (alive liveness_check)
          then
            match lv_error liveness_check with
            | Some error =>
                ret (Returns (Invalid ("Ключ неактивен: " ++ error) []))
            | None => ret (Raises "KeyError: 'error'")
            end
          else
            match lv_account_id liveness_check with
            | None => ret (Raises "KeyError: 'account_id'")
            | Some _ =>
                v <- full_validation start_time ;;
                ret (Returns v)
            end
      end
  end.

End Gate.

(** ** Vocabulary for the statements about the engine *)

(** The sign of a binary64 number; a NaN has none. *)
Definition sf_sign (s : bool) (f : spec_float) : Prop :=
  match f with
  | S754_nan => True
  | S754_zero s' | S754_infinity s' | S754_finite s' _ _ => s' = s
  end.

(** The remote invocations of one operation in a trace. *)
Definition calls_to (service_name : string) (tr : list event) : nat :=
  List.length
    (filter (fun e => match e with
                      | RemoteCall n => String.eqb n service_name
                      | _ => false
                      end) tr).

(** A [Config] was built for the operation. *)
Definition configured (service_name : string) (tr : list event) : Prop :=
  exists timeout, In (MakeConfig service_name timeout) tr.

(** The recorded outcome of a probe that exhausted its retries. *)
Definition failed_result : probe_result := {| accessible := false; score := 0 |}.

(** What [_is_cache_valid] answers inside [check_service] called on store
    [m]: the entry exists and is younger than [cache_ttl] at the clock
    reading taken by the check (the second reading of the call). *)
Definition cache_fresh (w : world) (m : machine) (service_name : string) : bool :=
  match get service_name (service_cache m) with
  | None => false
  | Some entry =>
      Qltb (now w (S (clock_reads m)) - timestamp entry) (inject_Z cache_ttl)
  end.

(** Every one of the [retry_attempts] remote invocations that a probe
    started on store [m] would make raises. *)
Definition probe_fails (w : world) (m : machine) (service_name : string) : Prop :=
  forall i, (i < retry_attempts)%nat ->
            remote w service_name (remote_calls (trace m) + i) = false.

(** The store a probe starts from after a cache miss: only clock readings
    were consumed. *)
Definition after_cache_check (m : machine) (service_name : string) : machine :=
  with_clock
    (match get service_name (service_cache m) with
     | None => S (clock_reads m)
     | Some _ => S (S (clock_reads m))
     end) m.

(** The store at the start of the probes of [check_service_permissions]. *)
Definition scan_start (m : machine) : machine :=
  with_current 0 (with_escalation empty (with_total 0 (with_results empty m))).

(** A computation that neither reads nor writes [escalation_results]. *)
Definition esc_indep {A} (c : M A) : Prop :=
  forall (e : dict escalation_entry) (m : machine),
    c (with_escalation e m) = (fst (c m), with_escalation e (snd (c m))).

(** Every outcome held by a dictionary is a failure. *)
Definition all_failed_results (d : dict probe_result) : Prop :=
  Forall (fun kv => snd kv = failed_result) (items d).

Definition all_failed_cache (d : dict cache_entry) : Prop :=
  Forall (fun kv => result (snd kv) = failed_result) (items d).

(** A platform that grants every operation, with a clock that advances one
    second per reading. *)
Definition granting_world : world :=
  {| now := fun k => inject_Z (Z.of_nat k);
     remote := fun _ _ => true;
     clients_ok := true |}.

(** A platform that grants [s3_delete_bucket] and nothing else. *)
Definition s3_delete_only_world : world :=
  {| now := fun k => inject_Z (Z.of_nat k);
     remote := fun name _ => String.eqb name "s3_delete_bucket";
     clients_ok := true |}.

Definition report_of (o : scan_outcome) : option report :=
  match o with
  | Report r => Some r
  | ClientConstructionError => None
  end.

(** Every cached outcome carries the catalogue weight of its operation when
    accessible, and 0 otherwise. *)
Definition cache_consistent (d : dict cache_entry) : Prop :=
  Forall (fun kv => score (result (snd kv))
                    = if accessible (result (snd kv)) then weight (fst kv) else 0)
         (items d).

(** ** The specification's wording, for comparison *)

(** The threshold table as the specification writes it. *)
Definition spec_thresholds : list (Z * string) :=
  [ (50, "critical"); (30, "high"); (15, "medium"); (5, "low"); (0, "minimal") ].

(** The first bucket, from the highest threshold down, whose threshold is at
    most the score; the minimal bucket when there is none. *)
Definition spec_category (score : Z) : string :=
  match find (fun b => fst b <=? score) spec_thresholds with
  | Some b => snd b
  | None => "minimal"
  end.

(** [round(q)]: the nearest integer, ties to the even one. *)
Definition round_half_even (q : Q) : Z :=
  let f := Qfloor q in
  match (q - inject_Z f ?= 1 # 2)%Q with
  | Lt => f
  | Gt => f + 1
  | Eq => if Z.even f then f else f + 1
  end.

(** [round(100 * |available| / |required|)], 0 for an empty requirement. *)
Definition spec_completion_percent (available required : nat) : Z :=
  match required with
  | O => 0
  | S _ =>
      round_half_even
        (inject_Z (100 * Z.of_nat available) / inject_Z (Z.of_nat required))%Q
  end.

(** An identifier that implies a write. *)
Definition spec_write_like (service_name : string) : bool :=
  any_in ["create"; "delete"; "update"; "attach"; "put"] service_name.

(** [min(baseTimeout * backoffMultiplier ^ n, maxTimeout)], for every [n]. *)
Definition spec_backoff_delay (n : nat) : Q :=
  Qmin (3 * (3 # 2) ^ Z.of_nat n) 30.

(** [min(3 * average(recent elapsed), maxTimeout)] *)
Definition spec_timeout_override (recent : list Q) : Q :=
  Qmin (3 * (Qsum recent / inject_Z (Z.of_nat (List.length recent))))
       (inject_Z max_timeout).

(** The flow state by the precedence of the specification, from three
    facts: every required operation is accessible, some required operation
    is accessible, some role matches. *)
Definition spec_flow_state (all_accessible some_accessible role_matches : bool)
    : flow_state :=
  if all_accessible then READY
  else if some_accessible && role_matches then ESCALATION_NEEDED
  else if some_accessible then BLOCKED_NO_ESCALATION
  else BLOCKED.

(** The sum of the catalogue weights of a list of operations. *)
Definition weight_sum (service_names : list string) : Z :=
  Zsum (map weight service_names).

(** ** Vocabulary for the further properties *)

(** One call of [_update_performance_stats]: the operation, the elapsed
    time and the success flag. *)
Record sample := {
  sample_service : string;
  sample_time : Q;
  sample_success : bool
}.

(** The statistics after a sequence of [_update_performance_stats] calls. *)
Definition record_log (log : list sample) (p : performance) : performance :=
  fold_left
    (fun p s => record_sample (sample_service s) (sample_time s)
                  (sample_success s) p)
    log p.

(** The elapsed times logged for one operation, oldest first. *)
Definition history_of (log : list sample) (service_name : string) : list Q :=
  map sample_time
      (filter (fun s => String.eqb (sample_service s) service_name) log).

(** The statistics of a fresh validator. *)
Definition fresh_stats : performance := performance_stats new_validator.

(** The time slept by a list of events. *)
Definition sleep_total (evs : list event) : Q :=
  Qsum (flat_map (fun e => match e with Sleep d => [d] | _ => [] end) evs).

Definition sleeps (evs : list event) : nat :=
  List.length (filter (fun e => match e with Sleep _ => true | _ => false end) evs).

(** [results.get(s, {}).get('accessible', False)] *)
Definition accessible_in (res : dict probe_result) (s : string) : bool :=
  match get s res with
  | Some r => accessible r
  | None => false
  end.

Definition flow_state_eqb (a b : flow_state) : bool :=
  match a, b with
  | READY, READY
  | ESCALATION_NEEDED, ESCALATION_NEEDED
  | BLOCKED_NO_ESCALATION, BLOCKED_NO_ESCALATION
  | BLOCKED, BLOCKED => true
  | _, _ => false
  end.

(** The statuses [analyze_attack_flows] computes, in the order of the table. *)
Definition flow_statuses (flows : dict flow_info) (res : dict probe_result)
    (esc : escalation_result) : list flow_status :=
  map (fun kv => analyze_flow (accessible_services_of res) esc (fst kv) (snd kv))
      (items flows).

(** The threshold of the bucket a score falls in, by the table of the source. *)
Definition threshold_of (score : Z) : Z :=
  if 50 <=? score then 50
  else if 30 <=? score then 30
  else if 15 <=? score then 15
  else if 5 <=? score then 5
  else 0.

(** The number of probes of a trace that went to the platform: one
    [Config] is built per such probe. *)
Definition config_count (tr : list event) : nat :=
  List.length (filter (fun e => match e with MakeConfig _ _ => true | _ => false end) tr).

(** Every recorded outcome carries the catalogue weight of its operation
    when accessible, and 0 otherwise. *)
Definition results_consistent (d : dict probe_result) : Prop :=
  Forall (fun kv => score (snd kv)
                    = if accessible (snd kv) then weight (fst kv) else 0)
         (items d).

(** Every recorded outcome is the outcome cached for its operation. *)
Definition results_in_cache (res : dict probe_result) (c : dict cache_entry)
    : Prop :=
  forall name o, get name res = Some o ->
                 exists entry, get name c = Some entry /\ result entry = o.

(** Every cached entry is younger than the TTL at every clock reading. *)
Definition cache_young (w : world) (c : dict cache_entry) : Prop :=
  Forall (fun kv => forall k, (now w k - timestamp (snd kv) < inject_Z cache_ttl)%Q)
         (items c).

(** All clock readings lie within less than the TTL of one another. *)
Definition clock_within_ttl (w : world) : Prop :=
  forall j k, (now w j - now w k < inject_Z cache_ttl)%Q.

(** The outcome the cache holds for an operation. *)
Definition cached_result (c : dict cache_entry) (name : string) : probe_result :=
  match get name c with
  | Some entry => result entry
  | None => failed_result
  end.

(** The [results] and the total a run of cache hits builds for a list of
    operations, from the dictionary and the total it starts with. *)
Definition results_from_cache (c : dict cache_entry) (names : list string)
    (start : dict probe_result) : dict probe_result :=
  fold_left (fun d n => set n (cached_result c n) d) names start.

Definition total_from_cache (c : dict cache_entry) (names : list string)
    (start : Z) : Z :=
  fold_left (fun t n => t + score (cached_result c n)) names start.

(** A platform that grants everything, with a clock that stands still. *)
Definition still_world : world :=
  {| now := fun _ => 0%Q;
     remote := fun _ _ => true;
     clients_ok := true |}.

(** The four priority flags of a filter dictionary. *)
Definition any_priority (filters : dict bool) : bool :=
  filter_on filters "critical" || filter_on filters "high"
  || filter_on filters "medium" || filter_on filters "low".


(** ** [_validate_key_format] *)

(** The keys come from the command line and may hold any character, and
    [len] counts characters: here a key is the list of its code points. *)
Definition pystr : Type := list N.

(** ['AKIA'] *)
Definition AKIA : pystr := [65; 75; 73; 65]%N.

(** [s.startswith(p)] *)
Fixpoint startswith (p s : pystr) : bool :=
  match p, s with
  | [], _ => true
  | _ :: _, [] => false
  | a :: p', b :: s' => N.eqb a b && startswith p' s'
  end.

(** [s.replace('AKIA', '')]: the occurrences are removed from left to right,
    without overlap. *)
Fixpoint replace_AKIA (s : pystr) : pystr :=
  match s with
  | [] => []
  | c :: s' =>
      match s' with
      | _ :: _ :: _ :: rest =>
          if startswith AKIA s then replace_AKIA rest else c :: replace_AKIA s'
      | _ => c :: replace_AKIA s'
      end
  end.

(** [{'valid': ..., 'errors': ...}] *)
Record format_check := {
  fmt_valid : bool;
  fmt_errors : list string
}.

Section KeyFormat.

(** [c.isalnum()] on one character, as the Unicode tables define it. *)
Variable isalnum : N -> bool.

(** [s.isalnum()]: every character is alphanumeric and there is at least
    one. *)
Definition str_isalnum (s : pystr) : bool :=
  match s with
  | [] => false
  | _ :: _ => forallb isalnum s
  end.

(** [c.isalnum() or c in '+/='] *)
Definition secret_char (c : N) : bool :=
  isalnum c || existsb (N.eqb c) [43; 47; 61]%N.

(** The first [if] chain; the [isinstance] branch cannot be taken by a
    [str]. *)
Definition access_key_errors (access_key : pystr) : list string :=
  match access_key with
  | [] => ["Access Key ID не может быть пустым"]
  | _ :: _ =>
      if negb (List.length access_key =? 20)%nat
      then ["Access Key ID должен содержать ровно 20 символов"]
      else if negb (startswith AKIA access_key)
      then ["Access Key ID должен начинаться с 'AKIA'"]
      else if negb (str_isalnum (replace_AKIA access_key))
      then ["Access Key ID содержит недопустимые символы"]
      else []
  end.

(** The second [if] chain. *)
Definition secret_key_errors (secret_key : pystr) : list string :=
  match secret_key with
  | [] => ["Secret Access Key не может быть пустым"]
  | _ :: _ =>
      if negb (List.length secret_key =? 40)%nat
      then ["Secret Access Key должен содержать ровно 40 символов"]
      else if negb (forallb secret_char secret_key)
      then ["Secret Access Key содержит недопустимые символы"]
      else []
  end.

(** [_validate_key_format(access_key, secret_key)] *)
Definition _validate_key_format (access_key secret_key : pystr) : format_check :=
  let errors := (access_key_errors access_key
                 ++ secret_key_errors secret_key)%list in
  {| fmt_valid := (List.length errors =? 0)%nat; fmt_errors := errors |}.

End KeyFormat.

(** [AKIA] written [n] times. *)
Fixpoint AKIA_times (n : nat) : pystr :=
  match n with
  | O => []
  | S n' => (AKIA ++ AKIA_times n')%list
  end.

(** The alphanumeric test on the ASCII range: digits and letters. *)
Definition ascii_isalnum (c : N) : bool :=
  ((48 <=? c) && (c <=? 57) || (65 <=? c) && (c <=? 90)
   || (97 <=? c) && (c <=? 122))%N.

(** ** [TelegramNotifier] *)

(** One entry of [escalation_definitions]. *)
Record escalation_definition := {
  def_emoji : string;
  def_required_services : list string;
  def_description : string;
  def_capabilities : list string
}.

Definition escalation_definitions : dict escalation_definition := of_literal
  [
    ("IAM User Escalation",
     {| def_emoji := "👤";
        def_required_services :=
          ["iam_create_user"; "iam_attach_user_policy";
           "iam_create_access_key"; "iam_put_user_policy";
           "iam_create_login_profile"];
        def_description := "Создание пользователей с административными правами";
        def_capabilities :=
          ["Создание новых пользователей с полными правами";
           "Прикрепление политик AdministratorAccess к пользователям";
           "Создание ключей доступа для новых пользователей";
           "Получение административного доступа к аккаунту";
           "Создание backdoor для постоянного доступа"] |});
    ("IAM Role Escalation",
     {| def_emoji := "🔑";
        def_required_services :=
          ["iam_create_role"; "iam_attach_role_policy"; "sts_assume_role";
           "iam_pass_role"; "iam_put_role_policy";
           "iam_update_assume_role_policy"];
        def_description := "Создание ролей для принятия с полными правами";
        def_capabilities :=
          ["Создание ролей с полными правами";
           "Прикрепление политик AdministratorAccess к ролям";
           "Передача ролей в сервисы (Lambda, EC2)";
           "Принятие ролей с административным доступом";
           "Получение временных учетных данных с высокими правами"] |});
    ("Secrets Manager",
     {| def_emoji := "🔐";
        def_required_services :=
          ["secrets_manager_secrets"; "secrets_manager_create_secret";
           "secrets_manager_update_secret";
           "secrets_manager_put_secret_value";
           "secrets_manager_delete_secret"; "secrets_manager_restore_secret";
           "secrets_manager_rotate_secret"];
        def_description := "Получение и создание паролей, API ключей, сертификатов";
        def_capabilities :=
          ["Извлечение всех секретов из AWS Secrets Manager";
           "Получение паролей к базам данных и сервисам";
           "Создание секретов для хранения компрометирующих данных";
           "Обновление существующих секретов с новыми данными";
           "Доступ к API ключам сторонних сервисов"] |});
    ("Systems Manager",
     {| def_emoji := "⚙️";
        def_required_services :=
          ["systems_manager_commands"; "systems_manager_parameters";
           "systems_manager_send_command"; "systems_manager_start_session";
           "systems_manager_terminate_session";
           "systems_manager_create_document";
           "systems_manager_update_document"; "systems_manager_delete_document"];
        def_description := "Удаленное выполнение команд и получение конфигураций";
        def_capabilities :=
          ["Выполнение команд на всех EC2 инстансах";
           "Получение конфигурационных файлов серверов";
           "Отправка команд на EC2 инстансы для удаленного выполнения";
           "Интерактивные сессии на серверах через SSM";
           "Установка программного обеспечения";
           "Сбор логов и метрик с серверов"] |});
    ("S3 Data Exfiltration",
     {| def_emoji := "💾";
        def_required_services :=
          ["s3_buckets"; "s3_objects"; "s3_put_object"; "s3_create_bucket";
           "s3_delete_bucket"; "s3_get_object"; "s3_get_object_acl";
           "s3_put_object_acl"; "s3_put_bucket_policy"; "s3_put_bucket_acl"];
        def_description := "Прямой доступ к данным и создание backdoor";
        def_capabilities :=
          ["Скачивание всех файлов из S3 бакетов";
           "Извлечение резервных копий и дампов";
           "Загрузка файлов для создания backdoor";
           "Создание новых S3 бакетов для хранения данных";
           "Удаление S3 бакетов для сокрытия следов атаки";
           "Доступ к статическим ресурсам веб-сайтов"] |});
    ("EC2 Management",
     {| def_emoji := "💻";
        def_required_services :=
          ["ec2_instances"; "ec2_volumes"; "ec2_snapshots";
           "ec2_run_instances"; "ec2_create_key_pair"; "ec2_start_instances";
           "ec2_authorize_security_group_ingress";
           "ec2_create_security_group"; "ec2_create_image";
           "ec2_modify_instance_attribute"; "ec2_modify_volume";
           "ec2_create_tags"];
        def_description := "Доступ к серверам и создание новых инстансов";
        def_capabilities :=
          ["Получение списка всех серверов и их IP";
           "Создание снимков дисков для анализа";
           "Создание новых EC2 инстансов для контроля";
           "Создание SSH ключей для доступа к инстансам";
           "Запуск остановленных инстансов для получения доступа";
           "Открытие портов в security groups для доступа";
           "Доступ к метаданным инстансов"] |});
    ("Lambda Privilege Escalation",
     {| def_emoji := "🚀";
        def_required_services :=
          ["lambda_functions"; "lambda_create_function";
           "lambda_invoke_function"; "lambda_update_function_code";
           "lambda_delete_function"; "lambda_get_function";
           "lambda_update_function_configuration"; "lambda_add_permission";
           "lambda_publish_version"; "lambda_create_layer_version";
           "lambda_create_alias"; "lambda_update_alias";
           "lambda_delete_alias"; "lambda_get_layer_version";
           "lambda_delete_layer_version"];
        def_description := "Полная эскалация через Lambda функции и слои";
        def_capabilities :=
          ["Создание Lambda функций с повышенными правами";
           "Выполнение произвольного кода в облаке";
           "Изменение кода существующих Lambda функций";
           "Удаление Lambda функций для сокрытия следов атаки";
           "Получение детальной информации о функциях для анализа";
           "Изменение конфигурации функций для повышения привилегий";
           "Добавление разрешений к функциям для внешнего доступа";
           "Публикация версий функций для создания backdoor";
           "Создание слоев Lambda для внедрения вредоносного кода";
           "Создание backdoor для постоянного доступа"] |});
    ("Security & Compliance",
     {| def_emoji := "🔒";
        def_required_services :=
          ["kms_keys"; "kms_aliases"; "kms_create_key"; "kms_put_key_policy"];
        def_description := "Ключи и шифрование";
        def_capabilities :=
          ["Расшифровка зашифрованных данных";
           "Доступ к ключам шифрования";
           "Создание новых ключей шифрования для контроля";
           "Удаление ключей шифрования для нарушения работы системы";
           "Изменение политик ключей для эскалации привилегий";
           "Обход защиты данных";
           "Получение зашифрованных секретов"] |});
    ("IAM Groups Escalation",
     {| def_emoji := "👥";
        def_required_services :=
          ["iam_users"; "iam_groups"; "iam_create_group";
           "iam_attach_group_policy"; "iam_add_user_to_group"];
        def_description := "Эскалация через создание группы с полными правами";
        def_capabilities :=
          ["Создание административной группы";
           "Прикрепление политики с полными правами";
           "Добавление себя в группу";
           "Получение административного доступа"] |});
    ("IAM Full Control",
     {| def_emoji := "👑";
        def_required_services :=
          ["iam_create_user"; "iam_attach_user_policy";
           "iam_create_access_key"; "iam_put_user_policy";
           "iam_create_login_profile"; "iam_create_role";
           "iam_attach_role_policy"; "iam_put_role_policy";
           "iam_update_assume_role_policy"; "sts_assume_role"; "iam_pass_role"];
        def_description := "Полный контроль над IAM и всеми пользователями";
        def_capabilities :=
          ["Создание пользователей с любыми правами";
           "Создание ролей с любыми правами";
           "Создание inline политик";
           "Создание паролей для консольного доступа";
           "Изменение trust policy ролей";
           "Полный административный контроль"] |});
    ("Data Exfiltration Complete",
     {| def_emoji := "📊";
        def_required_services :=
          ["s3_buckets"; "s3_objects"; "s3_get_object"; "s3_put_object";
           "rds_instances"; "rds_snapshots"; "rds_create_db_snapshot";
           "rds_start_export_task"; "rds_copy_db_snapshot";
           "secrets_manager_secrets"; "secrets_manager_create_secret"];
        def_description := "Полное извлечение всех данных организации";
        def_capabilities :=
          ["Скачивание всех файлов из S3";
           "Создание снимков всех БД";
           "Экспорт данных БД в S3";
           "Извлечение всех секретов";
           "Полная эксфильтрация данных"] |});
    ("Infrastructure Control",
     {| def_emoji := "🏗️";
        def_required_services :=
          ["ec2_instances"; "ec2_run_instances"; "ec2_create_security_group";
           "ec2_create_image"; "ec2_modify_instance_attribute";
           "lambda_create_function"; "lambda_update_function_code";
           "systems_manager_send_command"; "systems_manager_start_session"];
        def_description := "Полный контроль над инфраструктурой";
        def_capabilities :=
          ["Создание новых серверов";
           "Создание групп безопасности";
           "Создание образов AMI";
           "Изменение настроек серверов";
           "Выполнение команд на всех серверах";
           "Полный контроль инфраструктуры"] |}) ].

(** One entry of the dictionary [_analyze_available_escalations] returns. *)
Record notified_flow := {
  nf_emoji : string;
  nf_description : string;
  nf_capabilities : list string;
  nf_status : string
}.

(** The body of the loop of [_analyze_available_escalations] for one
    definition. *)
Definition analyze_definition (accessible_services : list string)
    (escalation_flows : dict notified_flow)
    (entry : string * escalation_definition) : dict notified_flow :=
  let (flow_name, flow_info) := entry in
  let required_services := def_required_services flow_info in
  let available_services :=
    filter (fun s => list_in s accessible_services) required_services in
  if (List.length available_services =? List.length required_services)%nat
  then set flow_name
         {| nf_emoji := def_emoji flow_info;
            nf_description := def_description flow_info;
            nf_capabilities := def_capabilities flow_info;
            nf_status := "READY" |} escalation_flows
  else if (0 <? List.length available_services)%nat
  then set flow_name
         {| nf_emoji := def_emoji flow_info;
            nf_description :=
              def_description flow_info ++ " (частично доступно)";
            nf_capabilities := firstn 2 (def_capabilities flow_info);
            nf_status := "PARTIAL" |} escalation_flows
  else escalation_flows.

Definition analyze_escalations_in (definitions : dict escalation_definition)
    (accessible_services : list string) : dict notified_flow :=
  fold_left (analyze_definition accessible_services) (items definitions) empty.

(** [_analyze_available_escalations(accessible_services)] *)
Definition _analyze_available_escalations (accessible_services : list string)
    : dict notified_flow :=
  analyze_escalations_in escalation_definitions accessible_services.

(** [TelegramNotifier]: the attributes [send_message] reads. *)
Record notifier := {
  bot_token : string;
  chat_id : string;
  enabled : bool
}.

(** [bool(s)] on a string. *)
Definition truthy (s : string) : bool := negb (String.eqb s "").

(** [TelegramNotifier(bot_token, chat_id)] *)
Definition TelegramNotifier (bot_token chat_id : string) : notifier :=
  {| bot_token := bot_token;
     chat_id := chat_id;
     enabled := truthy bot_token && truthy chat_id |}.

(** The [notification_data] dictionary built by [main]; every key that
    [send_validation_result] reads is present. *)
Record notification := {
  nd_account_id : string;
  nd_username : string;
  nd_arn : string;
  nd_access_key : string;
  nd_secret_key : string;
  nd_region : string;
  nd_score : Z;
  nd_category : string;
  nd_accessible_services : nat;
  nd_total_services : nat;
  nd_execution_time : Q;
  nd_accessible_services_list : list string
}.

(** A message, by the template that builds its text and the values the
    template interpolates; the text itself (markup, line breaks, and the
    detection time read from [datetime.now()]) is not modelled. *)
Inductive message :=
| ValidationFailed (error : string)
| AnalysisFailed (exc : string)
| ValidationResult (category account_id : string) (score percent : Z)
    (accessible total : nat) (access_key secret_key region : string)
    (escalation_flows : dict notified_flow).

Section Telegram.

(** The answer to the k-th [requests.post]: the status code, or [None] when
    the call raises. *)
Variable telegram : nat -> option Z.

(** [send_message(message)], on the list of the posts made so far. *)
Definition send_message (self : notifier) (msg : message)
    (posts : list message) : bool * list message :=
  if negb (enabled self) then (false, posts)
  else
    match telegram (List.length posts) with
    | Some status_code => ((status_code =? 200)%Z, (posts ++ [msg])%list)
    | None => (false, (posts ++ [msg])%list)
    end.

(** [send_validation_result(data)]: the division of the message template
    raises when [total_services] is 0. *)
Definition send_validation_result (self : notifier) (data : notification)
    (posts : list message) : outcome bool * list message :=
  let escalation_flows :=
    _analyze_available_escalations (nd_accessible_services_list data) in
  match nd_total_services data with
  | O => (Raises "ZeroDivisionError: division by zero", posts)
  | S _ =>
      let percent :=
        float_percent (nd_accessible_services data) (nd_total_services data) in
      let (sent, posts') :=
        send_message self
          (ValidationResult (nd_category data) (nd_account_id data)
             (nd_score data) percent (nd_accessible_services data)
             (nd_total_services data) (nd_access_key data)
             (nd_secret_key data) (nd_region data) escalation_flows)
          posts in
      (Returns sent, posts')
  end.

End Telegram.

(** ** [main] *)

(** The parsed command line. *)
Record arguments := {
  arg_access_key : string;
  arg_secret_key : string;
  arg_region : string;
  arg_critical : bool;
  arg_high : bool;
  arg_medium : bool;
  arg_low : bool
}.

(** How [main] ends: it returns, or [sys.exit(code)] ends the process. *)
Inductive ending :=
| Returned
| SystemExit (code : Z).

(** What a run of [main] does: how it ends, the events at the platform and
    the messages posted. Printing is left out. *)
Record main_run := {
  run_ending : ending;
  run_trace : list event;
  run_posts : list message
}.

Section Main.

Variable w : world.
Variable g : gate_inputs.
Variable telegram : nat -> option Z.

(** [os.getenv('TELEGRAM_BOT_TOKEN')] and [os.getenv('TELEGRAM_CHAT_ID')] *)
Variable env_bot_token : option string.
Variable env_chat_id : option string.

(** [TelegramNotifier(bot_token, chat_id) if bot_token and chat_id else None] *)
Definition telegram_notifier : option notifier :=
  match env_bot_token, env_chat_id with
  | Some bot_token, Some chat_id =>
      if truthy bot_token && truthy chat_id
      then Some (TelegramNotifier bot_token chat_id)
      else None
  | _, _ => None
  end.

(** The handler [except Exception as e]. *)
Definition unexpected_error (exc : string) (m : machine)
    (posts : list message) : main_run :=
  let posts' :=
    match telegram_notifier with
    | Some n => snd (send_message telegram n (AnalysisFailed exc) posts)
    | None => posts
    end in
  {| run_ending := SystemExit 1; run_trace := trace m; run_posts := posts' |}.

(** [main()], after the command line is parsed. [KeyboardInterrupt] is not
    modelled. *)
Definition main (args : arguments) : main_run :=
  let filters := of_literal
    [("critical", arg_critical args); ("high", arg_high args);
     ("medium", arg_medium args); ("low", arg_low args)] in
  let priority_flags :=
    [arg_critical args; arg_high args; arg_medium args; arg_low args] in
  if 1 <? Zsum (map Z.b2z priority_flags)
  then {| run_ending := Returned; run_trace := []; run_posts := [] |}
  else
    let validator := new_validator in
    let (start_time, m0) := time_time w validator in
    match validate_key w g m0 with
    | (Raises exc, m1) => unexpected_error exc m1 []
    | (Returns (Invalid error _), m1) =>
        let posts :=
          match telegram_notifier with
          | Some n => snd (send_message telegram n (ValidationFailed error) [])
          | None => []
          end in
        {| run_ending := SystemExit 1; run_trace := trace m1;
           run_posts := posts |}
    | (Returns (Valid validation_result), m1) =>
        match check_service_permissions w filters m1 with
        | (ClientConstructionError, m2) =>
            {| run_ending := SystemExit 1; run_trace := trace m2;
               run_posts := [] |}
        | (Report permissions_result, m2) =>
            let accessible_count :=
              List.length (filter accessible
                             (values (rep_results permissions_result))) in
            let total_score := rep_total_score permissions_result in
            match get_account_category total_score with
            | None => unexpected_error "KeyError: 'minimal'" m2 []
            | Some category =>
                let (now_, m3) := time_time w m2 in
                let execution_time := (now_ - start_time)%Q in
                match telegram_notifier with
                | None =>
                    {| run_ending := Returned; run_trace := trace m3;
                       run_posts := [] |}
                | Some n =>
                    let notification_data :=
                      {| nd_account_id := id_account_id validation_result;
                         nd_username := id_username validation_result;
                         nd_arn := id_arn validation_result;
                         nd_access_key := arg_access_key args;
                         nd_secret_key := arg_secret_key args;
                         nd_region := arg_region args;
                         nd_score := total_score;
                         nd_category := cat_name (cat_info category);
                         nd_accessible_services := accessible_count;
                         nd_total_services :=
                           List.length (rep_results permissions_result);
                         nd_execution_time := execution_time;
                         nd_accessible_services_list :=
                           rep_accessible_services permissions_result |} in
                    match send_validation_result telegram n
                            notification_data [] with
                    | (Raises exc, posts) => unexpected_error exc m3 posts
                    | (Returns _, posts) =>
                        {| run_ending := Returned; run_trace := trace m3;
                           run_posts := posts |}
                    end
                end
            end
        end
    end.

End Main.

(** ** Vocabulary for the statements about the notifier and [main] *)

(** The operations some block of the scan probes. *)
Definition probed_operations : list string :=
  flat_map block_services probe_blocks.

(** The two entries [_analyze_available_escalations] writes for a
    definition. *)
Definition ready_flow (flow_info : escalation_definition) : notified_flow :=
  {| nf_emoji := def_emoji flow_info;
     nf_description := def_description flow_info;
     nf_capabilities := def_capabilities flow_info;
     nf_status := "READY" |}.

Definition partial_flow (flow_info : escalation_definition) : notified_flow :=
  {| nf_emoji := def_emoji flow_info;
     nf_description := def_description flow_info ++ " (частично доступно)";
     nf_capabilities := firstn 2 (def_capabilities flow_info);
     nf_status := "PARTIAL" |}.

(** The [filters] dictionary [main] builds from the command line. *)
Definition filters_of (args : arguments) : dict bool :=
  of_literal
    [("critical", arg_critical args); ("high", arg_high args);
     ("medium", arg_medium args); ("low", arg_low args)].

(** The number of priority flags given. *)
Definition priority_flag_count (args : arguments) : Z :=
  Zsum (map Z.b2z
          [arg_critical args; arg_high args; arg_medium args; arg_low args]).

(** A run in which every gate of [validate_key] passes. *)
Definition passing_gate : gate_inputs :=
  {| format_errors := [];
     connectivity := inl "sts.amazonaws.com";
     liveness_call := Responded (of_literal [("Account", "123456789012")]);
     identity_call :=
       Responded (of_literal
         [("Account", "123456789012");
          ("Arn", "arn:aws:iam::123456789012:user/alice");
          ("UserId", "AIDAEXAMPLE")]) |}.
(* ================================================================== *)
(** * Part II: properties *)
(* ================================================================== *)

(** ** Dictionaries *)

Module PyDictFacts.

Lemma get_set_eq {V} (k : string) (v : V) (d : dict V) :
  get k (set k v d) = Some v.
Proof.
  induction d as [|[k' v'] d IH]; simpl.
  - now rewrite String.eqb_refl.
  - destruct (String.eqb k k') eqn:E; simpl; rewrite E; auto.
Qed.

Lemma get_set_neq {V} (k k' : string) (v : V) (d : dict V) :
  k <> k' -> get k' (set k v d) = get k' d.
Proof.
  intros N. induction d as [|[k0 v0] d IH]; simpl.
  - destruct (String.eqb k' k) eqn:E; auto.
    apply String.eqb_eq in E. congruence.
  - destruct (String.eqb k k0) eqn:E; simpl.
    + apply String.eqb_eq in E. subst k0.
      destruct (String.eqb k' k) eqn:E'; auto.
      apply String.eqb_eq in E'. congruence.
    + destruct (String.eqb k' k0); auto.
Qed.

Lemma mem_set {V} (k k' : string) (v : V) (d : dict V) :
  mem k' (set k v d) = String.eqb k' k || mem k' d.
Proof.
  unfold mem. destruct (String.eqb k' k) eqn:E.
  - apply String.eqb_eq in E. subst. now rewrite get_set_eq.
  - rewrite get_set_neq; auto.
    intros ->. now rewrite String.eqb_refl in E.
Qed.

End PyDictFacts.

Import PyDictFacts.

(** ** Scoring: account categories *)

(** C2. [get_account_category] is a total function of the score: it never
    fails, its table read in scan order is the threshold table
    [(50,critical) (30,high) (15,medium) (5,low) (0,minimal)], it returns the
    first bucket from the highest threshold down whose threshold is at most
    the score (with its key), and the minimal bucket (without a key) when no
    bucket matches; 49 is high, 50 is critical, 0 is minimal. *)
Theorem account_category_by_thresholds :
  map (fun kv => (min_score (snd kv), fst kv)) (items account_categories)
    = spec_thresholds
  /\ (forall score : Z,
        exists c,
          get_account_category score = Some c
          /\ get (spec_category score) account_categories = Some (cat_info c)
          /\ cat_key c =
               (if 0 <=? score then Some (spec_category score) else None))
  /\ (exists c49 c50 c0,
        get_account_category 49 = Some c49 /\ cat_key c49 = Some "high"
        /\ get_account_category 50 = Some c50 /\ cat_key c50 = Some "critical"
        /\ get_account_category 0 = Some c0 /\ cat_key c0 = Some "minimal").
Proof.
  split; [reflexivity|]. split.
  - intros score.
    unfold get_account_category, get_account_category_in, spec_category.
    cbn [account_categories items of_literal fold_left].
    simpl.
    destruct (Z.leb_spec 50 score);
      [eexists; repeat split; destruct (Z.leb_spec 0 score); try lia; reflexivity|].
    destruct (Z.leb_spec 30 score);
      [eexists; repeat split; destruct (Z.leb_spec 0 score); try lia; reflexivity|].
    destruct (Z.leb_spec 15 score);
      [eexists; repeat split; destruct (Z.leb_spec 0 score); try lia; reflexivity|].
    destruct (Z.leb_spec 5 score);
      [eexists; repeat split; destruct (Z.leb_spec 0 score); try lia; reflexivity|].
    destruct (Z.leb_spec 0 score); eexists; repeat split; reflexivity.
  - do 3 eexists. repeat split; reflexivity.
Qed.

(** ** Backoff *)

Lemma backoff_multiplier_ge_1 : (1 <= backoff_multiplier)%Q.
Proof. unfold backoff_multiplier. lra. Qed.

Lemma backoff_values :
  (backoff_delay 0 == 3
   /\ backoff_delay 1 == 9 # 2
   /\ backoff_delay 2 == 27 # 4
   /\ backoff_delay 6 == 30)%Q.
Proof. repeat split; vm_compute; reflexivity. Qed.

Lemma backoff_delay_monotone (n m : nat) :
  (n <= m)%nat -> (backoff_delay n <= backoff_delay m)%Q.
Proof.
  intros Hnm. unfold backoff_delay.
  apply Q.min_le_compat_r.
  apply Qmult_le_l; [reflexivity|].
  apply Qpower_le_compat_l; [lia | exact backoff_multiplier_ge_1].
Qed.

Lemma backoff_delay_returned (n : nat) :
  (n < backoff_overflow_attempt)%nat ->
  _calculate_backoff_delay n = Returns (backoff_delay n).
Proof.
  intros H. unfold _calculate_backoff_delay.
  apply Nat.ltb_lt in H. now rewrite H.
Qed.

(** C6, as the code has it. For the attempt numbers 0 to 1750, at which
    the power is computed, the delay is [min(3 * 1.5 ^ n, 30)]: it is at
    least [base_timeout], never decreases with the attempt number, never
    exceeds [max_timeout], and is [max_timeout] from attempt 6 on. The
    attempts the retry loop sleeps after are 0 and 1. *)
Theorem backoff_delay_monotone_capped (n m : nat) :
  (n <= m)%nat -> (m < backoff_overflow_attempt)%nat ->
  exists delay_n delay_m : Q,
    _calculate_backoff_delay n = Returns delay_n
    /\ _calculate_backoff_delay m = Returns delay_m
    /\ delay_n = Qmin (3 * (3 # 2) ^ Z.of_nat n) 30
    /\ delay_m = Qmin (3 * (3 # 2) ^ Z.of_nat m) 30
    /\ (inject_Z base_timeout <= delay_n)%Q
    /\ (delay_n <= delay_m)%Q
    /\ (delay_m <= inject_Z max_timeout)%Q
    /\ ((6 <= n)%nat -> (delay_n == inject_Z max_timeout)%Q).
Proof.
  intros Hnm Hm.
  exists (backoff_delay n), (backoff_delay m).
  split; [apply backoff_delay_returned; lia|].
  split; [apply backoff_delay_returned; exact Hm|].
  split; [reflexivity|]. split; [reflexivity|].
  split; [|split; [|split]].
  - apply (Qle_trans _ (backoff_delay 0)).
    + vm_compute. discriminate.
    + apply backoff_delay_monotone. lia.
  - now apply backoff_delay_monotone.
  - apply Q.le_min_r.
  - intros H6. apply Qle_antisym; [apply Q.le_min_r|].
    apply (Qle_trans _ (backoff_delay 6)).
    + vm_compute. discriminate.
    + now apply backoff_delay_monotone.
Qed.

Lemma backoff_delay_monotone_capped_witness :
  (0 <= 1)%nat
  /\ (1 < backoff_overflow_attempt)%nat
  /\ exists delay_0 delay_1 : Q,
       _calculate_backoff_delay 0 = Returns delay_0
       /\ _calculate_backoff_delay 1 = Returns delay_1
       /\ (delay_0 <= delay_1)%Q.
Proof.
  assert (H01 : (0 <= 1)%nat) by lia.
  assert (H1 : (1 < backoff_overflow_attempt)%nat)
    by (unfold backoff_overflow_attempt; lia).
  split; [exact H01|]. split; [exact H1|].
  destruct (backoff_delay_monotone_capped 0 1 H01 H1)
    as (d0 & d1 & E0 & E1 & _ & _ & _ & Hle & _).
  exists d0, d1. auto.
Defined.

(** C6, as the specification words it (for every attempt number), fails
    on the code. The formula gives 30 at attempt 1751; the code computes
    [1.5 ** 1751] in binary64, which is out of range, and raises
    [OverflowError] instead of returning a delay, while at attempt 1750 it
    still returns 30. *)
Lemma backoff_claim_counterexample :
  (spec_backoff_delay 1751 == 30)%Q
  /\ _calculate_backoff_delay 1751
     = Raises "OverflowError: (34, 'Numerical result out of range')"
  /\ (forall delay, _calculate_backoff_delay 1751 <> Returns delay)
  /\ exists delay, _calculate_backoff_delay 1750 = Returns delay
                   /\ (delay == 30)%Q.
Proof.
  split; [vm_compute; reflexivity|].
  assert (E : _calculate_backoff_delay 1751
              = Raises "OverflowError: (34, 'Numerical result out of range')")
    by (vm_compute; reflexivity).
  split; [exact E|]. split; [intros delay H; rewrite E in H; discriminate|].
  exists (backoff_delay 1750). split; [vm_compute; reflexivity|].
  apply Qle_antisym; [apply Q.le_min_r|].
  apply (Qle_trans _ (backoff_delay 6)).
  - vm_compute. discriminate.
  - apply backoff_delay_monotone. lia.
Qed.

(** ** Timeout selection *)

(** *** Signs and truncation in binary64 arithmetic *)

Lemma binary_round_aux_sign (s : bool) (m e : Z) (l : location) :
  sf_sign s (binary_round_aux prec emax s m e l).
Proof.
  unfold binary_round_aux.
  destruct (shr_fexp prec emax m e l) as [mrs' e'].
  destruct (shr_fexp prec emax _ e' loc_Exact) as [mrs'' e''].
  destruct (shr_m mrs''); cbn [sf_sign]; auto.
  destruct (e'' <=? emax - prec); reflexivity.
Qed.

Lemma binary_round_sign (s : bool) (m : positive) (e : Z) :
  sf_sign s (binary_round prec emax s m e).
Proof.
  unfold binary_round. destruct (shl_align _ _ _) as [mz ez].
  apply binary_round_aux_sign.
Qed.

Lemma binary_normalize_nonneg (m e : Z) :
  0 <= m -> sf_sign false (binary_normalize prec emax m e false).
Proof.
  intros H. destruct m as [|p|p]; cbn [binary_normalize sf_sign];
    [reflexivity | apply binary_round_sign | lia].
Qed.

Lemma SFadd_nonneg (x y : spec_float) :
  sf_sign false x -> sf_sign false y -> sf_sign false (SF64add x y).
Proof.
  destruct x as [sx|sx| |sx mx ex], y as [sy|sy| |sy my ey];
    cbn [sf_sign]; intros Hx Hy; subst; cbn [SF64add SFadd sf_sign]; auto.
  unfold SF64add, SFadd. cbn [cond_Zopp].
  apply binary_normalize_nonneg. lia.
Qed.

Lemma SFdiv_sign (x y : spec_float) :
  sf_sign false x -> sf_sign false y -> sf_sign false (SF64div x y).
Proof.
  destruct x as [sx|sx| |sx mx ex], y as [sy|sy| |sy my ey];
    cbn [sf_sign]; intros Hx Hy; subst; cbn [SF64div SFdiv sf_sign xorb]; auto.
  unfold SF64div, SFdiv.
  destruct (SFdiv_core_binary _ _ _ _ _ _) as [[mz ez] lz].
  apply binary_round_aux_sign.
Qed.

Lemma SFmul_sign (x y : spec_float) :
  sf_sign false x -> sf_sign false y -> sf_sign false (SF64mul x y).
Proof.
  destruct x as [sx|sx| |sx mx ex], y as [sy|sy| |sy my ey];
    cbn [sf_sign]; intros Hx Hy; subst; cbn [SF64mul SFmul sf_sign xorb]; auto.
  unfold SF64mul, SFmul. apply binary_round_aux_sign.
Qed.

Lemma of_uint63_nonneg (n : int) : sf_sign false (Prim2SF (of_uint63 n)).
Proof.
  rewrite FloatAxioms.of_uint63_spec. apply binary_normalize_nonneg.
  apply Uint63.to_Z_bounded.
Qed.

Lemma SF2Prim_nonneg (f : spec_float) :
  sf_sign false f -> sf_sign false (Prim2SF (SF2Prim f)).
Proof.
  destruct f as [s|s| |s m e]; cbn [sf_sign]; intros H; subst.
  - vm_compute. reflexivity.
  - vm_compute. reflexivity.
  - vm_compute. exact I.
  - cbn [SF2Prim]. rewrite Z_ldexp_spec.
    pose proof (of_uint63_nonneg (of_Z (Zpos m))) as H.
    destruct (Prim2SF (of_uint63 (of_Z (Zpos m)))) as [s|s| |s m' e'];
      cbn [sf_sign SFldexp] in *; auto.
    subst. apply binary_round_sign.
Qed.

Lemma float_of_Q_nonneg (q : Q) :
  (0 <= q)%Q -> sf_sign false (Prim2SF (float_of_Q q)).
Proof.
  intros H. unfold float_of_Q. apply SF2Prim_nonneg, SFdiv_sign.
  - destruct q as [a b]. unfold Qle in H. cbn in H.
    destruct a; cbn [Qnum Z2SF sf_sign]; auto; lia.
  - reflexivity.
Qed.

Lemma float_sum_nonneg (l : list float) :
  Forall (fun x => sf_sign false (Prim2SF x)) l ->
  sf_sign false (Prim2SF (float_sum l)).
Proof.
  unfold float_sum.
  assert (H : forall acc, sf_sign false (Prim2SF acc) ->
              Forall (fun x => sf_sign false (Prim2SF x)) l ->
              sf_sign false (Prim2SF (fold_left PrimFloat.add l acc))).
  { induction l as [|x l IH]; intros acc Ha Hl; [exact Ha|].
    inversion Hl; subst. cbn [fold_left]. apply IH; [|assumption].
    rewrite FloatAxioms.add_spec. now apply SFadd_nonneg. }
  apply H. vm_compute. reflexivity.
Qed.

Lemma tripled_average_nonneg (recent_times : list Q) :
  Forall (fun t => 0 <= t)%Q recent_times ->
  sf_sign false (Prim2SF (tripled_average recent_times)).
Proof.
  intros H. unfold tripled_average.
  rewrite FloatAxioms.mul_spec. apply SFmul_sign; [|apply of_uint63_nonneg].
  rewrite FloatAxioms.div_spec. apply SFdiv_sign; [|apply of_uint63_nonneg].
  apply float_sum_nonneg. apply Forall_map.
  eapply Forall_impl; [|exact H]. intros t Ht. now apply float_of_Q_nonneg.
Qed.

Lemma int_of_float_truncates (f : float) :
  sf_sign false (Prim2SF f) ->
  0 <= int_of_float f
  /\ (inject_Z (int_of_float f) <= Q_of_float f)%Q
  /\ (Q_of_float f < inject_Z (int_of_float f + 1))%Q.
Proof.
  unfold int_of_float, Q_of_float.
  destruct (Prim2SF f) as [s|s| |s m e]; cbn [sf_sign]; intros H;
    try (split; [lia|split; [apply Qle_refl | reflexivity]]).
  subst s. destruct e as [|p|p].
  - split; [lia|]. split; [apply Qle_refl|].
    rewrite <- Zlt_Qlt. lia.
  - rewrite Z.shiftl_mul_pow2 by lia.
    split; [lia|]. split; [apply Qle_refl|].
    rewrite <- Zlt_Qlt. lia.
  - rewrite Z.shiftr_div_pow2 by lia.
    assert (P : 0 < 2 ^ Zpos p) by (apply Z.pow_pos_nonneg; lia).
    split; [apply Z.div_pos; lia|].
    unfold Qle, Qlt. cbn [Qnum Qden inject_Z].
    rewrite Pos2Z.inj_pow. change (Zpos 2) with 2.
    split.
    + rewrite Z.mul_1_r, Z.mul_comm. apply Z.mul_div_le. exact P.
    + rewrite Z.mul_1_r, Z.mul_comm.
      apply Z.mul_succ_div_gt. exact P.
Qed.

(** C7, as the code has it. With no recorded sample for the operation, an
    identifier containing [create] or [delete] gets [critical_timeout] (15);
    an identifier containing none of create, delete, update, attach, put
    gets [base_timeout] (3) when it contains [list], [describe] or [get], and
    6 otherwise. With at least one recorded sample the identifier no longer
    matters: the timeout is [min(int(avg_time * 3), 30)], where the average
    and the product are binary64 numbers and [int] drops the fractional
    part of the product; for samples that are not negative it is a whole
    number from 0 to 30. (The product is finite for any elapsed time a
    clock can give; [int] of an infinite or undefined product raises.) *)
Theorem optimized_timeout_selection (p : performance) (service_name : string) :
  ((get service_name (service_response_times p) = None
    \/ get service_name (service_response_times p) = Some []) ->
   (str_in "create" service_name || str_in "delete" service_name = true ->
    _get_optimized_timeout p service_name = 15)
   /\ (spec_write_like service_name = false ->
       any_in ["list"; "describe"; "get"] service_name = true ->
       _get_optimized_timeout p service_name = 3)
   /\ (spec_write_like service_name = false ->
       any_in ["list"; "describe"; "get"] service_name = false ->
       _get_optimized_timeout p service_name = 6))
  /\ (forall t ts,
        get service_name (service_response_times p) = Some (t :: ts) ->
        let product := tripled_average (t :: ts) in
        is_finite product = true ->
        _get_optimized_timeout p service_name
        = Z.min (int_of_float product) 30
        /\ (Forall (fun x => 0 <= x)%Q (t :: ts) ->
            0 <= _get_optimized_timeout p service_name <= 30
            /\ (inject_Z (int_of_float product) <= Q_of_float product)%Q
            /\ (Q_of_float product < inject_Z (int_of_float product + 1))%Q)).
Proof.
  split.
  - intros Hnone.
    assert (E : _get_optimized_timeout p service_name
                = _get_adaptive_timeout service_name "read").
    { unfold _get_optimized_timeout. destruct Hnone as [-> | ->]; reflexivity. }
    rewrite E. unfold _get_adaptive_timeout, spec_write_like, any_in.
    cbn [String.eqb Ascii.eqb Bool.eqb orb existsb].
    repeat split.
    + intros ->. reflexivity.
    + intros Hw Hr.
      apply orb_false_iff in Hw as [Hc Hw].
      apply orb_false_iff in Hw as [Hd _].
      rewrite Hc, Hd. cbn [orb]. cbn [existsb] in Hr. rewrite Hr. reflexivity.
    + intros Hw Hr.
      apply orb_false_iff in Hw as [Hc Hw].
      apply orb_false_iff in Hw as [Hd _].
      rewrite Hc, Hd. cbn [orb]. cbn [existsb] in Hr. rewrite Hr. reflexivity.
  - intros t ts Hsome product _.
    assert (E : _get_optimized_timeout p service_name
                = Z.min (int_of_float product) 30).
    { unfold _get_optimized_timeout. rewrite Hsome. reflexivity. }
    split; [exact E|]. intros Hnn.
    destruct (int_of_float_truncates product
                (tripled_average_nonneg _ Hnn)) as (H0 & Hlo & Hhi).
    rewrite E. split; [lia|]. split; assumption.
Qed.

Lemma optimized_timeout_selection_witness :
  _get_optimized_timeout (performance_stats new_validator) "iam_create_user" = 15
  /\ _get_optimized_timeout (performance_stats new_validator) "lambda_get_function" = 3
  /\ _get_optimized_timeout (performance_stats new_validator) "rds_snapshots" = 6
  /\ get "s3_buckets"
       (service_response_times
          (record_sample "s3_buckets" (1 # 2) true
             (performance_stats new_validator))) = Some [1 # 2]%Q
  /\ is_finite (tripled_average [1 # 2]%Q) = true
  /\ Forall (fun x => 0 <= x)%Q [1 # 2]%Q
  /\ 0 <= _get_optimized_timeout
            (record_sample "s3_buckets" (1 # 2) true
               (performance_stats new_validator))
            "s3_buckets" <= 30.
Proof.
  assert (Hget : get "s3_buckets"
                   (service_response_times
                      (record_sample "s3_buckets" (1 # 2) true
                         (performance_stats new_validator)))
                 = Some [1 # 2]%Q) by reflexivity.
  assert (Hnn : Forall (fun x => 0 <= x)%Q [1 # 2]%Q)
    by (constructor; [discriminate | constructor]).
  assert (Hfin : is_finite (tripled_average [1 # 2]%Q) = true)
    by (vm_compute; reflexivity).
  split; [|split; [|split; [|split; [exact Hget|split;
    [exact Hfin|split; [exact Hnn|]]]]]].
  - apply (optimized_timeout_selection (performance_stats new_validator)
             "iam_create_user"); [left|]; reflexivity.
  - apply (optimized_timeout_selection (performance_stats new_validator)
             "lambda_get_function"); [left| |]; reflexivity.
  - apply (optimized_timeout_selection (performance_stats new_validator)
             "rds_snapshots"); [left| |]; reflexivity.
  - exact (proj1 (proj2 (proj2 (optimized_timeout_selection _ "s3_buckets")
                            (1 # 2)%Q [] Hget Hfin) Hnn)).
Defined.

(** C7, as the specification words it, fails on the code. The identifier
    [iam_attach_user_policy] implies a write, yet with no sample it gets 6,
    the value of an identifier that is neither write-like nor read-like
    ([rds_snapshots]), and not the 15 that [iam_create_user] gets. After
    one sample of half a second the timeout is 1, not
    [min(3 * 0.5, 30) = 1.5]; and after one sample of 0.3333333333333333
    seconds it is 1 as well, above three times the sample, because the
    product is rounded to 1.0 before [int] reads it. *)
Lemma timeout_claim_counterexample :
  spec_write_like "iam_attach_user_policy" = true
  /\ _get_optimized_timeout (performance_stats new_validator)
       "iam_attach_user_policy" = 6
  /\ _get_optimized_timeout (performance_stats new_validator) "rds_snapshots" = 6
  /\ _get_optimized_timeout (performance_stats new_validator) "iam_create_user" = 15
  /\ _get_optimized_timeout
       (record_sample "s3_buckets" (1 # 2) true (performance_stats new_validator))
       "s3_buckets" = 1
  /\ (spec_timeout_override [1 # 2] == 3 # 2)%Q
  /\ ~ (inject_Z 1 == spec_timeout_override [1 # 2])%Q
  /\ _get_optimized_timeout
       (record_sample "s3_buckets" (6004799503160661 # 18014398509481984) true
          (performance_stats new_validator))
       "s3_buckets" = 1
  /\ (spec_timeout_override [6004799503160661 # 18014398509481984] < 1)%Q.
Proof.
  repeat split; try reflexivity; try (vm_compute; reflexivity).
  vm_compute. discriminate.
Qed.

(** ** Flow analysis: completion percentage *)

(** The binary64 computation agrees with integer division on every pair of
    sizes up to 49 (it first departs from it at 29 of 50). *)
Lemma float_percent_small_table :
  forallb (fun r =>
    forallb (fun a => float_percent a r =? 100 * Z.of_nat a / Z.of_nat r)
            (seq 0 (S r)))
    (seq 1 49) = true.
Proof. vm_compute. reflexivity. Qed.

Lemma float_percent_first_gap : float_percent 29 50 = 57.
Proof. vm_compute. reflexivity. Qed.

Lemma float_percent_small (a r : nat) :
  (a <= r)%nat -> (1 <= r <= 49)%nat ->
  float_percent a r = 100 * Z.of_nat a / Z.of_nat r.
Proof.
  intros Ha Hr.
  pose proof float_percent_small_table as T.
  rewrite forallb_forall in T.
  assert (Hin : In r (seq 1 49)) by (apply in_seq; lia).
  specialize (T r Hin). rewrite forallb_forall in T.
  assert (Hia : In a (seq 0 (S r))) by (apply in_seq; lia).
  specialize (T a Hia). now apply Z.eqb_eq in T.
Qed.

Lemma filter_length_le {A} (f : A -> bool) (l : list A) :
  (List.length (filter f l) <= List.length l)%nat.
Proof.
  induction l as [|x l IH]; simpl; [lia|].
  destruct (f x); simpl; lia.
Qed.

Lemma declared_flow_sizes flow_key info :
  In (flow_key, info) (items attack_flows) ->
  (1 <= List.length (required_services info) <= 5)%nat.
Proof.
  intros H. cbv in H.
  repeat (destruct H as [H | H];
          [injection H as _ <-; simpl; lia|]).
  contradiction.
Qed.

(** C8, as the code has it. For every declared flow the completion
    percentage is [100 * |available| / |required|] with the fraction dropped
    (integer division); for any flow with no required operation it is 0. *)
Theorem completion_percentage_truncated :
  (forall accessible_services esc flow_key info,
     In (flow_key, info) (items attack_flows) ->
     let fs := analyze_flow accessible_services esc flow_key info in
     fs_completion_percentage fs
     = 100 * Z.of_nat (List.length (fs_available_services fs))
       / Z.of_nat (List.length (fs_required_services fs)))
  /\ (forall accessible_services esc flow_key info,
        required_services info = [] ->
        fs_completion_percentage
          (analyze_flow accessible_services esc flow_key info) = 0).
Proof.
  split.
  - intros acc esc flow_key info Hin fs.
    pose proof (declared_flow_sizes _ _ Hin) as Hsz.
    subst fs. cbn [analyze_flow fs_completion_percentage
                   fs_available_services fs_required_services].
    unfold completion_percentage.
    destruct (required_services info) as [|s req] eqn:E; [simpl in Hsz; lia|].
    apply float_percent_small; [apply filter_length_le | lia].
  - intros acc esc flow_key info E.
    cbn [analyze_flow fs_completion_percentage]. rewrite E. reflexivity.
Qed.

Lemma completion_percentage_truncated_witness :
  fs_completion_percentage
    (analyze_flow ["ec2_instances"; "ec2_volumes"]
       {| has_error := false; roles_analysis := empty |}
       "ec2_management"
       {| flow_name := "EC2 Management Attack";
          required_services := ["ec2_instances"; "ec2_volumes"; "ec2_snapshots"];
          escalation_roles := ["AWSLambdaBasicExecutionRole"; "IAMFullAccess"] |})
  = 100 * 2 / 3.
Proof.
  apply (proj1 completion_percentage_truncated
           ["ec2_instances"; "ec2_volumes"]
           {| has_error := false; roles_analysis := empty |}
           "ec2_management").
  left. reflexivity.
Defined.

(** C8, as the specification words it, fails on the code: with two of the
    three operations of [ec2_management] accessible the code reports 66,
    where [round(100 * 2 / 3)] is 67. *)
Lemma completion_round_counterexample :
  fs_completion_percentage
    (analyze_flow ["ec2_instances"; "ec2_volumes"]
       {| has_error := false; roles_analysis := empty |}
       "ec2_management"
       {| flow_name := "EC2 Management Attack";
          required_services := ["ec2_instances"; "ec2_volumes"; "ec2_snapshots"];
          escalation_roles := ["AWSLambdaBasicExecutionRole"; "IAMFullAccess"] |})
  = 66
  /\ spec_completion_percent 2 3 = 67
  /\ get "ec2_management" attack_flows
     = Some {| flow_name := "EC2 Management Attack";
               required_services := ["ec2_instances"; "ec2_volumes"; "ec2_snapshots"];
               escalation_roles := ["AWSLambdaBasicExecutionRole"; "IAMFullAccess"] |}.
Proof. repeat split; vm_compute; reflexivity. Qed.

(** ** Flow analysis: states *)

Lemma filter_all_length {A} (f : A -> bool) (l : list A) :
  (List.length (filter f l) =? List.length l)%nat = forallb f l.
Proof.
  induction l as [|x l IH]; simpl; [reflexivity|].
  destruct (f x); simpl.
  - exact IH.
  - apply Nat.eqb_neq. pose proof (filter_length_le f l). lia.
Qed.

Lemma filter_some_length {A} (f : A -> bool) (l : list A) :
  (0 <? List.length (filter f l))%nat = existsb f l.
Proof.
  induction l as [|x l IH]; simpl; [reflexivity|].
  destruct (f x); simpl; [reflexivity | exact IH].
Qed.

Lemma file_status_adds fa fs :
  In fs (list_of_state (file_status fa fs) (fs_status fs)).
Proof.
  unfold file_status. destruct (fs_status fs); simpl;
    apply in_or_app; right; left; reflexivity.
Qed.

Lemma file_status_keeps fa fs x st :
  In x (list_of_state fa st) -> In x (list_of_state (file_status fa fs) st).
Proof.
  unfold file_status.
  destruct (fs_status fs), st; simpl; intros H; auto;
    apply in_or_app; left; exact H.
Qed.

Lemma analyze_flows_files acc esc (kvs : list (string * flow_info)) :
  forall fa0 flow_key info,
    In (flow_key, info) kvs ->
    let fs := analyze_flow acc esc flow_key info in
    In fs (list_of_state
             (fold_left
                (fun fa kv => file_status fa (analyze_flow acc esc (fst kv) (snd kv)))
                kvs fa0)
             (fs_status fs)).
Proof.
  induction kvs as [|kv kvs IH]; intros fa0 flow_key info Hin fs; [contradiction|].
  assert (Keep : forall l fa x st,
             In x (list_of_state fa st) ->
             In x (list_of_state
                     (fold_left
                        (fun fa kv =>
                           file_status fa (analyze_flow acc esc (fst kv) (snd kv)))
                        l fa) st)).
  { induction l as [|y l IHl]; intros fa x st Hx; simpl; [exact Hx|].
    apply IHl. now apply file_status_keeps. }
  simpl. destruct Hin as [-> | Hin].
  - apply Keep. simpl. apply file_status_adds.
  - now apply IH.
Qed.

Lemma available_roles_match esc markers :
  available_roles_for esc markers <> [] <->
  has_error esc = false
  /\ exists role rd arn marker,
       In (role, rd) (items (roles_analysis esc))
       /\ In arn (attached_policies rd)
       /\ In marker markers
       /\ str_in marker arn = true.
Proof.
  unfold available_roles_for. split.
  - intros H. destruct (has_error esc); [congruence|]. split; [reflexivity|].
    destruct (flat_map _ _) as [|r rs] eqn:E; [congruence|].
    assert (Hr : In r (r :: rs)) by (left; reflexivity).
    rewrite <- E in Hr.
    apply in_flat_map in Hr as [[role rd] [Hrole Hr]].
    apply in_flat_map in Hr as [arn [Harn Hr]].
    apply in_flat_map in Hr as [marker [Hmarker Hr]].
    exists role, rd, arn, marker. repeat split; auto.
    simpl in Hr. destruct (str_in marker arn); [reflexivity | contradiction].
  - intros [He (role & rd & arn & marker & Hrole & Harn & Hmarker & Hs)].
    rewrite He. intros E.
    assert (Hin : In {| role_name := role; policy_arn := arn;
                        role_escalation_score := escalation_score rd |}
                     (flat_map (fun kv : string * role_data =>
                        flat_map (fun arn =>
                          flat_map (fun escalation_role =>
                            if str_in escalation_role arn
                            then [ {| role_name := fst kv; policy_arn := arn;
                                      role_escalation_score :=
                                        escalation_score (snd kv) |} ]
                            else [])
                            markers)
                          (attached_policies (snd kv)))
                        (items (roles_analysis esc)))).
    { apply in_flat_map. exists (role, rd). split; [exact Hrole|].
      apply in_flat_map. exists arn. split; [exact Harn|].
      apply in_flat_map. exists marker. split; [exact Hmarker|].
      simpl. rewrite Hs. left. reflexivity. }
    rewrite E in Hin. contradiction.
Qed.

(** C3. For every declared flow, the state assigned by
    [analyze_attack_flows] follows the precedence: READY when every required
    operation is accessible, whatever the roles; otherwise ESCALATION_NEEDED
    when some required operation is accessible and some role matches;
    otherwise BLOCKED_NO_ESCALATION when some required operation is
    accessible; otherwise BLOCKED. The status is filed in the list of its
    state, and a role matches exactly when the role data carries no error
    and some attached policy of some role contains a marker of the flow. *)
Theorem flow_state_precedence :
  forall (res : dict probe_result) (esc : escalation_result)
         (flow_key : string) (info : flow_info),
    In (flow_key, info) (items attack_flows) ->
    let acc := accessible_services_of res in
    let fs := analyze_flow acc esc flow_key info in
    fs_status fs
    = spec_flow_state
        (forallb (fun s => list_in s acc) (required_services info))
        (existsb (fun s => list_in s acc) (required_services info))
        (has_match (fs_available_escalation_roles fs))
    /\ In fs (list_of_state (analyze_attack_flows res esc) (fs_status fs))
    /\ (has_match (fs_available_escalation_roles fs) = true <->
        has_error esc = false
        /\ exists role rd arn marker,
             In (role, rd) (items (roles_analysis esc))
             /\ In arn (attached_policies rd)
             /\ In marker (escalation_roles info)
             /\ str_in marker arn = true).
Proof.
  intros res esc flow_key info Hin acc fs. split; [|split].
  - subst fs. cbn [analyze_flow fs_status fs_available_escalation_roles].
    rewrite filter_all_length, filter_some_length.
    unfold spec_flow_state, has_match.
    destruct (forallb _ _); [reflexivity|].
    destruct (existsb _ _); [|reflexivity].
    destruct (available_roles_for esc (escalation_roles info)); reflexivity.
  - apply (analyze_flows_files acc esc (items attack_flows) _ flow_key info Hin).
  - subst fs. cbn [analyze_flow fs_available_escalation_roles].
    rewrite <- available_roles_match.
    unfold has_match.
    destruct (available_roles_for esc (escalation_roles info));
      split; congruence.
Qed.

Lemma flow_state_precedence_witness :
  let res := of_literal [("s3_buckets", {| accessible := true; score := 30 |});
                         ("s3_objects", {| accessible := false; score := 0 |})] in
  let esc := {| has_error := false;
                roles_analysis :=
                  of_literal
                    [("admin", {| attached_policies :=
                                    ["arn:aws:iam::aws:policy/IAMFullAccess"];
                                  escalation_score := 10 |})] |} in
  let info := {| flow_name := "S3 Bucket Exfiltration";
                 required_services := ["s3_buckets"; "s3_objects"];
                 escalation_roles := ["AWSLambdaBasicExecutionRole"; "IAMFullAccess"] |} in
  In ("s3_exfiltration", info) (items attack_flows)
  /\ fs_status (analyze_flow (accessible_services_of res) esc "s3_exfiltration" info)
     = spec_flow_state false true true.
Proof.
  intros res esc info.
  assert (Hin : In ("s3_exfiltration", info) (items attack_flows))
    by (right; left; reflexivity).
  split; [exact Hin|].
  exact (proj1 (flow_state_precedence res esc "s3_exfiltration" info Hin)).
Defined.

(** ** The credential gate: liveness *)

Lemma list_in_iff (x : string) (l : list string) :
  list_in x l = true <-> In x l.
Proof.
  unfold list_in. rewrite existsb_exists. split.
  - intros [y [Hy E]]. apply String.eqb_eq in E. now subst.
  - intros H. exists x. split; [exact H | apply String.eqb_refl].
Qed.

Lemma list_in_false_iff (x : string) (l : list string) :
  list_in x l = false <-> ~ In x l.
Proof.
  rewrite <- list_in_iff. destruct (list_in x l); split; congruence.
Qed.

(** C9. When the one identity call of the liveness check raises a
    [ClientError]: a code of the invalid-signature / unknown-identifier
    family gives a not-alive result with the invalid-credential message, and
    [validate_key] stops there with a failure; a code of the throttling
    family gives an alive result; any other code gives a not-alive result
    whose message differs from the invalid-credential one, and
    [validate_key] stops there with a failure. In the two terminal cases no
    further remote call is made and no statistic is written. *)
Theorem liveness_error_classification
    (w : world) (g : gate_inputs) (m : machine)
    (error_code text endpoint : string) :
  format_errors g = [] ->
  connectivity g = inl endpoint ->
  liveness_call g = RaisedClientError error_code text ->
  let lv := _quick_liveness_check (liveness_call g) in
  let run := validate_key w g m in
  (In error_code invalid_credential_codes ->
   alive lv = false
   /\ lv_error lv = Some "Неверные учетные данные"
   /\ fst run = Returns (Invalid "Ключ неактивен: Неверные учетные данные" [])
   /\ trace (snd run) = (trace m ++ [RemoteCall "sts_get_caller_identity"])%list
   /\ performance_stats (snd run) = performance_stats m)
  /\ (In error_code throttling_codes -> alive lv = true)
  /\ (~ In error_code invalid_credential_codes ->
      ~ In error_code throttling_codes ->
      alive lv = false
      /\ lv_error lv = Some ("AWS ошибка: " ++ error_code)
      /\ lv_error lv <> Some "Неверные учетные данные"
      /\ fst run = Returns (Invalid ("Ключ неактивен: AWS ошибка: " ++ error_code) [])
      /\ trace (snd run) = (trace m ++ [RemoteCall "sts_get_caller_identity"])%list
      /\ performance_stats (snd run) = performance_stats m).
Proof.
  intros Hfmt Hconn Hcall lv run.
  subst lv run. unfold validate_key, bind, time_time. cbn beta iota.
  rewrite Hfmt, Hconn, Hcall. cbn [_quick_liveness_check].
  split; [|split].
  - intros Hin. apply list_in_iff in Hin. rewrite Hin.
    repeat split; reflexivity.
  - intros Hin. apply list_in_iff in Hin.
    destruct (list_in error_code invalid_credential_codes) eqn:E.
    + exfalso. apply list_in_iff in E, Hin.
      unfold invalid_credential_codes, throttling_codes in *.
      simpl in E, Hin.
      destruct E as [<-|[<-|[<-|[]]]];
        destruct Hin as [Hin|[Hin|[]]]; discriminate.
    + rewrite Hin. reflexivity.
  - intros Hni Hnt.
    apply list_in_false_iff in Hni, Hnt. rewrite Hni, Hnt.
    repeat split; try reflexivity.
    cbn. intros E. discriminate.
Qed.

Lemma liveness_error_classification_witness :
  let g code := {| format_errors := [];
                   connectivity := inl "sts.amazonaws.com";
                   liveness_call := RaisedClientError code "denied";
                   identity_call := RaisedOther "unused" |} in
  alive (_quick_liveness_check (liveness_call (g "SignatureDoesNotMatch"))) = false
  /\ alive (_quick_liveness_check (liveness_call (g "ThrottlingException"))) = true
  /\ alive (_quick_liveness_check (liveness_call (g "AccessDenied"))) = false.
Proof.
  intros g.
  pose (w0 := {| now := fun _ => 0%Q; remote := fun _ _ => false;
                 clients_ok := true |}).
  split; [|split].
  - refine (proj1 (proj1 (liveness_error_classification w0
              (g "SignatureDoesNotMatch") new_validator
              "SignatureDoesNotMatch" "denied" "sts.amazonaws.com"
              eq_refl eq_refl eq_refl) _)).
    right. left. reflexivity.
  - refine (proj1 (proj2 (liveness_error_classification w0
              (g "ThrottlingException") new_validator
              "ThrottlingException" "denied" "sts.amazonaws.com"
              eq_refl eq_refl eq_refl)) _).
    right. left. reflexivity.
  - refine (proj1 (proj2 (proj2 (liveness_error_classification w0
              (g "AccessDenied") new_validator
              "AccessDenied" "denied" "sts.amazonaws.com"
              eq_refl eq_refl eq_refl)) _ _)).
    + intros [H|[H|[H|[]]]]; discriminate.
    + intros [H|[H|[]]]; discriminate.
Defined.

(** After a throttling code the liveness result has no ['account_id'] key,
    and the progress line of [validate_key] that reads it raises. *)
Lemma validate_key_after_throttling (w : world) (m : machine) :
  fst (validate_key w
         {| format_errors := [];
            connectivity := inl "sts.amazonaws.com";
            liveness_call := RaisedClientError "ThrottlingException" "rate";
            identity_call := Responded empty |} m)
  = Raises "KeyError: 'account_id'".
Proof. reflexivity. Qed.

(** ** The probe engine: one probe *)

Lemma Qltb_lt (x y : Q) : Qltb x y = true <-> (x < y)%Q.
Proof.
  unfold Qltb. rewrite negb_true_iff.
  destruct (Qle_bool y x) eqn:E.
  - apply Qle_bool_iff in E. split; [discriminate | intros H; lra].
  - split; [intros _ | reflexivity].
    apply Qnot_le_lt. intros H. apply Qle_bool_iff in H. congruence.
Qed.

Lemma Qltb_ge (x y : Q) : Qltb x y = false <-> (y <= x)%Q.
Proof.
  unfold Qltb. rewrite negb_false_iff. apply Qle_bool_iff.
Qed.

Lemma remote_calls_app (tr1 tr2 : list event) :
  remote_calls (tr1 ++ tr2) = (remote_calls tr1 + remote_calls tr2)%nat.
Proof. unfold remote_calls. now rewrite filter_app, length_app. Qed.

(** The delays of the retry loop are computed: its attempts are far below
    the one at which the power overflows. *)
Lemma backoff_delay_in_loop (a : nat) :
  (a <? retry_attempts - 1)%nat = true ->
  _calculate_backoff_delay a = Returns (backoff_delay a).
Proof.
  intros H. apply Nat.ltb_lt in H. unfold _calculate_backoff_delay.
  replace (a <? backoff_overflow_attempt)%nat with true; [reflexivity|].
  symmetry. apply Nat.ltb_lt.
  unfold retry_attempts, backoff_overflow_attempt in *. lia.
Qed.

(** The retry loop touches nothing but the trace, and its first event is a
    remote invocation. *)
Lemma retry_loop_frame (w : world) (service_name : string) :
  forall (attempts : list nat) (m : machine),
    exists evs,
      snd (retry_loop w service_name attempts m)
      = with_trace (trace m ++ evs) m
      /\ (attempts <> [] -> exists rest, evs = RemoteCall service_name :: rest).
Proof.
  induction attempts as [|a attempts IH]; intros m.
  - exists []. split; [|congruence].
    simpl. destruct m; unfold with_trace; simpl. now rewrite app_nil_r.
  - cbn [retry_loop]. unfold bind, check_func.
    destruct (remote w service_name (remote_calls (trace m))).
    + exists [RemoteCall service_name]. split; [reflexivity|].
      intros _. now exists [].
    + destruct (a <? retry_attempts - 1)%nat eqn:Ha.
      * rewrite (backoff_delay_in_loop a Ha).
        unfold time_sleep, emit, modify. cbn beta iota.
        destruct (IH (with_trace
                        (trace (with_trace (trace m ++ [RemoteCall service_name]) m)
                         ++ [Sleep (backoff_delay a)])
                        (with_trace (trace m ++ [RemoteCall service_name]) m)))
          as [evs [E _]].
        exists (RemoteCall service_name
                :: Sleep (backoff_delay a) :: evs).
        split; [|intros _; eauto].
        rewrite E. destruct m; unfold with_trace; cbn.
        f_equal. rewrite <- !app_assoc. reflexivity.
      * exists [RemoteCall service_name]. split; [reflexivity|].
        intros _. now exists [].
Qed.

Lemma with_trace_twice (tr1 tr2 : list event) (m : machine) :
  with_trace tr2 (with_trace tr1 m) = with_trace tr2 m.
Proof. reflexivity. Qed.

Lemma retry_loop_failed_attempt (w : world) (service_name : string)
    (a : nat) (rest : list nat) (m : machine) :
  remote w service_name (remote_calls (trace m)) = false ->
  retry_loop w service_name (a :: rest) m
  = if (a <? retry_attempts - 1)%nat
    then retry_loop w service_name rest
           (with_trace
              (trace m ++ [ RemoteCall service_name;
                            Sleep (backoff_delay a) ])
              m)
    else (false, with_trace (trace m ++ [RemoteCall service_name]) m).
Proof.
  intros H. cbn [retry_loop]. unfold bind, check_func. rewrite H.
  destruct (a <? retry_attempts - 1)%nat eqn:Ha; [|reflexivity].
  rewrite (backoff_delay_in_loop a Ha).
  unfold time_sleep, emit, modify. cbn beta iota.
  cbn [trace with_trace]. rewrite with_trace_twice, <- app_assoc. reflexivity.
Qed.

(** A probe whose every attempt raises: three invocations, with the backoff
    delays of attempts 0 and 1 slept in between, and the loop re-raises. *)
Lemma retry_loop_exhausted (w : world) (service_name : string) (m : machine) :
  probe_fails w m service_name ->
  retry_loop w service_name (seq 0 retry_attempts) m
  = (false,
     with_trace
       (trace m ++ [ RemoteCall service_name;
                     Sleep (backoff_delay 0);
                     RemoteCall service_name;
                     Sleep (backoff_delay 1);
                     RemoteCall service_name ])
       m).
Proof.
  intros Hf.
  pose proof (Hf 0%nat ltac:(unfold retry_attempts; lia)) as H0.
  pose proof (Hf 1%nat ltac:(unfold retry_attempts; lia)) as H1.
  pose proof (Hf 2%nat ltac:(unfold retry_attempts; lia)) as H2.
  rewrite Nat.add_0_r in H0.
  change (seq 0 retry_attempts) with [0; 1; 2]%nat.
  rewrite retry_loop_failed_attempt by exact H0.
  change (0 <? retry_attempts - 1)%nat with true. cbv iota.
  rewrite retry_loop_failed_attempt.
  2:{ cbn [trace with_trace]. rewrite remote_calls_app. exact H1. }
  change (1 <? retry_attempts - 1)%nat with true. cbv iota.
  rewrite retry_loop_failed_attempt.
  2:{ cbn [trace with_trace]. rewrite !remote_calls_app.
      change (remote_calls [RemoteCall service_name; Sleep _]) with 1%nat.
      replace (remote_calls (trace m) + 1 + 1)%nat
        with (remote_calls (trace m) + 2)%nat by lia.
      exact H2. }
  change (2 <? retry_attempts - 1)%nat with false. cbv iota.
  cbn [trace with_trace]. rewrite !with_trace_twice, <- !app_assoc.
  reflexivity.
Qed.

Lemma probe_fails_same_calls (w : world) (m m' : machine) (service_name : string) :
  remote_calls (trace m') = remote_calls (trace m) ->
  probe_fails w m service_name -> probe_fails w m' service_name.
Proof. unfold probe_fails. intros E H i Hi. rewrite E. now apply H. Qed.

(** What a probe that goes to the platform leaves behind. *)
Lemma fresh_probe_spec (w : world) (service_name : string) (start_time : Q)
    (m : machine) :
  exists (ok : bool) (evs : list event),
    let r := {| accessible := ok;
                score := if ok then weight service_name else 0 |} in
    let m' := snd (fresh_probe w service_name start_time m) in
    fst (fresh_probe w service_name start_time m) = score r
    /\ results m' = set service_name r (results m)
    /\ service_cache m'
       = set service_name
           {| result := r; timestamp := now w (S (clock_reads m)) |}
           (service_cache m)
    /\ trace m'
       = (trace m
          ++ MakeConfig service_name
               (_get_optimized_timeout (performance_stats m) service_name)
          :: RemoteCall service_name :: evs)%list
    /\ total_score m' = total_score m
    /\ current_service m' = current_service m
    /\ escalation_results m' = escalation_results m
    /\ (probe_fails w m service_name -> ok = false)
    /\ (remote w service_name (remote_calls (trace m)) = true -> ok = true).
Proof.
  unfold fresh_probe, bind, gets, emit, modify. cbn beta iota.
  set (m1 := with_trace _ m).
  destruct (retry_loop_frame w service_name (seq 0 retry_attempts) m1)
    as [evs [E Hne]].
  destruct Hne as [rest ->]; [discriminate|].
  destruct (retry_loop w service_name (seq 0 retry_attempts) m1)
    as [ok m2] eqn:R.
  cbn [snd] in E. subst m2.
  exists ok, rest.
  unfold record_outcome, bind, time_time, _update_performance_stats, modify, ret.
  cbn beta iota. subst m1.
  cbn [fst snd trace with_trace with_clock with_stats with_cache with_results
       results service_cache total_score current_service escalation_results
       clock_reads performance_stats score].
  repeat split;
    try (destruct ok; reflexivity);
    try (destruct ok; cbn; rewrite <- app_assoc; reflexivity).
  - intros Hf.
    assert (Hf1 : probe_fails w
                    (with_trace
                       (trace m ++
                        [MakeConfig service_name
                           (_get_optimized_timeout (performance_stats m) service_name)])
                       m) service_name).
    { apply (probe_fails_same_calls w m); [|exact Hf].
      cbn [trace with_trace]. rewrite remote_calls_app. cbn. lia. }
    rewrite (retry_loop_exhausted _ _ _ Hf1) in R. congruence.
  - intros Hr.
    change (seq 0 retry_attempts) with [0; 1; 2]%nat in R.
    cbn [retry_loop] in R. unfold bind, check_func in R.
    cbn [trace with_trace] in R. rewrite remote_calls_app in R.
    cbn [remote_calls filter is_remote_call List.length] in R.
    rewrite Nat.add_0_r, Hr in R. unfold ret in R. congruence.
Qed.

(** A probe answered by the cache. *)
Lemma check_service_hit (w : world) (service_name : string) (m : machine)
    (entry : cache_entry) :
  get service_name (service_cache m) = Some entry ->
  cache_fresh w m service_name = true ->
  check_service w service_name m
  = (score (result entry),
     with_results (set service_name (result entry) (results m))
       (with_clock (S (S (clock_reads m))) m)).
Proof.
  intros Hget Hfresh. unfold cache_fresh in Hfresh. rewrite Hget in Hfresh.
  unfold check_service, _is_cache_valid.
  unfold bind, time_time, gets, modify, ret.
  cbn beta iota. cbn [service_cache with_clock clock_reads].
  rewrite Hget. cbn beta iota. cbn [service_cache with_clock clock_reads].
  rewrite Hfresh, Hget. reflexivity.
Qed.

(** A probe not answered by the cache. *)
Lemma check_service_miss (w : world) (service_name : string) (m : machine) :
  cache_fresh w m service_name = false ->
  check_service w service_name m
  = fresh_probe w service_name (now w (clock_reads m))
      (after_cache_check m service_name).
Proof.
  intros Hfresh. unfold cache_fresh in Hfresh.
  unfold check_service, after_cache_check, _is_cache_valid.
  unfold bind, time_time, gets, modify, ret.
  cbn beta iota. cbn [service_cache with_clock clock_reads].
  destruct (get service_name (service_cache m)) as [entry|] eqn:Hget.
  - cbn beta iota. cbn [service_cache with_clock clock_reads].
    rewrite Hfresh. reflexivity.
  - reflexivity.
Qed.

(** ** The cache *)

(** C4. When the cache holds an outcome for the operation and, at the
    clock reading of the validity check, [now - timestamp < 300], the probe
    returns the cached score, records the cached outcome, invokes nothing
    remote and leaves cache and statistics as they were. When the entry is
    300 or more old, it is not used: the platform is invoked, and the
    returned and recorded outcome is that of the new attempts, which
    replaces the entry under a new timestamp. *)
Theorem cache_reuse_within_ttl
    (w : world) (m : machine) (service_name : string) (entry : cache_entry) :
  get service_name (service_cache m) = Some entry ->
  let age := (now w (S (clock_reads m)) - timestamp entry)%Q in
  let run := check_service w service_name m in
  ((age < inject_Z cache_ttl)%Q ->
   fst run = score (result entry)
   /\ get service_name (results (snd run)) = Some (result entry)
   /\ trace (snd run) = trace m
   /\ service_cache (snd run) = service_cache m
   /\ performance_stats (snd run) = performance_stats m)
  /\ ((inject_Z cache_ttl <= age)%Q ->
      exists (ok : bool) (evs : list event),
        let r := {| accessible := ok;
                    score := if ok then weight service_name else 0 |} in
        trace (snd run)
        = (trace m
           ++ MakeConfig service_name
                (_get_optimized_timeout (performance_stats m) service_name)
           :: RemoteCall service_name :: evs)%list
        /\ fst run = score r
        /\ get service_name (results (snd run)) = Some r
        /\ get service_name (service_cache (snd run))
           = Some {| result := r;
                     timestamp := now w (S (S (S (clock_reads m)))) |}
        /\ (probe_fails w m service_name -> ok = false)
        /\ (remote w service_name (remote_calls (trace m)) = true -> ok = true)).
Proof.
  intros Hget age run. split.
  - intros Hage.
    assert (Hfresh : cache_fresh w m service_name = true).
    { unfold cache_fresh. rewrite Hget. now apply Qltb_lt. }
    subst run. rewrite (check_service_hit w service_name m entry Hget Hfresh).
    cbn [fst snd results trace service_cache performance_stats
         with_results with_clock].
    repeat split. apply get_set_eq.
  - intros Hage.
    assert (Hfresh : cache_fresh w m service_name = false).
    { unfold cache_fresh. rewrite Hget. now apply Qltb_ge. }
    subst run. rewrite (check_service_miss w service_name m Hfresh).
    unfold after_cache_check. rewrite Hget.
    destruct (fresh_probe_spec w service_name (now w (clock_reads m))
                (with_clock (S (S (clock_reads m))) m))
      as (ok & evs & Hs & Hr & Hc & Ht & _ & _ & _ & Hf & Hok).
    exists ok, evs. cbv zeta in *.
    cbn [results trace service_cache performance_stats clock_reads with_clock]
      in Hr, Hc, Ht, Hok.
    repeat split.
    + exact Ht.
    + exact Hs.
    + rewrite Hr. apply get_set_eq.
    + rewrite Hc. apply get_set_eq.
    + exact Hf.
    + exact Hok.
Qed.

Lemma cache_reuse_within_ttl_witness :
  let w := {| now := fun k => inject_Z (Z.of_nat k);
              remote := fun _ _ => true; clients_ok := true |} in
  let entry := {| result := {| accessible := true; score := 30 |};
                  timestamp := 0 |} in
  let m := with_cache (set "s3_buckets" entry empty) new_validator in
  get "s3_buckets" (service_cache m) = Some entry
  /\ (now w (S (clock_reads m)) - timestamp entry < inject_Z cache_ttl)%Q
  /\ fst (check_service w "s3_buckets" m) = 30.
Proof.
  intros w entry m.
  assert (Hget : get "s3_buckets" (service_cache m) = Some entry) by reflexivity.
  assert (Hage : (now w (S (clock_reads m)) - timestamp entry
                  < inject_Z cache_ttl)%Q) by reflexivity.
  split; [exact Hget|]. split; [exact Hage|].
  exact (proj1 (proj1 (cache_reuse_within_ttl w m "s3_buckets" entry Hget) Hage)).
Defined.

(** C10. A probe that misses the cache and exhausts its retries returns 0
    and writes the failed outcome to the cache under the clock reading taken
    at that moment. From any later store that still holds this entry, a
    probe of the operation whose validity check reads a clock less than 300
    after that timestamp returns the cached failure: score 0, not
    accessible, no remote invocation, cache unchanged. *)
Theorem failed_outcome_cached_for_ttl
    (w : world) (m : machine) (service_name : string) :
  cache_fresh w m service_name = false ->
  probe_fails w m service_name ->
  let run := check_service w service_name m in
  let cached_at := now w (S (clock_reads (after_cache_check m service_name))) in
  fst run = 0
  /\ get service_name (results (snd run)) = Some failed_result
  /\ get service_name (service_cache (snd run))
     = Some {| result := failed_result; timestamp := cached_at |}
  /\ (forall m' : machine,
        get service_name (service_cache m')
        = get service_name (service_cache (snd run)) ->
        (now w (S (clock_reads m')) - cached_at < inject_Z cache_ttl)%Q ->
        let again := check_service w service_name m' in
        fst again = 0
        /\ get service_name (results (snd again)) = Some failed_result
        /\ trace (snd again) = trace m'
        /\ service_cache (snd again) = service_cache m').
Proof.
  intros Hfresh Hfail run cached_at.
  subst run. rewrite (check_service_miss w service_name m Hfresh).
  destruct (fresh_probe_spec w service_name (now w (clock_reads m))
              (after_cache_check m service_name))
    as (ok & evs & Hs & Hr & Hc & Ht & _ & _ & _ & Hf & _).
  cbv zeta in *.
  assert (Hok : ok = false).
  { apply Hf. apply (probe_fails_same_calls w m); [reflexivity | exact Hfail]. }
  subst ok.
  assert (Hentry : get service_name
                     (service_cache
                        (snd (fresh_probe w service_name (now w (clock_reads m))
                                (after_cache_check m service_name))))
                   = Some {| result := failed_result; timestamp := cached_at |}).
  { rewrite Hc. apply get_set_eq. }
  repeat split.
  - exact Hs.
  - rewrite Hr. apply get_set_eq.
  - exact Hentry.
  - rewrite Hentry in H.
    assert (Hfresh' : cache_fresh w m' service_name = true).
    { unfold cache_fresh. rewrite H. now apply Qltb_lt. }
    rewrite (check_service_hit w service_name m' _ H Hfresh'). reflexivity.
  - rewrite Hentry in H.
    assert (Hfresh' : cache_fresh w m' service_name = true).
    { unfold cache_fresh. rewrite H. now apply Qltb_lt. }
    rewrite (check_service_hit w service_name m' _ H Hfresh').
    cbn [snd results with_results]. apply get_set_eq.
  - rewrite Hentry in H.
    assert (Hfresh' : cache_fresh w m' service_name = true).
    { unfold cache_fresh. rewrite H. now apply Qltb_lt. }
    rewrite (check_service_hit w service_name m' _ H Hfresh'). reflexivity.
  - rewrite Hentry in H.
    assert (Hfresh' : cache_fresh w m' service_name = true).
    { unfold cache_fresh. rewrite H. now apply Qltb_lt. }
    rewrite (check_service_hit w service_name m' _ H Hfresh'). reflexivity.
Qed.

Lemma failed_outcome_cached_for_ttl_witness :
  let w := {| now := fun k => inject_Z (Z.of_nat k);
              remote := fun _ _ => false; clients_ok := true |} in
  cache_fresh w new_validator "iam_create_user" = false
  /\ probe_fails w new_validator "iam_create_user"
  /\ fst (check_service w "iam_create_user" new_validator) = 0.
Proof.
  intros w.
  assert (Hfresh : cache_fresh w new_validator "iam_create_user" = false)
    by reflexivity.
  assert (Hfail : probe_fails w new_validator "iam_create_user")
    by (intros i _; reflexivity).
  split; [exact Hfresh|]. split; [exact Hfail|].
  exact (proj1 (failed_outcome_cached_for_ttl w new_validator "iam_create_user"
                  Hfresh Hfail)).
Defined.

(** ** The scan *)

(** One probe, whatever its path: an outcome [r] is recorded and its score
    returned; cache entries are outcomes of probes. *)
Lemma check_service_summary (w : world) (service_name : string) (m : machine) :
  exists r : probe_result,
    let m' := snd (check_service w service_name m) in
    fst (check_service w service_name m) = score r
    /\ results m' = set service_name r (results m)
    /\ total_score m' = total_score m
    /\ current_service m' = current_service m
    /\ escalation_results m' = escalation_results m
    /\ (cache_fresh w m service_name = true ->
        service_cache m' = service_cache m
        /\ trace m' = trace m
        /\ exists entry, get service_name (service_cache m) = Some entry
                         /\ r = result entry)
    /\ (cache_fresh w m service_name = false ->
        exists ok t,
          r = {| accessible := ok;
                 score := if ok then weight service_name else 0 |}
          /\ service_cache m'
             = set service_name {| result := r; timestamp := t |}
                 (service_cache m)
          /\ (probe_fails w m service_name -> ok = false)).
Proof.
  destruct (cache_fresh w m service_name) eqn:Hfresh.
  - assert (Hex : exists entry, get service_name (service_cache m) = Some entry).
    { unfold cache_fresh in Hfresh.
      destruct (get service_name (service_cache m)); [eauto | discriminate]. }
    destruct Hex as [entry Hget].
    exists (result entry).
    rewrite (check_service_hit w service_name m entry Hget Hfresh).
    cbn. repeat split; try discriminate. eauto.
  - rewrite (check_service_miss w service_name m Hfresh).
    destruct (fresh_probe_spec w service_name (now w (clock_reads m))
                (after_cache_check m service_name))
      as (ok & evs & Hs & Hr & Hc & Ht & Htot & Hcur & Hesc & Hf & _).
    exists {| accessible := ok; score := if ok then weight service_name else 0 |}.
    cbv zeta in *. repeat split; try discriminate; auto.
    exists ok, (now w (S (clock_reads (after_cache_check m service_name)))).
    repeat split; auto.
Qed.

Lemma probe_all_app (w : world) (l1 l2 : list string) (m : machine) :
  probe_all w (l1 ++ l2) m = probe_all w l2 (snd (probe_all w l1 m)).
Proof.
  revert m. induction l1 as [|n l1 IH]; intros m; [reflexivity|].
  cbn [app probe_all]. unfold bind.
  destruct (probe w n m) as [[] m1]. cbn [snd]. apply IH.
Qed.

(** The effect of [probe] on the locals of the scan. *)
Lemma probe_summary (w : world) (service_name : string) (m : machine) :
  exists r : probe_result,
    let m' := snd (probe w service_name m) in
    results m' = set service_name r (results m)
    /\ total_score m' = total_score m + score r
    /\ current_service m' = current_service m + 1
    /\ escalation_results m' = escalation_results m
    /\ (cache_fresh w m service_name = true ->
        service_cache m' = service_cache m
        /\ exists entry, get service_name (service_cache m) = Some entry
                         /\ r = result entry)
    /\ (cache_fresh w m service_name = false ->
        exists ok t,
          r = {| accessible := ok;
                 score := if ok then weight service_name else 0 |}
          /\ service_cache m'
             = set service_name {| result := r; timestamp := t |}
                 (service_cache m)
          /\ (probe_fails w m service_name -> ok = false)).
Proof.
  set (m0 := with_current (current_service m + 1) m).
  destruct (check_service_summary w service_name m0)
    as (r & Hs & Hr & Ht & Hc & He & Hhit & Hmiss).
  exists r. cbv zeta in *.
  unfold probe, bind, modify. cbn beta iota. fold m0.
  destruct (check_service w service_name m0) as [s m1] eqn:R.
  cbn [fst snd] in *. subst s.
  cbn [results total_score current_service escalation_results service_cache
       with_total].
  split; [exact Hr|]. split; [rewrite Ht; reflexivity|].
  split; [exact Hc|]. split; [exact He|]. split.
  - intros H. destruct (Hhit H) as (Hc' & _ & Hentry). auto.
  - exact Hmiss.
Qed.

(** *** The probes do not depend on [escalation_results] *)

Lemma esc_indep_bind {A B} (c : M A) (k : A -> M B) :
  esc_indep c -> (forall a, esc_indep (k a)) -> esc_indep (bind c k).
Proof.
  intros Hc Hk e m. unfold bind. rewrite Hc.
  destruct (c m) as [a m1]. cbn [fst snd]. apply Hk.
Qed.

Lemma esc_indep_retry_loop (w : world) (service_name : string)
    (attempts : list nat) :
  esc_indep (retry_loop w service_name attempts).
Proof.
  induction attempts as [|a attempts IH]; [intros e m; reflexivity|].
  cbn [retry_loop]. apply esc_indep_bind; [intros e m; reflexivity|].
  intros ok. destruct ok; [intros e m; reflexivity|].
  destruct (a <? retry_attempts - 1)%nat; [|intros e m; reflexivity].
  destruct (_calculate_backoff_delay a); [|intros e m; reflexivity].
  apply esc_indep_bind; [intros e m; reflexivity|]. intros _. exact IH.
Qed.

Ltac esc_indep_steps :=
  repeat lazymatch goal with
    | |- esc_indep (bind _ _) => apply esc_indep_bind; [|intro]
    | |- esc_indep (retry_loop _ _ _) => apply esc_indep_retry_loop
    | |- esc_indep (match ?x with _ => _ end) => destruct x
    | |- esc_indep _ => intros ? ?; reflexivity
    end.

Lemma esc_indep_check_service (w : world) (service_name : string) :
  esc_indep (check_service w service_name).
Proof.
  unfold check_service, _is_cache_valid, fresh_probe, record_outcome.
  cbv zeta. esc_indep_steps.
Qed.

Lemma esc_indep_probe (w : world) (service_name : string) :
  esc_indep (probe w service_name).
Proof.
  unfold probe.
  apply esc_indep_bind; [intros e m; reflexivity|]. intros _.
  apply esc_indep_bind; [apply esc_indep_check_service|]. intros s.
  intros e m; reflexivity.
Qed.

Lemma esc_indep_probe_all (w : world) (l : list string) :
  esc_indep (probe_all w l).
Proof.
  induction l as [|n l IH]; [intros e m; reflexivity|].
  cbn [probe_all]. apply esc_indep_bind; [apply esc_indep_probe|].
  intros _. exact IH.
Qed.

Lemma with_escalation_same (m : machine) :
  with_escalation (escalation_results m) m = m.
Proof. destruct m; reflexivity. Qed.

(** The blocks of a scan probe the selected operations in order; the
    [check_escalation_block] calls in between only write
    [escalation_results]. *)
Lemma run_blocks_core (w : world) (flows_to_check : list string) :
  forall (bs : list probe_block) (m : machine),
    exists e : dict escalation_entry,
      snd (run_blocks w flows_to_check bs m)
      = with_escalation e
          (snd (probe_all w
                  (flat_map block_services
                     (filter (fun b => list_in (block_flow b) flows_to_check) bs))
                  m)).
Proof.
  induction bs as [|b bs IH]; intros m.
  - exists (escalation_results m). cbn. now rewrite with_escalation_same.
  - cbn [run_blocks filter]. unfold bind, run_block.
    destruct (list_in (block_flow b) flows_to_check).
    + cbn [flat_map]. rewrite probe_all_app.
      unfold bind.
      destruct (probe_all w (block_services b) m) as [[] m1]. cbn [snd].
      unfold check_escalation_block, bind, gets, modify. cbn beta iota.
      set (e1 := set (block_label b) _ (escalation_results m1)).
      destruct (IH (with_escalation e1 m1)) as [e He].
      exists e. rewrite He.
      rewrite (esc_indep_probe_all w _ e1 m1). reflexivity.
    + unfold ret. cbn beta iota. apply IH.
Qed.

(** *** What a run of probes leaves in the locals of the scan *)

Lemma probe_all_entries (w : world) :
  forall (l : list string) (m : machine) (name : string),
    In name l \/ mem name (results m) = true ->
    mem name (results (snd (probe_all w l m))) = true.
Proof.
  induction l as [|n l IH]; intros m name H.
  - destruct H as [[] | H]. exact H.
  - cbn [probe_all]. unfold bind.
    destruct (probe_summary w n m) as (r & Hr & _).
    destruct (probe w n m) as [[] m1]. cbn [snd] in *.
    apply IH. rewrite Hr, mem_set.
    destruct H as [[-> | H] | H].
    + right. now rewrite String.eqb_refl.
    + now left.
    + right. rewrite H. apply orb_true_r.
Qed.

Lemma probe_all_current (w : world) :
  forall (l : list string) (m : machine),
    current_service (snd (probe_all w l m))
    = current_service m + Z.of_nat (List.length l).
Proof.
  induction l as [|n l IH]; intros m.
  - cbn. lia.
  - cbn [probe_all]. unfold bind.
    destruct (probe_summary w n m) as (r & _ & _ & Hc & _).
    destruct (probe w n m) as [[] m1]. cbn [snd] in *.
    rewrite IH, Hc. cbn [List.length]. lia.
Qed.

Lemma probe_all_untouched (w : world) :
  forall (l : list string) (m : machine) (name : string),
    ~ In name l ->
    get name (results (snd (probe_all w l m))) = get name (results m).
Proof.
  induction l as [|n l IH]; intros m name Hn; [reflexivity|].
  cbn [probe_all]. unfold bind.
  destruct (probe_summary w n m) as (r & Hr & _).
  destruct (probe w n m) as [[] m1]. cbn [snd] in *.
  rewrite IH by (intros H; apply Hn; now right).
  rewrite Hr. apply get_set_neq. intros ->. apply Hn. now left.
Qed.

Lemma Forall_set {V} (P : V -> Prop) (k : string) (v : V) (d : dict V) :
  Forall (fun kv => P (snd kv)) d -> P v ->
  Forall (fun kv => P (snd kv)) (set k v d).
Proof.
  intros Hd Hv. induction d as [|[k' v'] d IH]; cbn [set].
  - constructor; [exact Hv | constructor].
  - inversion Hd as [|? ? Hh Ht]; subst.
    destruct (String.eqb k k'); constructor; auto.
Qed.

Lemma Forall_get {V} (P : V -> Prop) (k : string) (v : V) (d : dict V) :
  Forall (fun kv => P (snd kv)) d -> get k d = Some v -> P v.
Proof.
  intros Hd. induction d as [|[k' v'] d IH]; cbn [get]; [discriminate|].
  inversion Hd as [|? ? Hh Ht]; subst.
  destruct (String.eqb k k'); [intros [= <-]; exact Hh | auto].
Qed.

(** When every remote invocation raises, probes keep every cached and every
    recorded outcome a failure, and the total at 0. *)
Lemma probe_all_every_failure (w : world) :
  (forall name k, remote w name k = false) ->
  forall (l : list string) (m : machine),
    all_failed_cache (service_cache m) ->
    all_failed_results (results m) ->
    total_score m = 0 ->
    let m' := snd (probe_all w l m) in
    all_failed_cache (service_cache m')
    /\ all_failed_results (results m')
    /\ total_score m' = 0.
Proof.
  intros Hw. induction l as [|n l IH]; intros m Hc Hr Ht; [cbn; auto|].
  cbn [probe_all]. unfold bind. cbv zeta.
  destruct (probe_summary w n m) as (r & Hres & Htot & _ & _ & Hhit & Hmiss).
  destruct (probe w n m) as [[] m1]. cbn [snd] in *.
  assert (Hfail : r = failed_result
                  /\ all_failed_cache (service_cache m1)).
  { destruct (cache_fresh w m n) eqn:F.
    - destruct (Hhit eq_refl) as (Hc1 & entry & Hget & ->).
      split; [|now rewrite Hc1].
      exact (Forall_get (fun e => result e = failed_result) _ _ _ Hc Hget).
    - destruct (Hmiss eq_refl) as (ok & t & Hr' & Hc1 & Hf).
      assert (ok = false) by (apply Hf; intros i _; apply Hw). subst ok.
      split; [exact Hr'|].
      rewrite Hc1.
      apply (Forall_set (fun e => result e = failed_result)); [exact Hc|].
      cbn. exact Hr'. }
  destruct Hfail as [-> Hc1].
  apply IH.
  - exact Hc1.
  - rewrite Hres.
    apply (Forall_set (fun r => r = failed_result)); [exact Hr | reflexivity].
  - rewrite Htot, Ht. reflexivity.
Qed.

Lemma all_failed_not_accessible (d : dict probe_result) :
  all_failed_results d ->
  map fst (filter (fun kv => accessible (snd kv)) (items d)) = [].
Proof.
  unfold all_failed_results, items. induction d as [|[k r] d IH]; intros H.
  - reflexivity.
  - inversion H as [|? ? Hh Ht]; subst. cbn in Hh. subst r.
    cbn. now apply IH.
Qed.

Lemma check_service_permissions_run (w : world) (filters : dict bool)
    (m : machine) :
  clients_ok w = true ->
  check_service_permissions w filters m
  = let m' := snd (run_blocks w (_determine_flows_to_check filters)
                     probe_blocks (scan_start m)) in
    (Report
       {| rep_results := results m';
          rep_total_score := total_score m';
          rep_accessible_services :=
            map fst (filter (fun kv => accessible (snd kv)) (items (results m')));
          rep_escalation_results := escalation_results m';
          rep_performance_stats := performance_stats m' |},
     m').
Proof.
  intros Hok. unfold check_service_permissions, bind, modify, gets, ret.
  cbn beta iota. rewrite Hok. cbn [negb].
  fold (scan_start m).
  destruct (run_blocks w (_determine_flows_to_check filters) probe_blocks
              (scan_start m)) as [[] m1].
  reflexivity.
Qed.

(** *** What the probes leave in the trace *)

Lemma calls_to_app (name : string) (tr1 tr2 : list event) :
  calls_to name (tr1 ++ tr2) = (calls_to name tr1 + calls_to name tr2)%nat.
Proof. unfold calls_to. now rewrite filter_app, length_app. Qed.

Lemma configured_app (name : string) (tr1 tr2 : list event) :
  configured name tr1 \/ configured name tr2 -> configured name (tr1 ++ tr2).
Proof.
  intros [[t H]|[t H]]; exists t; apply in_or_app; auto.
Qed.

(** A probe whose every attempt raises, event by event. *)
Lemma fresh_probe_exhausted (w : world) (service_name : string)
    (start_time : Q) (m : machine) :
  probe_fails w m service_name ->
  trace (snd (fresh_probe w service_name start_time m))
  = (trace m
     ++ [ MakeConfig service_name
            (_get_optimized_timeout (performance_stats m) service_name);
          RemoteCall service_name; Sleep (backoff_delay 0);
          RemoteCall service_name; Sleep (backoff_delay 1);
          RemoteCall service_name ])%list.
Proof.
  intros Hf. unfold fresh_probe, bind, gets, emit, modify. cbn beta iota.
  set (m1 := with_trace _ m).
  assert (Hf1 : probe_fails w m1 service_name).
  { apply (probe_fails_same_calls w m); [|exact Hf].
    subst m1. cbn [trace with_trace]. rewrite remote_calls_app. cbn. lia. }
  rewrite (retry_loop_exhausted _ _ _ Hf1).
  unfold record_outcome, bind, time_time, _update_performance_stats, modify, ret.
  cbn beta iota. subst m1.
  cbn [fst snd trace with_trace with_clock with_stats with_cache with_results].
  rewrite <- app_assoc. reflexivity.
Qed.

(** The events of one probe: none when the cache answers; otherwise the
    [Config] of the operation and at least one remote invocation of it,
    three when the operation never answers. *)
Lemma probe_trace (w : world) (service_name : string) (m : machine) :
  exists evs : list event,
    trace (snd (probe w service_name m)) = (trace m ++ evs)%list
    /\ (cache_fresh w m service_name = false ->
        configured service_name evs
        /\ (1 <= calls_to service_name evs)%nat
        /\ ((forall k, remote w service_name k = false) ->
            calls_to service_name evs = retry_attempts)).
Proof.
  unfold probe, bind, modify. cbn beta iota.
  set (m0 := with_current (current_service m + 1) m).
  destruct (cache_fresh w m service_name) eqn:F.
  - assert (F0 : cache_fresh w m0 service_name = true) by exact F.
    assert (Hex : exists entry, get service_name (service_cache m) = Some entry).
    { unfold cache_fresh in F.
      destruct (get service_name (service_cache m)); [eauto | discriminate]. }
    destruct Hex as [entry Hget].
    rewrite (check_service_hit w service_name m0 entry Hget F0).
    exists []. cbn [snd trace with_total with_results with_clock with_current m0].
    subst m0. cbn [trace with_current]. rewrite app_nil_r.
    split; [reflexivity | discriminate].
  - assert (F0 : cache_fresh w m0 service_name = false) by exact F.
    rewrite (check_service_miss w service_name m0 F0).
    set (m1 := after_cache_check m0 service_name).
    assert (T1 : trace m1 = trace m) by reflexivity.
    destruct (fresh_probe_spec w service_name (now w (clock_reads m0)) m1)
      as (ok & evs & _ & _ & _ & Ht & _).
    cbv zeta in Ht.
    pose proof (fresh_probe_exhausted w service_name (now w (clock_reads m0)) m1)
      as Hex.
    destruct (fresh_probe w service_name (now w (clock_reads m0)) m1)
      as [s m2].
    cbn [snd trace with_total] in *. rewrite T1 in Ht, Hex.
    eexists. split; [exact Ht|]. intros _.
    split; [eexists; left; reflexivity|]. split.
    + unfold calls_to. cbn [filter]. rewrite String.eqb_refl. cbn. lia.
    + intros Hw.
      assert (Hf : probe_fails w m1 service_name) by (intros i _; apply Hw).
      specialize (Hex Hf). rewrite Ht in Hex. apply app_inv_head in Hex.
      rewrite Hex. unfold calls_to. cbn [filter].
      rewrite String.eqb_refl. reflexivity.
Qed.

Lemma probe_all_trace (w : world) :
  forall (l : list string) (m : machine),
    exists evs, trace (snd (probe_all w l m)) = (trace m ++ evs)%list.
Proof.
  induction l as [|n l IH]; intros m.
  - exists []. cbn. now rewrite app_nil_r.
  - cbn [probe_all]. unfold bind.
    destruct (probe_trace w n m) as (e1 & H1 & _).
    destruct (probe w n m) as [[] m1]. cbn [snd] in *.
    destruct (IH m1) as [e2 H2]. exists (e1 ++ e2)%list.
    now rewrite H2, H1, app_assoc.
Qed.

(** A probe leaves what the cache and [results] hold for other
    operations. *)
Lemma probe_other (w : world) (n : string) (m : machine) (name : string) :
  name <> n ->
  get name (service_cache (snd (probe w n m))) = get name (service_cache m)
  /\ get name (results (snd (probe w n m))) = get name (results m).
Proof.
  intros Hne.
  destruct (probe_summary w n m) as (r & Hr & _ & _ & _ & Hhit & Hmiss).
  cbv zeta in *. rewrite Hr.
  split; [|apply get_set_neq; congruence].
  destruct (cache_fresh w m n).
  - destruct (Hhit eq_refl) as [-> _]. reflexivity.
  - destruct (Hmiss eq_refl) as (ok & t & _ & -> & _).
    apply get_set_neq. congruence.
Qed.

(** An operation that never answers keeps its failed outcome, whether the
    cache or the platform is asked. *)
Lemma probe_all_keeps_failure (w : world) (name : string) :
  (forall k, remote w name k = false) ->
  forall (l : list string) (m : machine),
    (forall e, get name (service_cache m) = Some e -> result e = failed_result) ->
    (forall o, get name (results m) = Some o -> o = failed_result) ->
    forall o, get name (results (snd (probe_all w l m))) = Some o ->
              o = failed_result.
Proof.
  intros Hw. induction l as [|n l IH]; intros m Hc Hr; [exact Hr|].
  cbn [probe_all]. unfold bind.
  pose proof (probe_other w n m name) as Hother.
  destruct (probe_summary w n m) as (r & Hres & _ & _ & _ & Hhit & Hmiss).
  destruct (probe w n m) as [[] m1]. cbn [snd] in *.
  apply IH.
  - destruct (String.eqb_spec name n) as [->|Hne].
    + destruct (cache_fresh w m n).
      * destruct (Hhit eq_refl) as [-> _]. exact Hc.
      * destruct (Hmiss eq_refl) as (ok & t & Hr' & -> & Hf).
        rewrite get_set_eq. intros e [= <-]. cbn [result].
        rewrite Hr'. rewrite (Hf (fun i _ => Hw _)). reflexivity.
    + destruct (Hother Hne) as [-> _]. exact Hc.
  - destruct (String.eqb_spec name n) as [->|Hne].
    + rewrite Hres, get_set_eq. intros o [= <-].
      destruct (cache_fresh w m n).
      * destruct (Hhit eq_refl) as (_ & entry & Hget & ->). now apply Hc.
      * destruct (Hmiss eq_refl) as (ok & t & Hr' & _ & Hf).
        rewrite Hr'. rewrite (Hf (fun i _ => Hw _)). reflexivity.
    + destruct (Hother Hne) as [_ ->]. exact Hr.
Qed.

(** Every operation of the list that the cache did not hold is sent to the
    platform, whatever happens to the operations around it. *)
Lemma probe_all_reaches (w : world) (name : string) :
  forall (l : list string) (m : machine),
    In name l ->
    get name (service_cache m) = None ->
    exists evs,
      trace (snd (probe_all w l m)) = (trace m ++ evs)%list
      /\ configured name evs
      /\ (1 <= calls_to name evs)%nat
      /\ ((forall k, remote w name k = false) ->
          (retry_attempts <= calls_to name evs)%nat).
Proof.
  induction l as [|n l IH]; intros m Hin Hnone; [destruct Hin|].
  cbn [probe_all]. unfold bind.
  destruct (probe_trace w n m) as (e1 & H1 & Hmiss).
  pose proof (probe_other w n m name) as Hother.
  destruct (probe w n m) as [[] m1]. cbn [snd] in *.
  destruct (String.eqb_spec name n) as [->|Hne].
  - assert (F : cache_fresh w m n = false)
      by (unfold cache_fresh; now rewrite Hnone).
    destruct (Hmiss F) as (Hconf & Hone & Hall).
    destruct (probe_all_trace w l m1) as [e2 H2].
    exists (e1 ++ e2)%list. rewrite H2, H1, app_assoc.
    split; [reflexivity|]. split; [apply configured_app; now left|].
    rewrite calls_to_app. split; [lia|].
    intros Hw. rewrite (Hall Hw). lia.
  - destruct Hin as [E|Hin]; [congruence|].
    destruct (Hother Hne) as [Hc _]. rewrite <- Hc in Hnone.
    destruct (IH m1 Hin Hnone) as (e2 & H2 & Hconf & Hone & Hall).
    exists (e1 ++ e2)%list. rewrite H2, H1, app_assoc.
    split; [reflexivity|]. split; [apply configured_app; now right|].
    rewrite calls_to_app. split; [lia|].
    intros Hw. specialize (Hall Hw). lia.
Qed.

(** C5. Whenever the clients could be built, and whatever operations fail,
    [check_service_permissions] returns a report and only appends to the
    trace. Every selected operation is probed: the probe counter equals the
    number of selected operations, each has an entry in the report, and each
    one the cache did not hold at the start got its [Config] and at least
    one remote invocation, three when it never answers, in which case it is
    recorded as not accessible with score 0. An operation whose last probe
    of the run missed the cache and exhausted its retries is recorded so
    too; and when every remote invocation raises and the cache held no
    success beforehand, every selected operation is recorded so, the total
    is 0 and no operation is listed as accessible. *)
Theorem scan_survives_failures
    (w : world) (m : machine) (filters : dict bool) :
  clients_ok w = true ->
  let selected := selected_services (_determine_flows_to_check filters) in
  let run := check_service_permissions w filters m in
  exists (r : report) (evs : list event),
    fst run = Report r
    /\ trace (snd run) = (trace m ++ evs)%list
    /\ current_service (snd run) = Z.of_nat (List.length selected)
    /\ (forall name, In name selected ->
        exists outcome, get name (rep_results r) = Some outcome)
    /\ (forall name, In name selected ->
        get name (service_cache m) = None ->
        configured name evs
        /\ (1 <= calls_to name evs)%nat
        /\ ((forall k, remote w name k = false) ->
            (retry_attempts <= calls_to name evs)%nat
            /\ get name (rep_results r) = Some failed_result))
    /\ (forall l1 name l2,
          selected = (l1 ++ name :: l2)%list ->
          ~ In name l2 ->
          let before := snd (probe_all w l1 (scan_start m)) in
          cache_fresh w before name = false ->
          probe_fails w before name ->
          get name (rep_results r) = Some failed_result)
    /\ ((forall name k, remote w name k = false) ->
        all_failed_cache (service_cache m) ->
        (forall name, In name selected ->
                      get name (rep_results r) = Some failed_result)
        /\ rep_total_score r = 0
        /\ rep_accessible_services r = []).
Proof.
  intros Hok selected run. subst run.
  rewrite (check_service_permissions_run w filters m Hok). cbv zeta.
  destruct (run_blocks_core w (_determine_flows_to_check filters)
              probe_blocks (scan_start m)) as [e He].
  fold (selected_services (_determine_flows_to_check filters)) in He.
  fold selected in He.
  destruct (probe_all_trace w selected (scan_start m)) as [evs Hevs].
  eexists. exists evs. split; [reflexivity|].
  cbn [fst snd rep_results rep_total_score rep_accessible_services].
  rewrite He.
  cbn [results total_score current_service trace with_escalation].
  assert (Hentries : forall name, In name selected ->
            mem name (results (snd (probe_all w selected (scan_start m)))) = true).
  { intros name Hin. apply probe_all_entries. now left. }
  assert (Hsome : forall name, In name selected ->
            exists outcome,
              get name (results (snd (probe_all w selected (scan_start m))))
              = Some outcome).
  { intros name Hin. specialize (Hentries name Hin). unfold mem in Hentries.
    destruct (get name _) as [o|]; [eauto | discriminate]. }
  split; [exact Hevs|]. split; [|split; [exact Hsome|split; [|split]]].
  - rewrite probe_all_current. reflexivity.
  - intros name Hin Hnone.
    destruct (probe_all_reaches w name selected (scan_start m) Hin Hnone)
      as (evs' & Hevs' & Hconf & Hone & Hall).
    rewrite Hevs in Hevs'. apply app_inv_head in Hevs'. subst evs'.
    split; [exact Hconf|]. split; [exact Hone|].
    intros Hw. split; [exact (Hall Hw)|].
    destruct (Hsome name Hin) as [o Ho]. rewrite Ho. f_equal.
    apply (probe_all_keeps_failure w name Hw selected (scan_start m)).
    + cbn [service_cache scan_start with_current with_escalation with_total
           with_results]. rewrite Hnone. discriminate.
    + intros o' H. discriminate.
    + exact Ho.
  - intros l1 name l2 Hsel Hnot Hfresh Hfail.
    set (before := snd (probe_all w l1 (scan_start m))) in *.
    rewrite Hsel.
    change (l1 ++ name :: l2)%list with (l1 ++ [name] ++ l2)%list.
    rewrite !probe_all_app. fold before.
    rewrite probe_all_untouched by exact Hnot.
    cbn [probe_all app]. unfold bind, ret.
    destruct (probe_summary w name before)
      as (r & Hr & _ & _ & _ & _ & Hmiss).
    destruct (probe w name before) as [[] m1]. cbn [snd] in *.
    destruct (Hmiss Hfresh) as (ok & t & Hr' & _ & Hf).
    rewrite (Hf Hfail) in Hr'. rewrite Hr, Hr'. apply get_set_eq.
  - intros Hw Hcache.
    destruct (probe_all_every_failure w Hw selected (scan_start m))
      as (_ & Hres & Htot); [exact Hcache | constructor | reflexivity |].
    split; [|split].
    + intros name Hin. destruct (Hsome name Hin) as [o G]. rewrite G.
      f_equal.
      exact (Forall_get (fun r => r = failed_result) _ _ _ Hres G).
    + exact Htot.
    + now apply all_failed_not_accessible.
Qed.

Lemma scan_survives_failures_witness :
  let w := {| now := fun k => inject_Z (Z.of_nat k);
              remote := fun _ _ => false; clients_ok := true |} in
  clients_ok w = true
  /\ exists (r : report) (evs : list event),
       fst (check_service_permissions w (of_literal [("high", true)])
              new_validator) = Report r
       /\ trace (snd (check_service_permissions w (of_literal [("high", true)])
                        new_validator)) = evs
       /\ (retry_attempts <= calls_to "kms_keys" evs)%nat
       /\ rep_total_score r = 0.
Proof.
  intros w. split; [reflexivity|].
  destruct (scan_survives_failures w new_validator (of_literal [("high", true)])
              eq_refl) as (r & evs & Hrun & Htr & _ & _ & Hprobed & _ & Hall).
  exists r, evs. split; [exact Hrun|]. split; [exact Htr|]. split.
  - apply (Hprobed "kms_keys"); [vm_compute; tauto | reflexivity |].
    intros k. reflexivity.
  - apply Hall; [intros; reflexivity | constructor].
Defined.

(** ** Scoring: the total *)


(** The total returned is what the probes returned, added up: for a
    selection in which no operation is probed twice it is the sum of the
    weights of the operations recorded accessible. *)
Lemma Zsum_from (l : list Z) (a : Z) : fold_left Z.add l a = a + Zsum l.
Proof.
  unfold Zsum. revert a. induction l as [|x l IH]; intros a; cbn [fold_left]; [lia|].
  rewrite (IH (a + x)), (IH (0 + x)). lia.
Qed.

Lemma weight_sum_app (l1 l2 : list string) :
  weight_sum (l1 ++ l2) = weight_sum l1 + weight_sum l2.
Proof.
  unfold weight_sum, Zsum. rewrite map_app, fold_left_app.
  now rewrite Zsum_from.
Qed.

Lemma set_new_key {V} (k : string) (v : V) (d : dict V) :
  mem k d = false -> set k v d = (d ++ [(k, v)])%list.
Proof.
  unfold mem. induction d as [|[k' v'] d IH]; cbn [get set app]; [reflexivity|].
  destruct (String.eqb k k'); [discriminate|].
  intros H. now rewrite IH.
Qed.

Lemma Forall_set_pair {V} (P : string * V -> Prop) (k : string) (v : V)
    (d : dict V) :
  Forall P d -> P (k, v) -> Forall P (set k v d).
Proof.
  intros Hd Hv. induction d as [|[k' v'] d IH]; cbn [set].
  - constructor; [exact Hv | constructor].
  - inversion Hd as [|? ? Hh Ht]; subst.
    destruct (String.eqb k k') eqn:E.
    + apply String.eqb_eq in E. subst k'. constructor; auto.
    + constructor; auto.
Qed.

Lemma Forall_get_pair {V} (P : string * V -> Prop) (k : string) (v : V)
    (d : dict V) :
  Forall P d -> get k d = Some v -> P (k, v).
Proof.
  intros Hd. induction d as [|[k' v'] d IH]; cbn [get]; [discriminate|].
  inversion Hd as [|? ? Hh Ht]; subst.
  destruct (String.eqb k k') eqn:E; [|auto].
  apply String.eqb_eq in E. subst k'. intros [= <-]. exact Hh.
Qed.

Lemma probe_all_total (w : world) :
  forall (l : list string) (m : machine),
    NoDup l ->
    (forall n, In n l -> mem n (results m) = false) ->
    cache_consistent (service_cache m) ->
    let m' := snd (probe_all w l m) in
    total_score m' - weight_sum (accessible_services_of (results m'))
    = total_score m - weight_sum (accessible_services_of (results m)).
Proof.
  induction l as [|n l IH]; intros m Hnd Hnew Hc; [reflexivity|].
  cbn [probe_all]. unfold bind. cbv zeta.
  destruct (probe_summary w n m) as (r & Hres & Htot & _ & _ & Hhit & Hmiss).
  destruct (probe w n m) as [[] m1]. cbn [snd] in *.
  inversion Hnd as [|? ? Hnotin Hnd']; subst.
  assert (Hr : score r = (if accessible r then weight n else 0)
               /\ cache_consistent (service_cache m1)).
  { destruct (cache_fresh w m n) eqn:F.
    - destruct (Hhit eq_refl) as (Hc1 & entry & Hget & ->).
      split; [|now rewrite Hc1].
      exact (Forall_get_pair _ _ _ _ Hc Hget).
    - destruct (Hmiss eq_refl) as (ok & t & -> & Hc1 & _).
      split; [reflexivity|].
      rewrite Hc1. apply Forall_set_pair; [exact Hc | reflexivity]. }
  destruct Hr as [Hscore Hc1].
  rewrite IH; [|exact Hnd'| |exact Hc1].
  - rewrite Htot, Hres, set_new_key by (apply Hnew; now left).
    unfold accessible_services_of, items.
    rewrite filter_app, map_app, weight_sum_app. cbn [filter snd].
    rewrite Hscore. destruct (accessible r); cbn; lia.
  - intros n' Hin. rewrite Hres, mem_set.
    rewrite (Hnew n') by now right.
    destruct (String.eqb n' n) eqn:E; [|reflexivity].
    apply String.eqb_eq in E. subst n'. contradiction.
Qed.

Lemma total_is_weight_sum_without_repeats
    (w : world) (m : machine) (filters : dict bool) :
  clients_ok w = true ->
  NoDup (selected_services (_determine_flows_to_check filters)) ->
  cache_consistent (service_cache m) ->
  exists r : report,
    fst (check_service_permissions w filters m) = Report r
    /\ rep_total_score r = weight_sum (rep_accessible_services r).
Proof.
  intros Hok Hnd Hc.
  rewrite (check_service_permissions_run w filters m Hok). cbv zeta.
  destruct (run_blocks_core w (_determine_flows_to_check filters)
              probe_blocks (scan_start m)) as [e He].
  fold (selected_services (_determine_flows_to_check filters)) in He.
  eexists. split; [reflexivity|].
  cbn [rep_total_score rep_accessible_services]. rewrite He.
  cbn [results total_score with_escalation].
  pose proof (probe_all_total w _ (scan_start m) Hnd
                ltac:(intros; reflexivity) Hc) as H.
  cbv zeta in H.
  change (total_score (scan_start m)) with 0 in H.
  change (weight_sum (accessible_services_of (results (scan_start m))))
    with 0 in H.
  unfold accessible_services_of in H. lia.
Qed.

(** C1 fails on the code. A scan with no filter of a fresh validator, on a
    platform that grants every operation, returns total 2605, while the
    weights of the 66 operations it reports accessible sum to 2495: the
    three operations of the Forensic Cleanup block were already probed by
    earlier blocks, their second probe is answered by the cache, and the
    cached score is added to the total again (40 + 35 + 35). On a platform
    that grants [s3_delete_bucket] alone the total is 70 for one accessible
    operation of weight 35. *)
Theorem total_counts_repeated_probes_twice :
  let granted :=
    report_of (fst (check_service_permissions granting_world empty
                      new_validator)) in
  let s3_only :=
    report_of (fst (check_service_permissions s3_delete_only_world empty
                      new_validator)) in
  option_map rep_total_score granted = Some 2605
  /\ option_map (fun r => weight_sum (rep_accessible_services r)) granted
     = Some 2495
  /\ option_map (fun r => List.length (rep_accessible_services r)) granted
     = Some 66%nat
  /\ option_map rep_total_score s3_only = Some 70
  /\ option_map rep_accessible_services s3_only = Some ["s3_delete_bucket"]
  /\ weight "s3_delete_bucket" = 35.
Proof. repeat split; vm_compute; reflexivity. Qed.

(** With the [high] filter no operation is probed twice, and the total is
    the sum of the weights of the accessible operations on every platform. *)
Lemma high_filter_total (w : world) (m : machine) :
  clients_ok w = true ->
  cache_consistent (service_cache m) ->
  exists r : report,
    fst (check_service_permissions w (of_literal [("high", true)]) m) = Report r
    /\ rep_total_score r = weight_sum (rep_accessible_services r).
Proof.
  intros Hok Hc.
  apply total_is_weight_sum_without_repeats; [exact Hok | | exact Hc].
  cbn. repeat (constructor; [cbn; intuition discriminate|]). constructor.
Qed.

(** An exception of the identity call that is not a [ClientError] also ends
    the credential check, under a message of its own. *)
Lemma liveness_other_exception (text : string) :
  let lv := _quick_liveness_check (RaisedOther text) in
  alive lv = false
  /\ lv_error lv = Some ("Ошибка подключения: " ++ text)
  /\ lv_error lv <> Some "Неверные учетные данные".
Proof.
  cbn. repeat split. intros E. discriminate.
Qed.

(* ================================================================== *)
(** * Part III: further properties of the code *)
(* ================================================================== *)

(** ** The performance history *)

Lemma last_n_short {A} (n : nat) (l : list A) :
  (List.length l <= n)%nat -> last_n n l = l.
Proof.
  intros H. unfold last_n.
  replace (List.length l - n)%nat with 0%nat by lia. reflexivity.
Qed.

Lemma last_n_length {A} (n : nat) (l : list A) :
  List.length (last_n n l) = Nat.min n (List.length l).
Proof. unfold last_n. rewrite length_skipn. lia. Qed.

Lemma last_n_snoc {A} (n : nat) (l : list A) (x : A) :
  (0 < n)%nat -> last_n n (last_n n l ++ [x]) = last_n n (l ++ [x]).
Proof.
  intros Hn. unfold last_n at 2.
  destruct (Nat.le_gt_cases (List.length l) n) as [Hle | Hgt].
  - replace (List.length l - n)%nat with 0%nat by lia. reflexivity.
  - unfold last_n.
    rewrite !length_app, length_skipn. cbn [List.length].
    replace (List.length l - (List.length l - n) + 1 - n)%nat with 1%nat by lia.
    replace (List.length l + 1 - n)%nat
      with (1 + (List.length l - n))%nat by lia.
    rewrite <- skipn_skipn.
    f_equal. rewrite skipn_app.
    replace (List.length l - n - List.length l)%nat with 0%nat by lia.
    reflexivity.
Qed.

Lemma record_sample_history (n : string) (t : Q) (b : bool) (p : performance)
    (s : string) :
  get s (service_response_times (record_sample n t b p))
  = if String.eqb s n
    then Some (last_n 10
                 (match get n (service_response_times p) with
                  | Some l => l
                  | None => []
                  end ++ [t]))
    else get s (service_response_times p).
Proof.
  unfold record_sample. cbn [service_response_times].
  destruct (String.eqb s n) eqn:E.
  - apply String.eqb_eq in E. subst s. rewrite get_set_eq. f_equal.
    destruct (10 <? List.length _)%nat eqn:L; [reflexivity|].
    apply Nat.ltb_ge in L. now rewrite last_n_short.
  - apply get_set_neq. intros ->. now rewrite String.eqb_refl in E.
Qed.

Lemma record_log_snoc (log : list sample) (s : sample) (p : performance) :
  record_log (log ++ [s]) p
  = record_sample (sample_service s) (sample_time s) (sample_success s)
      (record_log log p).
Proof. unfold record_log. now rewrite fold_left_app. Qed.

(** X1. The history kept for an operation is a sliding window: after any
    sequence of updates of fresh statistics it holds the last ten elapsed
    times logged for that operation, oldest first, and nothing for an
    operation that was never logged. *)
Theorem history_is_last_ten (log : list sample) (service_name : string) :
  get service_name (service_response_times (record_log log fresh_stats))
  = match history_of log service_name with
    | [] => None
    | _ :: _ => Some (last_n 10 (history_of log service_name))
    end
  /\ (forall h,
        get service_name (service_response_times (record_log log fresh_stats))
        = Some h ->
        (1 <= List.length h <= 10)%nat).
Proof.
  assert (Main :
    get service_name (service_response_times (record_log log fresh_stats))
    = match history_of log service_name with
      | [] => None
      | _ :: _ => Some (last_n 10 (history_of log service_name))
      end).
  { induction log as [|s log IH] using rev_ind; [reflexivity|].
    rewrite record_log_snoc, record_sample_history.
    unfold history_of in *. rewrite filter_app, map_app. cbn [filter].
    rewrite (String.eqb_sym service_name).
    destruct (String.eqb (sample_service s) service_name) eqn:E.
    - apply String.eqb_eq in E. rewrite E in *. rewrite IH.
      cbn [map].
      destruct (map sample_time _) as [|x l] eqn:H.
      + reflexivity.
      + rewrite last_n_snoc by lia.
        destruct ((x :: l) ++ [sample_time s])%list eqn:H2; [|reflexivity].
        destruct l; discriminate.
    - cbn [map]. rewrite app_nil_r. exact IH. }
  split; [exact Main|].
  intros h Hh. rewrite Main in Hh.
  destruct (history_of log service_name) as [|x l]; [discriminate|].
  injection Hh as <-. rewrite last_n_length. cbn [List.length]. lia.
Qed.

Lemma record_log_counters (log : list sample) (p : performance) :
  let p' := record_log log p in
  total_requests p' = total_requests p + Z.of_nat (List.length log)
  /\ successful_requests p'
     = successful_requests p
       + Z.of_nat (List.length (filter sample_success log))
  /\ failed_requests p'
     = failed_requests p
       + Z.of_nat (List.length (filter (fun s => negb (sample_success s)) log)).
Proof.
  induction log as [|s log IH] using rev_ind; [cbn; lia|].
  cbv zeta in *. rewrite record_log_snoc.
  destruct IH as (H1 & H2 & H3).
  unfold record_sample.
  cbn [total_requests successful_requests failed_requests].
  rewrite H1, H2, H3, !filter_app, !length_app. cbn [filter].
  destruct (sample_success s); cbn [negb List.length]; lia.
Qed.

Lemma filter_split_length {A} (f : A -> bool) (l : list A) :
  List.length l
  = (List.length (filter f l)
     + List.length (filter (fun x => negb (f x)) l))%nat.
Proof.
  induction l as [|x l IH]; [reflexivity|].
  cbn [filter List.length]. destruct (f x); cbn [negb List.length]; lia.
Qed.

(** X2. The request counters count the updates: after any sequence of
    updates of fresh statistics, [total_requests] is the number of updates,
    [successful_requests] the number of successful ones, [failed_requests]
    the number of failed ones, and the first is the sum of the other two. *)
Theorem counters_count_updates (log : list sample) :
  let p := record_log log fresh_stats in
  total_requests p = Z.of_nat (List.length log)
  /\ successful_requests p
     = Z.of_nat (List.length (filter sample_success log))
  /\ failed_requests p
     = Z.of_nat (List.length (filter (fun s => negb (sample_success s)) log))
  /\ total_requests p = successful_requests p + failed_requests p.
Proof.
  cbv zeta. destruct (record_log_counters log fresh_stats) as (H1 & H2 & H3).
  change (total_requests fresh_stats) with 0 in H1.
  change (successful_requests fresh_stats) with 0 in H2.
  change (failed_requests fresh_stats) with 0 in H3.
  rewrite Z.add_0_l in H1, H2, H3. rewrite H1, H2, H3.
  repeat split; try reflexivity.
  rewrite <- Nat2Z.inj_add. f_equal. apply filter_split_length.
Qed.

(** ** The range of the selected timeout *)

(** X3. The timeout selected for a probe never exceeds [max_timeout] (30);
    without recorded samples it is 3, 6 or 15; with recorded samples that
    are all non-negative it is never negative. *)
Theorem optimized_timeout_range (p : performance) (service_name : string) :
  _get_optimized_timeout p service_name <= max_timeout
  /\ ((get service_name (service_response_times p) = None
       \/ get service_name (service_response_times p) = Some []) ->
      In (_get_optimized_timeout p service_name) [3; 6; 15])
  /\ (forall h,
        get service_name (service_response_times p) = Some h ->
        Forall (fun t => 0 <= t)%Q h ->
        0 <= _get_optimized_timeout p service_name).
Proof.
  assert (Adaptive : In (_get_adaptive_timeout service_name "read") [3; 6; 15]).
  { unfold _get_adaptive_timeout.
    destruct (_ || _ || _); [right; right; left; reflexivity|].
    destruct (any_in _ _); [left | right; left]; reflexivity. }
  split; [|split].
  - unfold _get_optimized_timeout.
    destruct (get service_name (service_response_times p)) as [[|t ts]|];
      try (destruct Adaptive as [<-|[<-|[<-|[]]]]; unfold max_timeout; lia).
    apply Z.le_min_r.
  - intros [H | H]; unfold _get_optimized_timeout; rewrite H; exact Adaptive.
  - intros h Hget Hnn. unfold _get_optimized_timeout. rewrite Hget.
    destruct h as [|t ts].
    + destruct Adaptive as [<-|[<-|[<-|[]]]]; lia.
    + apply Z.min_glb; [|unfold max_timeout; lia].
      apply int_of_float_truncates. now apply tripled_average_nonneg.
Qed.

Lemma optimized_timeout_range_witness :
  let p := record_sample "s3_buckets" (7 # 2) true fresh_stats in
  get "s3_buckets" (service_response_times p) = Some [7 # 2]
  /\ 0 <= _get_optimized_timeout p "s3_buckets".
Proof.
  intros p. split; [reflexivity|].
  apply (proj2 (proj2 (optimized_timeout_range p "s3_buckets")) [7 # 2]).
  - reflexivity.
  - constructor; [discriminate | constructor].
Defined.

(** ** The retry loop *)

Lemma retry_loop_success_attempt (w : world) (service_name : string)
    (a : nat) (rest : list nat) (m : machine) :
  remote w service_name (remote_calls (trace m)) = true ->
  retry_loop w service_name (a :: rest) m
  = (true, with_trace (trace m ++ [RemoteCall service_name]) m).
Proof.
  intros H. cbn [retry_loop]. unfold bind, check_func. rewrite H. reflexivity.
Qed.

Lemma probe_fails_iff (w : world) (m : machine) (service_name : string) :
  probe_fails w m service_name <->
  remote w service_name (remote_calls (trace m)) = false
  /\ remote w service_name (remote_calls (trace m) + 1) = false
  /\ remote w service_name (remote_calls (trace m) + 2) = false.
Proof.
  unfold probe_fails, retry_attempts. split.
  - intros H. repeat split.
    + rewrite <- (Nat.add_0_r (remote_calls (trace m))). apply H. lia.
    + apply H. lia.
    + apply H. lia.
  - intros (H0 & H1 & H2) i Hi.
    destruct i as [|[|[|i]]]; [now rewrite Nat.add_0_r | exact H1 | exact H2 | lia].
Qed.

(** X5. The retry loop of a probe makes at least one and at most three
    remote invocations, sleeps only between two invocations (never after
    the last), for at most 7.5 seconds in all, and touches nothing but the
    trace. It gives up exactly when all three invocations raise; when the
    first invocation returns, it is the only event. *)
Theorem retry_loop_budget (w : world) (service_name : string) (m : machine) :
  let run := retry_loop w service_name (seq 0 retry_attempts) m in
  exists evs : list event,
    snd run = with_trace (trace m ++ evs) m
    /\ (1 <= remote_calls evs <= retry_attempts)%nat
    /\ sleeps evs = (remote_calls evs - 1)%nat
    /\ (sleep_total evs <= 15 # 2)%Q
    /\ (fst run = false <-> probe_fails w m service_name)
    /\ (fst run = false -> remote_calls evs = retry_attempts)
    /\ (remote w service_name (remote_calls (trace m)) = true ->
        evs = [RemoteCall service_name]).
Proof.
  cbv zeta. pose proof (probe_fails_iff w m service_name) as PF.
  change (seq 0 retry_attempts) with [0; 1; 2]%nat.
  destruct (remote w service_name (remote_calls (trace m))) eqn:R0.
  { rewrite retry_loop_success_attempt by exact R0.
    exists [RemoteCall service_name]. cbn [fst snd].
    repeat split; try discriminate; try reflexivity;
      try (unfold retry_attempts; cbn; lia).
    intros H; apply PF in H; destruct H as (H & _); congruence. }
  rewrite retry_loop_failed_attempt by exact R0.
  change (0 <? retry_attempts - 1)%nat with true. cbv iota.
  set (m1 := with_trace _ m).
  assert (C1 : remote_calls (trace m1) = (remote_calls (trace m) + 1)%nat).
  { subst m1. cbn [trace with_trace]. now rewrite remote_calls_app. }
  destruct (remote w service_name (remote_calls (trace m) + 1)) eqn:R1.
  { rewrite retry_loop_success_attempt by (rewrite C1; exact R1).
    exists [RemoteCall service_name; Sleep (backoff_delay 0);
            RemoteCall service_name].
    subst m1. cbn [fst snd trace with_trace].
    rewrite with_trace_twice, <- app_assoc.
    repeat split; try discriminate; try reflexivity;
      try (unfold retry_attempts; cbn; lia).
    intros H; apply PF in H; destruct H as (_ & H & _); congruence. }
  rewrite retry_loop_failed_attempt by (rewrite C1; exact R1).
  change (1 <? retry_attempts - 1)%nat with true. cbv iota.
  set (m2 := with_trace _ m1).
  assert (C2 : remote_calls (trace m2) = (remote_calls (trace m) + 2)%nat).
  { subst m2. cbn [trace with_trace]. rewrite remote_calls_app, C1.
    cbn. lia. }
  assert (E : forall tr,
             with_trace tr m2
             = with_trace tr m) by reflexivity.
  destruct (remote w service_name (remote_calls (trace m) + 2)) eqn:R2.
  { rewrite retry_loop_success_attempt by (rewrite C2; exact R2).
    exists [RemoteCall service_name; Sleep (backoff_delay 0);
            RemoteCall service_name; Sleep (backoff_delay 1);
            RemoteCall service_name].
    cbn [fst snd]. rewrite E. subst m2 m1. cbn [trace with_trace].
    rewrite <- !app_assoc.
    repeat split; try discriminate; try reflexivity;
      try (unfold retry_attempts; cbn; lia).
    intros H; apply PF in H; destruct H as (_ & _ & H); congruence. }
  rewrite retry_loop_failed_attempt by (rewrite C2; exact R2).
  change (2 <? retry_attempts - 1)%nat with false. cbv iota.
  exists [RemoteCall service_name; Sleep (backoff_delay 0);
          RemoteCall service_name; Sleep (backoff_delay 1);
          RemoteCall service_name].
  cbn [fst snd]. rewrite E. subst m2 m1. cbn [trace with_trace].
  rewrite <- !app_assoc.
  repeat split; try discriminate; try reflexivity;
    try (unfold retry_attempts; cbn; lia).
  intros _. apply PF. repeat split; assumption.
Qed.

(** ** The coverage signal of a block *)

Lemma filter_filter_in (P : string -> bool) (l : list string) :
  filter (fun s => negb (list_in s (filter P l))) l
  = filter (fun s => negb (P s)) l.
Proof.
  apply filter_ext_in. intros s Hs. f_equal.
  destruct (P s) eqn:E.
  - apply list_in_iff. apply filter_In. now split.
  - apply list_in_false_iff. intros H. apply filter_In in H. destruct H; congruence.
Qed.

Lemma filter_negb_nil {A} (P : A -> bool) (l : list A) :
  filter (fun s => negb (P s)) l = [] <-> forallb P l = true.
Proof.
  induction l as [|x l IH]; cbn [filter forallb]; [tauto|].
  destruct (P x); cbn [negb andb]; [exact IH | split; discriminate].
Qed.

Lemma filter_nil_existsb {A} (P : A -> bool) (l : list A) :
  filter P l = [] <-> existsb P l = false.
Proof.
  induction l as [|x l IH]; cbn [filter existsb]; [tauto|].
  destruct (P x); cbn [orb]; [split; discriminate | exact IH].
Qed.

Lemma forallb_false_existsb_negb {A} (P : A -> bool) (l : list A) :
  forallb P l = false ->
  existsb (fun s => negb (P s)) l = true /\ l <> [].
Proof.
  induction l as [|x l IH]; [discriminate|].
  intros H. split; [|discriminate].
  cbn [forallb existsb] in *. destruct (P x); cbn [negb andb orb] in *;
    [now apply IH | reflexivity].
Qed.

Lemma forallb_true_existsb_negb {A} (P : A -> bool) (l : list A) :
  forallb P l = true -> existsb (fun s => negb (P s)) l = false.
Proof.
  induction l as [|x l IH]; [reflexivity|].
  cbn [forallb existsb]. destruct (P x); cbn [negb andb orb];
    [exact IH | discriminate].
Qed.

(** X6. [check_escalation_block] writes one entry under the label and
    touches nothing else. Its two lists split the required operations by
    what [results] says (a missing entry counts as not accessible), keeping
    their order, so every required operation is in exactly one of them; the
    status is READY exactly when nothing is missing, BLOCKED exactly when
    something is required and nothing is accessible, PARTIAL otherwise. *)
Theorem escalation_block_partition
    (label : string) (required : list string) (m : machine) :
  let m' := snd (check_escalation_block label required m) in
  exists e : escalation_entry,
    get label (escalation_results m') = Some e
    /\ m' = with_escalation (set label e (escalation_results m)) m
    /\ esc_accessible_services e = filter (accessible_in (results m)) required
    /\ esc_missing_services e
       = filter (fun s => negb (accessible_in (results m) s)) required
    /\ (List.length (esc_accessible_services e)
        + List.length (esc_missing_services e))%nat = List.length required
    /\ (esc_status e = BLOCK_READY <-> esc_missing_services e = [])
    /\ (esc_status e = BLOCK_BLOCKED <->
        esc_accessible_services e = [] /\ required <> [])
    /\ (esc_status e = BLOCK_PARTIAL <->
        esc_accessible_services e <> [] /\ esc_missing_services e <> []).
Proof.
  cbv zeta. unfold check_escalation_block, bind, gets, modify. cbn beta iota.
  fold (accessible_in (results m)).
  rewrite (filter_filter_in (accessible_in (results m)) required).
  eexists. cbn [snd escalation_results with_escalation].
  split; [apply get_set_eq|]. split; [reflexivity|].
  cbn [esc_accessible_services esc_missing_services esc_status].
  split; [reflexivity|]. split; [reflexivity|].
  split; [symmetry; apply filter_split_length|].
  rewrite filter_all_length, filter_some_length.
  rewrite filter_negb_nil, !filter_nil_existsb.
  assert (Hsome : existsb (accessible_in (results m)) required = true ->
                  required <> []).
  { intros H ->. discriminate H. }
  assert (Hnone : forallb (accessible_in (results m)) required = false ->
                  required <> []).
  { intros H ->. discriminate H. }
  assert (Hboth : forallb (accessible_in (results m)) required = true ->
                  existsb (accessible_in (results m)) required = false ->
                  required = []).
  { destruct required as [|x l]; [reflexivity|].
    cbn [forallb existsb]. destruct (accessible_in (results m) x);
      cbn [andb orb]; discriminate. }
  destruct (forallb (accessible_in (results m)) required) eqn:F;
    destruct (existsb (accessible_in (results m)) required) eqn:E;
    repeat split; try discriminate; try tauto; try congruence;
    try (intros [H H']; try discriminate; try (apply H'; auto); congruence).
Qed.

(** ** The three lists of the flow analysis *)

Lemma analyze_fold_lists acc esc (kvs : list (string * flow_info)) :
  forall fa0 : flow_analysis,
    let fa := fold_left
                (fun fa kv =>
                   file_status fa (analyze_flow acc esc (fst kv) (snd kv)))
                kvs fa0 in
    let all := map (fun kv => analyze_flow acc esc (fst kv) (snd kv)) kvs in
    available_flows fa
    = (available_flows fa0
       ++ filter (fun fs => flow_state_eqb (fs_status fs) READY) all)%list
    /\ escalation_opportunities fa
       = (escalation_opportunities fa0
          ++ filter (fun fs => flow_state_eqb (fs_status fs) ESCALATION_NEEDED)
               all)%list
    /\ blocked_flows fa
       = (blocked_flows fa0
          ++ filter (fun fs =>
                       flow_state_eqb (fs_status fs) BLOCKED_NO_ESCALATION
                       || flow_state_eqb (fs_status fs) BLOCKED) all)%list.
Proof.
  induction kvs as [|kv kvs IH]; intros fa0; cbv zeta.
  - cbn. now rewrite !app_nil_r.
  - cbn [fold_left map filter].
    destruct (IH (file_status fa0 (analyze_flow acc esc (fst kv) (snd kv))))
      as (H1 & H2 & H3).
    cbv zeta in H1, H2, H3. rewrite H1, H2, H3.
    unfold file_status.
    destruct (fs_status (analyze_flow acc esc (fst kv) (snd kv)));
      cbn [available_flows escalation_opportunities blocked_flows
           flow_state_eqb orb];
      rewrite <- ?app_assoc; repeat split; reflexivity.
Qed.

(** X7. [analyze_attack_flows] files every flow of its table exactly once:
    [available_flows] holds the READY statuses, [escalation_opportunities]
    the ESCALATION_NEEDED ones and [blocked_flows] the two blocked kinds,
    each list in the order of the table, so the three lengths add up to the
    number of flows. *)
Theorem analysis_files_each_flow_once
    (flows : dict flow_info) (res : dict probe_result) (esc : escalation_result) :
  let fa := analyze_flows_in flows res esc in
  let all := flow_statuses flows res esc in
  available_flows fa
  = filter (fun fs => flow_state_eqb (fs_status fs) READY) all
  /\ escalation_opportunities fa
     = filter (fun fs => flow_state_eqb (fs_status fs) ESCALATION_NEEDED) all
  /\ blocked_flows fa
     = filter (fun fs => flow_state_eqb (fs_status fs) BLOCKED_NO_ESCALATION
                         || flow_state_eqb (fs_status fs) BLOCKED) all
  /\ (List.length (available_flows fa)
      + List.length (escalation_opportunities fa)
      + List.length (blocked_flows fa))%nat = List.length (items flows).
Proof.
  cbv zeta. unfold analyze_flows_in, flow_statuses.
  destruct (analyze_fold_lists (accessible_services_of res) esc (items flows)
              {| available_flows := []; blocked_flows := [];
                 escalation_opportunities := [] |}) as (H1 & H2 & H3).
  cbv zeta in H1, H2, H3. cbn [available_flows escalation_opportunities
                               blocked_flows app] in H1, H2, H3.
  rewrite H1, H2, H3. clear H1 H2 H3. repeat split.
  rewrite <- (length_map
                (fun kv => analyze_flow (accessible_services_of res) esc
                             (fst kv) (snd kv)) (items flows)).
  induction (map _ (items flows)) as [|fs l IH]; [reflexivity|].
  cbn [filter]. destruct (fs_status fs); cbn [flow_state_eqb orb List.length];
    lia.
Qed.

(** ** One flow status *)

Lemma percent_ends_table :
  forallb (fun r =>
    forallb (fun a =>
               Bool.eqb (float_percent a r =? 100) (a =? r)%nat
               && Bool.eqb (float_percent a r =? 0) (a =? 0)%nat)
            (seq 0 (S r)))
    (seq 1 49) = true.
Proof. vm_compute. reflexivity. Qed.

Lemma percent_ends (a r : nat) :
  (a <= r)%nat -> (1 <= r <= 49)%nat ->
  (float_percent a r = 100 <-> a = r)
  /\ (float_percent a r = 0 <-> a = 0%nat).
Proof.
  intros Ha Hr.
  pose proof percent_ends_table as T.
  rewrite forallb_forall in T.
  specialize (T r ltac:(apply in_seq; lia)). rewrite forallb_forall in T.
  specialize (T a ltac:(apply in_seq; lia)).
  apply andb_true_iff in T as [T1 T2].
  apply Bool.eqb_prop in T1, T2.
  split.
  - rewrite <- Z.eqb_eq, T1. apply Nat.eqb_eq.
  - rewrite <- Z.eqb_eq, T2. apply Nat.eqb_eq.
Qed.

(** X8. In the status of any flow, [available_services] and
    [missing_services] split the required operations by accessibility,
    keeping their order; the state is READY exactly when nothing is
    missing and BLOCKED exactly when something is required and nothing is
    available. For a declared flow the completion percentage is 100 exactly
    when the flow is READY and 0 exactly when it is BLOCKED. *)
Theorem flow_status_consistency
    (accessible_services : list string) (esc : escalation_result)
    (flow_key : string) (info : flow_info) :
  let fs := analyze_flow accessible_services esc flow_key info in
  fs_available_services fs
  = filter (fun s => list_in s accessible_services) (required_services info)
  /\ fs_missing_services fs
     = filter (fun s => negb (list_in s accessible_services))
         (required_services info)
  /\ (List.length (fs_available_services fs)
      + List.length (fs_missing_services fs))%nat
     = List.length (required_services info)
  /\ (fs_status fs = READY <-> fs_missing_services fs = [])
  /\ (fs_status fs = BLOCKED <->
      fs_available_services fs = [] /\ required_services info <> [])
  /\ (In (flow_key, info) (items attack_flows) ->
      (fs_completion_percentage fs = 100 <-> fs_status fs = READY)
      /\ (fs_completion_percentage fs = 0 <-> fs_status fs = BLOCKED)).
Proof.
  cbv zeta.
  cbn [analyze_flow fs_available_services fs_missing_services fs_status
       fs_completion_percentage].
  set (P := fun s => list_in s accessible_services).
  set (req := required_services info).
  split; [reflexivity|]. split; [reflexivity|].
  split; [symmetry; apply (filter_split_length P)|].
  assert (Hready :
    (if (List.length (filter P req) =? List.length req)%nat then READY
     else if (0 <? List.length (filter P req))%nat
             && negb match available_roles_for esc (escalation_roles info) with
                     | [] => true | _ :: _ => false end
     then ESCALATION_NEEDED
     else if (0 <? List.length (filter P req))%nat then BLOCKED_NO_ESCALATION
     else BLOCKED) = READY
    <-> List.length (filter P req) = List.length req).
  { destruct (List.length (filter P req) =? List.length req)%nat eqn:E.
    - apply Nat.eqb_eq in E. tauto.
    - apply Nat.eqb_neq in E.
      destruct (0 <? _)%nat; destruct (negb _); cbn [andb];
        split; try discriminate; contradiction. }
  assert (Hblocked :
    (if (List.length (filter P req) =? List.length req)%nat then READY
     else if (0 <? List.length (filter P req))%nat
             && negb match available_roles_for esc (escalation_roles info) with
                     | [] => true | _ :: _ => false end
     then ESCALATION_NEEDED
     else if (0 <? List.length (filter P req))%nat then BLOCKED_NO_ESCALATION
     else BLOCKED) = BLOCKED
    <-> List.length (filter P req) = 0%nat /\ List.length req <> 0%nat).
  { destruct (List.length (filter P req) =? List.length req)%nat eqn:E.
    - apply Nat.eqb_eq in E. split; [discriminate | lia].
    - apply Nat.eqb_neq in E.
      destruct (0 <? List.length (filter P req))%nat eqn:L.
      + apply Nat.ltb_lt in L.
        destruct (negb _); cbn [andb]; (split; [discriminate | lia]).
      + apply Nat.ltb_ge in L. cbn [andb]. split; [lia | reflexivity]. }
  split; [|split; [|intros Hin]].
  - rewrite Hready, filter_negb_nil, <- filter_all_length.
    symmetry. apply Nat.eqb_eq.
  - rewrite Hblocked, !length_zero_iff_nil. tauto.
  - pose proof (declared_flow_sizes _ _ Hin) as Hsz. fold req in Hsz.
    unfold completion_percentage.
    destruct req as [|s req'] eqn:Ereq; [cbn in Hsz; lia|].
    rewrite <- Ereq in *.
    destruct (percent_ends (List.length (filter P req)) (List.length req))
      as [H100 H0]; [apply filter_length_le | lia |].
    rewrite H100, H0, Hready, Hblocked. split; [tauto|].
    split; [intros H; split; [exact H | lia] | tauto].
Qed.

Lemma flow_status_consistency_witness :
  let info := {| flow_name := "S3 Bucket Exfiltration";
                 required_services := ["s3_buckets"; "s3_objects"];
                 escalation_roles := ["AWSLambdaBasicExecutionRole"; "IAMFullAccess"] |} in
  let fs := analyze_flow ["s3_objects"; "s3_buckets"]
              {| has_error := false; roles_analysis := empty |}
              "s3_exfiltration" info in
  In ("s3_exfiltration", info) (items attack_flows)
  /\ (fs_completion_percentage fs = 100 <-> fs_status fs = READY).
Proof.
  intros info fs.
  assert (Hin : In ("s3_exfiltration", info) (items attack_flows))
    by (right; left; reflexivity).
  split; [exact Hin|].
  exact (proj1 (proj2 (proj2 (proj2 (proj2 (proj2
           (flow_status_consistency ["s3_objects"; "s3_buckets"]
              {| has_error := false; roles_analysis := empty |}
              "s3_exfiltration" info))))) Hin)).
Defined.

(** ** The category as a function of the score *)

Lemma category_threshold (score : Z) :
  exists c, get_account_category score = Some c
            /\ min_score (cat_info c) = threshold_of score.
Proof.
  unfold get_account_category, get_account_category_in, threshold_of.
  cbn [account_categories items of_literal fold_left]. simpl.
  destruct (50 <=? score); [eexists; split; reflexivity|].
  destruct (30 <=? score); [eexists; split; reflexivity|].
  destruct (15 <=? score); [eexists; split; reflexivity|].
  destruct (5 <=? score); [eexists; split; reflexivity|].
  destruct (0 <=? score); eexists; split; reflexivity.
Qed.

(** X9. The category never goes down when the score goes up: for
    [score1 <= score2] the bucket of [score1] has a threshold at most that
    of [score2]; and the threshold of the bucket of a non-negative score is
    at most the score. *)
Theorem category_monotone (score1 score2 : Z) :
  score1 <= score2 ->
  exists c1 c2,
    get_account_category score1 = Some c1
    /\ get_account_category score2 = Some c2
    /\ min_score (cat_info c1) <= min_score (cat_info c2)
    /\ (0 <= score1 -> min_score (cat_info c1) <= score1).
Proof.
  intros H.
  destruct (category_threshold score1) as (c1 & E1 & T1).
  destruct (category_threshold score2) as (c2 & E2 & T2).
  exists c1, c2. rewrite T1, T2. repeat split; try assumption.
  - unfold threshold_of.
    repeat match goal with
           | |- context [?a <=? ?b] => destruct (Z.leb_spec a b)
           end; lia.
  - intros H0. unfold threshold_of.
    repeat match goal with
           | |- context [?a <=? ?b] => destruct (Z.leb_spec a b)
           end; lia.
Qed.

Lemma category_monotone_witness :
  29 <= 30
  /\ exists c1 c2,
       get_account_category 29 = Some c1
       /\ get_account_category 30 = Some c2
       /\ min_score (cat_info c1) <= min_score (cat_info c2).
Proof.
  split; [lia|].
  destruct (category_monotone 29 30 ltac:(lia)) as (c1 & c2 & H1 & H2 & H3 & _).
  exists c1, c2. auto.
Defined.

(** ** The credential gate: what each step lets through *)

(** X10. When the identity call of the liveness check raises a
    [ClientError] of the throttling family, [validate_key] does not reach
    the full validation: the liveness result has no ['account_id'], the
    line that reports it raises [KeyError], after one remote call and with
    no statistic written. *)
Theorem validate_key_throttled_raises
    (w : world) (g : gate_inputs) (m : machine)
    (error_code text endpoint : string) :
  format_errors g = [] ->
  connectivity g = inl endpoint ->
  liveness_call g = RaisedClientError error_code text ->
  In error_code throttling_codes ->
  let run := validate_key w g m in
  fst run = Raises "KeyError: 'account_id'"
  /\ trace (snd run) = (trace m ++ [RemoteCall "sts_get_caller_identity"])%list
  /\ performance_stats (snd run) = performance_stats m
  /\ service_cache (snd run) = service_cache m.
Proof.
  intros Hfmt Hconn Hcall Hin run. subst run.
  unfold validate_key, bind, time_time. cbn beta iota.
  rewrite Hfmt, Hconn, Hcall. cbn [_quick_liveness_check].
  assert (Hni : list_in error_code invalid_credential_codes = false).
  { apply list_in_false_iff. intros H.
    unfold invalid_credential_codes, throttling_codes in *.
    cbn [In] in H, Hin.
    destruct H as [<-|[<-|[<-|[]]]]; destruct Hin as [E|[E|[]]]; discriminate. }
  apply list_in_iff in Hin. rewrite Hni, Hin.
  repeat split.
Qed.

Lemma validate_key_throttled_raises_witness :
  let g := {| format_errors := [];
              connectivity := inl "sts.us-east-1.amazonaws.com";
              liveness_call := RaisedClientError "RequestLimitExceeded" "slow down";
              identity_call := Responded empty |} in
  In "RequestLimitExceeded" throttling_codes
  /\ fst (validate_key granting_world g new_validator)
     = Raises "KeyError: 'account_id'".
Proof.
  intros g.
  assert (Hin : In "RequestLimitExceeded" throttling_codes)
    by (left; reflexivity).
  split; [exact Hin|].
  exact (proj1 (validate_key_throttled_raises granting_world g new_validator
                  "RequestLimitExceeded" "slow down"
                  "sts.us-east-1.amazonaws.com"
                  eq_refl eq_refl eq_refl Hin)).
Defined.

(** X11. The first two steps are hard gates: with a format error
    [validate_key] returns the format failure carrying the error list, and
    with no reachable endpoint the unreachable failure; in both cases no
    remote call is made and neither statistics nor cache are written. *)
Theorem validate_key_early_gates (w : world) (g : gate_inputs) (m : machine) :
  let run := validate_key w g m in
  (format_errors g <> [] ->
   fst run = Returns (Invalid "Неверный формат ключей" (format_errors g))
   /\ trace (snd run) = trace m
   /\ performance_stats (snd run) = performance_stats m
   /\ service_cache (snd run) = service_cache m)
  /\ (format_errors g = [] ->
      forall error, connectivity g = inr error ->
      fst run = Returns (Invalid ("AWS недоступен: " ++ error) [])
      /\ trace (snd run) = trace m
      /\ performance_stats (snd run) = performance_stats m
      /\ service_cache (snd run) = service_cache m).
Proof.
  cbv zeta. unfold validate_key, bind, time_time. cbn beta iota. split.
  - intros Hne. destruct (format_errors g) as [|e es]; [congruence|].
    repeat split.
  - intros Hfmt error Hconn. rewrite Hfmt, Hconn. repeat split.
Qed.

Lemma validate_key_early_gates_witness :
  let g := {| format_errors := ["Access Key ID не может быть пустым"];
              connectivity := inl "sts.amazonaws.com";
              liveness_call := Responded empty;
              identity_call := Responded empty |} in
  format_errors g <> []
  /\ trace (snd (validate_key granting_world g new_validator)) = [].
Proof.
  intros g.
  assert (Hne : format_errors g <> []) by discriminate.
  split; [exact Hne|].
  exact (proj1 (proj2 (proj1 (validate_key_early_gates granting_world g
                                new_validator) Hne))).
Defined.

(** X12. [validate_key] reports success exactly when the format is valid,
    an endpoint is reachable, the liveness call answered, and the identity
    call of the full validation answered with ['Account'], ['Arn'] and
    ['UserId']; the identity returned carries these three values and the
    user name derived from the ARN. *)
Theorem validate_key_success_iff
    (w : world) (g : gate_inputs) (m : machine) (i : identity) :
  fst (validate_key w g m) = Returns (Valid i) <->
  format_errors g = []
  /\ (exists endpoint, connectivity g = inl endpoint)
  /\ (exists response, liveness_call g = Responded response)
  /\ (exists response account arn user_id,
        identity_call g = Responded response
        /\ get "Account" response = Some account
        /\ get "Arn" response = Some arn
        /\ get "UserId" response = Some user_id
        /\ i = {| id_account_id := account; id_arn := arn;
                  id_user_id := user_id;
                  id_username := username_of_arn arn |}).
Proof.
  unfold validate_key, full_validation, _update_performance_stats, emit.
  unfold bind, time_time, modify, ret.
  cbn beta iota.
  destruct (format_errors g) as [|e es].
  2:{ split; [discriminate | intros (H & _); discriminate]. }
  destruct (connectivity g) as [endpoint|error].
  2:{ split; [discriminate | intros (_ & (ep & H) & _); discriminate]. }
  destruct (liveness_call g) as [lresp|code text|text];
    cbn [_quick_liveness_check alive lv_account_id lv_error negb].
  - destruct (identity_call g) as [resp|code text|text]; cbn beta iota.
    + destruct (get "Account" resp) as [account|] eqn:EA;
        destruct (get "Arn" resp) as [arn|] eqn:EN;
        destruct (get "UserId" resp) as [uid|] eqn:EU; cbn [fst];
        try (split; [discriminate |
                     intros (_ & _ & _ & (r & a & n & u & E & HA & HN & HU & _));
                     injection E as <-; congruence]).
      split.
      * intros [= <-]. repeat split; eauto.
        exists resp, account, arn, uid. repeat split; auto.
      * intros (_ & _ & _ & (r & a & n & u & E & HA & HN & HU & ->)).
        injection E as <-. congruence.
    + split; [discriminate|].
      intros (_ & _ & _ & (r & a & n & u & E & _)). discriminate.
    + split; [discriminate|].
      intros (_ & _ & _ & (r & a & n & u & E & _)). discriminate.
  - destruct (list_in code invalid_credential_codes);
      [|destruct (list_in code throttling_codes)];
      cbn [alive lv_account_id lv_error negb fst];
      (split; [discriminate | intros (_ & _ & (r & H) & _); discriminate]).
  - cbn [fst]. split; [discriminate | intros (_ & _ & (r & H) & _); discriminate].
Qed.

(** X13. The full validation always writes the statistics of
    [sts_get_caller_identity]: one successful request when it returns the
    identity, one failed request when the identity call raises, and both a
    successful and a failed request when the response lacks one of the
    three fields. *)
Theorem full_validation_accounting
    (w : world) (g : gate_inputs) (start_time : Q) (m : machine) :
  let run := full_validation w g start_time m in
  let p := performance_stats m in
  let p' := performance_stats (snd run) in
  match identity_call g with
  | Responded response =>
      match get "Account" response, get "Arn" response, get "UserId" response with
      | Some _, Some _, Some _ =>
          (exists i, fst run = Valid i)
          /\ total_requests p' = total_requests p + 1
          /\ successful_requests p' = successful_requests p + 1
          /\ failed_requests p' = failed_requests p
      | _, _, _ =>
          (exists text, fst run = Invalid text [])
          /\ total_requests p' = total_requests p + 2
          /\ successful_requests p' = successful_requests p + 1
          /\ failed_requests p' = failed_requests p + 1
      end
  | RaisedClientError _ text | RaisedOther text =>
      fst run = Invalid text []
      /\ total_requests p' = total_requests p + 1
      /\ successful_requests p' = successful_requests p
      /\ failed_requests p' = failed_requests p + 1
  end.
Proof.
  cbv zeta. unfold full_validation, _update_performance_stats, emit.
  unfold bind, time_time, modify, ret.
  cbn beta iota.
  destruct (identity_call g) as [resp|code text|text]; cbn beta iota.
  - destruct (get "Account" resp); destruct (get "Arn" resp);
      destruct (get "UserId" resp);
      cbn [fst snd performance_stats with_stats with_clock with_trace
           record_sample total_requests successful_requests failed_requests];
      repeat split; eauto; lia.
  - cbn [fst snd performance_stats with_stats with_clock with_trace
         record_sample total_requests successful_requests failed_requests].
    repeat split; lia.
  - cbn [fst snd performance_stats with_stats with_clock with_trace
         record_sample total_requests successful_requests failed_requests].
    repeat split; lia.
Qed.

(** ** The user name of an ARN *)

Lemma str_in_slash_cons (c : ascii) (s : string) :
  str_in "/" (String c s) = Ascii.eqb c "/"%char || str_in "/" s.
Proof.
  cbn [str_in]. f_equal. cbn [String.prefix].
  destruct (ascii_dec "/"%char c) as [<-|N].
  - destruct s; reflexivity.
  - symmetry. apply Ascii.eqb_neq. congruence.
Qed.

Lemma string_app_assoc (a b c : string) : ((a ++ b) ++ c)%string = (a ++ b ++ c)%string.
Proof. induction a as [|x a IH]; cbn; [reflexivity | now rewrite IH]. Qed.

Lemma last_segment_no_slash (acc s : string) :
  str_in "/" s = false -> last_segment acc s = (acc ++ s)%string.
Proof.
  revert acc. induction s as [|c s IH]; intros acc H; cbn [last_segment].
  - induction acc as [|x acc IHa]; cbn; [reflexivity | now rewrite <- IHa].
  - rewrite str_in_slash_cons in H. apply orb_false_iff in H as [Hc Hs].
    rewrite Hc, IH by exact Hs. now rewrite string_app_assoc.
Qed.

Lemma last_segment_after_slash (acc p u : string) :
  last_segment acc (p ++ String "/"%char u) = last_segment EmptyString u.
Proof.
  revert acc. induction p as [|c p IH]; intros acc.
  - reflexivity.
  - cbn [append last_segment]. destruct (Ascii.eqb c "/"%char); apply IH.
Qed.

Lemma str_in_slash_app (a b : string) :
  str_in "/" (a ++ b) = str_in "/" a || str_in "/" b.
Proof.
  induction a as [|c a IH].
  - reflexivity.
  - cbn [append]. rewrite !str_in_slash_cons, IH. now rewrite orb_assoc.
Qed.

Lemma last_segment_slash_free (acc s : string) :
  str_in "/" acc = false -> str_in "/" (last_segment acc s) = false.
Proof.
  revert acc. induction s as [|c s IH]; intros acc H; cbn [last_segment].
  - exact H.
  - destruct (Ascii.eqb c "/"%char) eqn:E.
    + now apply IH.
    + apply IH. rewrite str_in_slash_app, H, str_in_slash_cons, E. reflexivity.
Qed.

(** X14. The user name derived from an ARN is the text after its last
    ['/']: for an ARN [p/u] with no ['/'] in [u] it is [u] (empty when the
    ARN ends with ['/']); it is ['root'] when the ARN has no ['/'], and
    otherwise it never contains a ['/']. *)
Theorem username_is_last_segment :
  (forall p u : string,
     str_in "/" u = false ->
     username_of_arn (p ++ String "/"%char u) = u)
  /\ (forall arn : string, str_in "/" arn = false -> username_of_arn arn = "root")
  /\ (forall arn : string, str_in "/" (username_of_arn arn) = false).
Proof.
  split; [|split].
  - intros p u Hu. unfold username_of_arn.
    rewrite str_in_slash_app, str_in_slash_cons, Ascii.eqb_refl.
    rewrite orb_true_r.
    rewrite last_segment_after_slash. now apply last_segment_no_slash.
  - intros arn H. unfold username_of_arn. now rewrite H.
  - intros arn. unfold username_of_arn.
    destruct (str_in "/" arn); [|reflexivity].
    now apply last_segment_slash_free.
Qed.

Lemma username_is_last_segment_witness :
  str_in "/" "alice" = false
  /\ username_of_arn ("arn:aws:iam::123456789012:user/ops" ++ String "/"%char "alice")
     = "alice".
Proof.
  split; [reflexivity|].
  apply (proj1 username_is_last_segment). reflexivity.
Defined.

(** ** The scan: selection *)

Lemma get_in_values {V} (k : string) (v : V) (d : dict V) :
  get k d = Some v -> In v (values d).
Proof.
  unfold values. induction d as [|[k' v'] d IH]; cbn [get map]; [discriminate|].
  destruct (String.eqb k k'); [intros [= <-]; now left | intros H; right; auto].
Qed.

Lemma filter_on_any (filters : dict bool) (k : string) :
  filter_on filters k = true -> existsb (fun b => b) (values filters) = true.
Proof.
  unfold filter_on. destruct (get k filters) as [b|] eqn:E; [|discriminate].
  intros ->. apply existsb_exists. exists true. split; [|reflexivity].
  exact (get_in_values _ _ _ E).
Qed.

(** X15. The flows selected depend only on the four priority flags: when
    none of [critical], [high], [medium], [low] is set, all twelve flows
    are selected, whatever else the dictionary holds; otherwise the flows
    of the set priorities are selected, in priority order. *)
Theorem flows_depend_on_priority_flags (filters : dict bool) :
  _determine_flows_to_check filters
  = if any_priority filters
    then ((if filter_on filters "critical" then all_flows_critical else [])
          ++ (if filter_on filters "high" then all_flows_high else [])
          ++ (if filter_on filters "medium" then all_flows_medium else [])
          ++ (if filter_on filters "low" then all_flows_low else []))%list
    else (all_flows_critical ++ all_flows_high ++ all_flows_medium
          ++ all_flows_low)%list.
Proof.
  unfold _determine_flows_to_check, any_priority.
  destruct (filter_on filters "critical") eqn:C;
    [rewrite (filter_on_any _ _ C); reflexivity|].
  destruct (filter_on filters "high") eqn:H;
    [rewrite (filter_on_any _ _ H); reflexivity|].
  destruct (filter_on filters "medium") eqn:M;
    [rewrite (filter_on_any _ _ M); reflexivity|].
  destruct (filter_on filters "low") eqn:L;
    [rewrite (filter_on_any _ _ L); reflexivity|].
  cbn [orb negb]. destruct (negb _); reflexivity.
Qed.

(** X16. With the [low] flag alone no flow is selected: the scan probes
    nothing. It returns a report with no result, total 0 and no coverage
    entry, makes no remote call, and leaves cache and statistics as they
    were. *)
Theorem low_filter_probes_nothing
    (w : world) (m : machine) (filters : dict bool) :
  clients_ok w = true ->
  filter_on filters "low" = true ->
  filter_on filters "critical" = false ->
  filter_on filters "high" = false ->
  filter_on filters "medium" = false ->
  let run := check_service_permissions w filters m in
  _determine_flows_to_check filters = []
  /\ fst run
     = Report {| rep_results := empty; rep_total_score := 0;
                 rep_accessible_services := [];
                 rep_escalation_results := empty;
                 rep_performance_stats := performance_stats m |}
  /\ trace (snd run) = trace m
  /\ service_cache (snd run) = service_cache m
  /\ performance_stats (snd run) = performance_stats m.
Proof.
  intros Hok L C H M run.
  assert (E : _determine_flows_to_check filters = []).
  { unfold _determine_flows_to_check.
    rewrite (filter_on_any _ _ L), L, C, H, M. reflexivity. }
  split; [exact E|].
  subst run. rewrite (check_service_permissions_run w filters m Hok), E.
  cbv zeta. cbn [fst snd]. repeat split.
Qed.

Lemma low_filter_probes_nothing_witness :
  let filters := of_literal [("critical", false); ("high", false);
                             ("medium", false); ("low", true)] in
  clients_ok granting_world = true
  /\ filter_on filters "low" = true
  /\ trace (snd (check_service_permissions granting_world filters new_validator))
     = [].
Proof.
  intros filters. split; [reflexivity|]. split; [reflexivity|].
  exact (proj1 (proj2 (proj2
           (low_filter_probes_nothing granting_world new_validator filters
              eq_refl eq_refl eq_refl eq_refl eq_refl)))).
Defined.

(** ** The scan: what one probe writes *)

Lemma config_count_app (tr1 tr2 : list event) :
  config_count (tr1 ++ tr2) = (config_count tr1 + config_count tr2)%nat.
Proof. unfold config_count. now rewrite filter_app, length_app. Qed.

Lemma retry_loop_events (w : world) (service_name : string) :
  forall (attempts : list nat) (m : machine),
    exists evs,
      snd (retry_loop w service_name attempts m) = with_trace (trace m ++ evs) m
      /\ config_count evs = 0%nat.
Proof.
  induction attempts as [|a attempts IH]; intros m.
  - exists []. split; [|reflexivity].
    cbn. destruct m; unfold with_trace; cbn. now rewrite app_nil_r.
  - cbn [retry_loop]. unfold bind, check_func.
    destruct (remote w service_name (remote_calls (trace m))).
    + exists [RemoteCall service_name]. split; reflexivity.
    + destruct (a <? retry_attempts - 1)%nat eqn:Ha.
      * rewrite (backoff_delay_in_loop a Ha).
        unfold time_sleep, emit, modify. cbn beta iota.
        destruct (IH (with_trace
                        (trace (with_trace (trace m ++ [RemoteCall service_name]) m)
                         ++ [Sleep (backoff_delay a)])
                        (with_trace (trace m ++ [RemoteCall service_name]) m)))
          as [evs [E C]].
        exists (RemoteCall service_name
                :: Sleep (backoff_delay a) :: evs).
        split; [|exact C].
        rewrite E. destruct m; unfold with_trace; cbn.
        f_equal. rewrite <- !app_assoc. reflexivity.
      * exists [RemoteCall service_name]. split; reflexivity.
Qed.

(** Everything a probe that goes to the platform writes. *)
Lemma fresh_probe_effect (w : world) (service_name : string) (start_time : Q)
    (m : machine) :
  exists (ok : bool) (evs : list event),
    let r := {| accessible := ok;
                score := if ok then weight service_name else 0 |} in
    let m' := snd (fresh_probe w service_name start_time m) in
    fst (fresh_probe w service_name start_time m) = score r
    /\ results m' = set service_name r (results m)
    /\ service_cache m'
       = set service_name
           {| result := r; timestamp := now w (S (clock_reads m)) |}
           (service_cache m)
    /\ performance_stats m'
       = record_sample service_name (now w (clock_reads m) - start_time)%Q ok
           (performance_stats m)
    /\ trace m'
       = (trace m
          ++ MakeConfig service_name
               (_get_optimized_timeout (performance_stats m) service_name)
          :: evs)%list
    /\ config_count evs = 0%nat
    /\ total_score m' = total_score m
    /\ current_service m' = current_service m
    /\ escalation_results m' = escalation_results m.
Proof.
  unfold fresh_probe, bind, gets, emit, modify. cbn beta iota.
  set (m1 := with_trace _ m).
  destruct (retry_loop_events w service_name (seq 0 retry_attempts) m1)
    as [evs [E C]].
  destruct (retry_loop w service_name (seq 0 retry_attempts) m1)
    as [ok m2] eqn:R.
  cbn [snd] in E. subst m2.
  exists ok, evs.
  unfold record_outcome, _update_performance_stats.
  unfold bind, time_time, modify, ret.
  cbn beta iota. subst m1.
  cbn [fst snd trace with_trace with_clock with_stats with_cache with_results
       results service_cache total_score current_service escalation_results
       clock_reads performance_stats score].
  repeat split;
    try (destruct ok; reflexivity);
    try (destruct ok; cbn; rewrite <- app_assoc; reflexivity).
  exact C.
Qed.

(** Everything a probe writes, by the answer of the cache. *)
Lemma probe_effect (w : world) (service_name : string) (m : machine) :
  let m' := snd (probe w service_name m) in
  current_service m' = current_service m + 1
  /\ escalation_results m' = escalation_results m
  /\ (cache_fresh w m service_name = true ->
      exists entry,
        get service_name (service_cache m) = Some entry
        /\ results m' = set service_name (result entry) (results m)
        /\ total_score m' = total_score m + score (result entry)
        /\ service_cache m' = service_cache m
        /\ performance_stats m' = performance_stats m
        /\ trace m' = trace m)
  /\ (cache_fresh w m service_name = false ->
      exists (ok : bool) (k : nat) (t : Q) (evs : list event),
        let r := {| accessible := ok;
                    score := if ok then weight service_name else 0 |} in
        results m' = set service_name r (results m)
        /\ total_score m' = total_score m + score r
        /\ service_cache m'
           = set service_name {| result := r; timestamp := now w k |}
               (service_cache m)
        /\ performance_stats m'
           = record_sample service_name t ok (performance_stats m)
        /\ trace m'
           = (trace m
              ++ MakeConfig service_name
                   (_get_optimized_timeout (performance_stats m) service_name)
              :: evs)%list
        /\ config_count evs = 0%nat).
Proof.
  cbv zeta. unfold probe, bind, modify. cbn beta iota.
  set (m0 := with_current (current_service m + 1) m).
  destruct (cache_fresh w m service_name) eqn:F.
  - assert (F0 : cache_fresh w m0 service_name = true) by exact F.
    assert (Hex : exists entry, get service_name (service_cache m) = Some entry).
    { unfold cache_fresh in F.
      destruct (get service_name (service_cache m)); [eauto | discriminate]. }
    destruct Hex as [entry Hget].
    rewrite (check_service_hit w service_name m0 entry Hget F0).
    cbn [snd]. split; [reflexivity|]. split; [reflexivity|].
    split; [|discriminate]. intros _. exists entry. repeat split. exact Hget.
  - assert (F0 : cache_fresh w m0 service_name = false) by exact F.
    rewrite (check_service_miss w service_name m0 F0).
    destruct (fresh_probe_effect w service_name (now w (clock_reads m0))
                (after_cache_check m0 service_name))
      as (ok & evs & Hs & Hr & Hc & Hp & Ht & Hn & Htot & Hcur & Hesc).
    cbv zeta in *.
    destruct (fresh_probe w service_name (now w (clock_reads m0))
                (after_cache_check m0 service_name)) as [s m1].
    cbn [fst snd] in *. subst s.
    cbn [current_service escalation_results with_total results total_score
         service_cache performance_stats trace].
    split; [rewrite Hcur; reflexivity|]. split; [rewrite Hesc; reflexivity|].
    split; [discriminate|]. intros _.
    exists ok, (S (clock_reads (after_cache_check m0 service_name))),
           (now w (clock_reads (after_cache_check m0 service_name))
            - now w (clock_reads m0))%Q, evs.
    split; [exact Hr|]. split; [rewrite Htot; reflexivity|].
    split; [exact Hc|]. split; [exact Hp|]. split; [exact Ht | exact Hn].
Qed.

(** ** The scan: the report *)

Lemma probe_all_invariant (w : world) (P : machine -> Prop) (l : list string) :
  (forall n m, In n l -> P m -> P (snd (probe w n m))) ->
  forall m, P m -> P (snd (probe_all w l m)).
Proof.
  induction l as [|n l IH]; intros Hstep m Hm; [exact Hm|].
  cbn [probe_all]. unfold bind.
  pose proof (Hstep n m (or_introl eq_refl) Hm) as H1.
  destruct (probe w n m) as [[] m1]. cbn [snd] in *.
  apply IH; [|exact H1].
  intros n' m' Hin. apply Hstep. now right.
Qed.

(** What every probe writes to [results] and adds to the total, whatever
    its path. *)
Lemma probe_result_written (w : world) (n : string) (m : machine) :
  exists r : probe_result,
    results (snd (probe w n m)) = set n r (results m)
    /\ total_score (snd (probe w n m)) = total_score m + score r
    /\ (cache_consistent (service_cache m) ->
        score r = (if accessible r then weight n else 0)
        /\ cache_consistent (service_cache (snd (probe w n m))))
    /\ exists entry,
         get n (service_cache (snd (probe w n m))) = Some entry
         /\ result entry = r
         /\ forall n', n' <> n ->
              get n' (service_cache (snd (probe w n m)))
              = get n' (service_cache m).
Proof.
  destruct (probe_effect w n m) as (_ & _ & Hhit & Hmiss).
  destruct (cache_fresh w m n) eqn:F.
  - destruct (Hhit eq_refl) as (entry & Hget & Hr & Ht & Hc & _).
    exists (result entry). rewrite Hr, Ht, Hc.
    split; [reflexivity|]. split; [reflexivity|]. split.
    + intros Hcons. split; [|exact Hcons].
      exact (Forall_get_pair _ _ _ _ Hcons Hget).
    + exists entry. repeat split; auto.
  - destruct (Hmiss eq_refl) as (ok & k & t & evs & Hr & Ht & Hc & _).
    cbv zeta in *.
    exists {| accessible := ok; score := if ok then weight n else 0 |}.
    rewrite Hr, Ht, Hc.
    split; [reflexivity|]. split; [reflexivity|]. split.
    + intros Hcons. split; [reflexivity|].
      apply Forall_set_pair; [exact Hcons | reflexivity].
    + eexists. split; [apply get_set_eq|]. split; [reflexivity|].
      intros n' Hn. apply get_set_neq. congruence.
Qed.

Lemma set_keys {V} (k : string) (v : V) (d : dict V) :
  keys (set k v d) = if mem k d then keys d else (keys d ++ [k])%list.
Proof.
  unfold keys, mem. induction d as [|[k' v'] d IH]; cbn [set get map app].
  - reflexivity.
  - destruct (String.eqb k k') eqn:E; cbn [map fst].
    + reflexivity.
    + rewrite IH. destruct (get k d); reflexivity.
Qed.

Lemma mem_in_keys {V} (k : string) (d : dict V) :
  mem k d = true <-> In k (keys d).
Proof.
  unfold mem, keys. induction d as [|[k' v'] d IH]; cbn [get map In fst].
  - split; [discriminate | tauto].
  - destruct (String.eqb k k') eqn:E.
    + apply String.eqb_eq in E. subst. split; [now left | reflexivity].
    + rewrite IH. split; [now right|].
      intros [->|H]; [now rewrite String.eqb_refl in E | exact H].
Qed.

Lemma set_keys_nodup {V} (k : string) (v : V) (d : dict V) :
  NoDup (keys d) -> NoDup (keys (set k v d)).
Proof.
  intros H. rewrite set_keys. destruct (mem k d) eqn:E; [exact H|].
  apply NoDup_app; [exact H | repeat constructor; intros [] |].
  intros x Hx [<-|[]]. apply mem_in_keys in Hx. congruence.
Qed.

Lemma get_in_items {V} (k : string) (v : V) (d : dict V) :
  get k d = Some v -> In (k, v) (items d).
Proof.
  unfold items. induction d as [|[k' v'] d IH]; cbn [get In]; [discriminate|].
  destruct (String.eqb k k') eqn:E.
  - apply String.eqb_eq in E. subst. intros [= <-]. now left.
  - intros H. right. auto.
Qed.

Lemma in_items_get {V} (k : string) (v : V) (d : dict V) :
  NoDup (keys d) -> In (k, v) (items d) -> get k d = Some v.
Proof.
  unfold items, keys. induction d as [|[k' v'] d IH]; cbn [get In map fst];
    [tauto|].
  intros Hnd [E|H].
  - injection E as -> ->. now rewrite String.eqb_refl.
  - inversion Hnd as [|? ? Hnot Hnd']; subst.
    destruct (String.eqb k k') eqn:E.
    + apply String.eqb_eq in E. subst. exfalso. apply Hnot.
      apply in_map_iff. exists (k', v). auto.
    + auto.
Qed.

Lemma accessible_nodup (d : dict probe_result) :
  NoDup (keys d) -> NoDup (accessible_services_of d).
Proof.
  unfold accessible_services_of, items, keys.
  induction d as [|[k o] d IH]; intros Hnd; [constructor|].
  inversion Hnd as [|? ? Hnot Hnd']; subst. cbn [filter snd].
  destruct (accessible o); [|now apply IH].
  cbn [map fst]. constructor; [|now apply IH].
  intros H. apply Hnot. apply in_map_iff in H as [[k' o'] [E H]].
  cbn in E. subst k'. apply filter_In in H as [H _].
  apply in_map_iff. exists (k, o'). auto.
Qed.

(** The report of a scan, read off the run of probes it makes. *)
Lemma scan_core (w : world) (m : machine) (filters : dict bool) :
  clients_ok w = true ->
  let selected := selected_services (_determine_flows_to_check filters) in
  let final := snd (probe_all w selected (scan_start m)) in
  exists (r : report) (e : dict escalation_entry),
    check_service_permissions w filters m = (Report r, with_escalation e final)
    /\ rep_results r = results final
    /\ rep_total_score r = total_score final
    /\ rep_accessible_services r = accessible_services_of (results final)
    /\ rep_performance_stats r = performance_stats final.
Proof.
  intros Hok selected final.
  rewrite (check_service_permissions_run w filters m Hok). cbv zeta.
  destruct (run_blocks_core w (_determine_flows_to_check filters)
              probe_blocks (scan_start m)) as [e He].
  fold (selected_services (_determine_flows_to_check filters)) in He.
  fold selected in He. fold final in He.
  eexists. exists e. rewrite He.
  split; [reflexivity|]. repeat split.
Qed.

Lemma scan_results_keys (w : world) (selected : list string) (m : machine) :
  let final := snd (probe_all w selected (scan_start m)) in
  NoDup (keys (results final))
  /\ forall name, mem name (results final) = true -> In name selected.
Proof.
  cbv zeta.
  apply (probe_all_invariant w
           (fun m => NoDup (keys (results m))
                     /\ forall name, mem name (results m) = true ->
                                     In name selected)).
  - intros n m0 Hin [Hnd Hsub].
    destruct (probe_result_written w n m0) as (r0 & Hr0 & _).
    rewrite Hr0. split; [now apply set_keys_nodup|].
    intros name. rewrite mem_set.
    destruct (String.eqb name n) eqn:E.
    + apply String.eqb_eq in E. now subst.
    + apply Hsub.
  - split; [constructor | discriminate].
Qed.

Lemma accessible_services_iff (d : dict probe_result) (name : string) :
  NoDup (keys d) ->
  In name (accessible_services_of d) <->
  exists o, get name d = Some o /\ accessible o = true.
Proof.
  intros Hnd. unfold accessible_services_of. rewrite in_map_iff. split.
  - intros [[k o] [E H]]. cbn in E. subst k.
    apply filter_In in H as [Hin Ho]. exists o. split; [|exact Ho].
    now apply in_items_get.
  - intros [o [Hget Ho]]. exists (name, o). split; [reflexivity|].
    apply filter_In. split; [now apply get_in_items | exact Ho].
Qed.

(** X17. The report of a scan covers exactly the selected operations: an
    operation has an entry if and only if it belongs to a selected flow,
    no operation has two entries, and the accessible list holds exactly the
    operations whose entry says accessible, each once. *)
Theorem report_covers_selection
    (w : world) (m : machine) (filters : dict bool) :
  clients_ok w = true ->
  let selected := selected_services (_determine_flows_to_check filters) in
  exists r : report,
    fst (check_service_permissions w filters m) = Report r
    /\ (forall name,
          (exists o, get name (rep_results r) = Some o) <-> In name selected)
    /\ NoDup (keys (rep_results r))
    /\ (forall name,
          In name (rep_accessible_services r) <->
          exists o, get name (rep_results r) = Some o /\ accessible o = true)
    /\ NoDup (rep_accessible_services r)
    /\ incl (rep_accessible_services r) selected.
Proof.
  intros Hok selected.
  destruct (scan_core w m filters Hok) as (r & e & Hrun & Hres & _ & Hacc & _).
  cbv zeta in *. fold selected in Hrun, Hres, Hacc.
  set (final := snd (probe_all w selected (scan_start m))) in *.
  exists r. rewrite Hrun, Hres, Hacc. split; [reflexivity|].
  destruct (scan_results_keys w selected m) as [Hnd Hsub].
  cbv zeta in Hnd, Hsub. fold final in Hnd, Hsub.
  pose proof (fun name => accessible_services_iff (results final) name Hnd)
    as Hiff.
  split; [|split; [exact Hnd|split; [exact Hiff|split]]].
  - intros name. split.
    + intros [o Ho]. apply Hsub. unfold mem. now rewrite Ho.
    + intros Hin.
      pose proof (probe_all_entries w selected (scan_start m) name
                    (or_introl Hin)) as H.
      fold final in H. unfold mem in H.
      destruct (get name (results final)) as [o|]; [eauto | discriminate].
  - now apply accessible_nodup.
  - intros name H. apply Hiff in H as [o [Hget _]].
    apply Hsub. unfold mem. now rewrite Hget.
Qed.

Lemma report_covers_selection_witness :
  clients_ok granting_world = true
  /\ exists r : report,
       fst (check_service_permissions granting_world
              (of_literal [("medium", true)]) new_validator) = Report r
       /\ NoDup (keys (rep_results r)).
Proof.
  split; [reflexivity|].
  destruct (report_covers_selection granting_world new_validator
              (of_literal [("medium", true)]) eq_refl)
    as (r & H & _ & Hnd & _).
  exists r. split; assumption.
Defined.

Lemma service_scores_nonneg_table :
  forallb (fun kv => 0 <=? snd kv) (items service_scores) = true.
Proof. vm_compute. reflexivity. Qed.

Lemma weight_nonneg (name : string) : 0 <= weight name.
Proof.
  unfold weight. destruct (get name service_scores) as [v|] eqn:E; [|lia].
  pose proof service_scores_nonneg_table as T. rewrite forallb_forall in T.
  specialize (T (name, v) (get_in_items _ _ _ E)). cbn in T. lia.
Qed.

Lemma weight_sum_cons (n : string) (l : list string) :
  weight_sum (n :: l) = weight n + weight_sum l.
Proof. exact (weight_sum_app [n] l). Qed.

Lemma probe_all_total_bounds (w : world) :
  forall (l : list string) (m : machine),
    cache_consistent (service_cache m) ->
    let m' := snd (probe_all w l m) in
    total_score m <= total_score m' <= total_score m + weight_sum l.
Proof.
  induction l as [|n l IH]; intros m Hc; cbv zeta.
  - cbn. unfold weight_sum, Zsum. cbn. lia.
  - cbn [probe_all]. unfold bind.
    destruct (probe_result_written w n m) as (r & _ & Ht & Hcons & _).
    destruct (Hcons Hc) as [Hs Hc1].
    destruct (probe w n m) as [[] m1]. cbn [snd] in *.
    specialize (IH m1 Hc1). cbv zeta in IH.
    rewrite weight_sum_cons. pose proof (weight_nonneg n).
    rewrite Ht in IH. destruct (accessible r); lia.
Qed.

(** X18. When every cached outcome carries the catalogue weight of its
    operation (0 when not accessible), as in a fresh validator, so does
    every outcome of the report and every cached outcome after the scan;
    and the total lies between 0 and the sum of the weights of the
    operations probed. *)
Theorem report_scores_are_weights
    (w : world) (m : machine) (filters : dict bool) :
  clients_ok w = true ->
  cache_consistent (service_cache m) ->
  let selected := selected_services (_determine_flows_to_check filters) in
  let run := check_service_permissions w filters m in
  exists r : report,
    fst run = Report r
    /\ (forall name o,
          get name (rep_results r) = Some o ->
          score o = if accessible o then weight name else 0)
    /\ cache_consistent (service_cache (snd run))
    /\ 0 <= rep_total_score r <= weight_sum selected.
Proof.
  intros Hok Hc selected run. subst run.
  destruct (scan_core w m filters Hok) as (r & e & Hrun & Hres & Htot & _).
  cbv zeta in *. fold selected in Hrun, Hres, Htot.
  exists r. rewrite Hrun, Hres, Htot. cbn [fst snd service_cache with_escalation].
  split; [reflexivity|].
  assert (Hinv : results_consistent
                   (results (snd (probe_all w selected (scan_start m))))
                 /\ cache_consistent
                      (service_cache (snd (probe_all w selected (scan_start m))))).
  { apply (probe_all_invariant w
             (fun m => results_consistent (results m)
                       /\ cache_consistent (service_cache m))).
    - intros n m0 _ [Hr0 Hc0].
      destruct (probe_result_written w n m0) as (r0 & Hr & _ & Hcons & _).
      destruct (Hcons Hc0) as [Hs Hc1]. split; [|exact Hc1].
      rewrite Hr. apply Forall_set_pair; [exact Hr0 | exact Hs].
    - split; [constructor | exact Hc]. }
  destruct Hinv as [Hr Hc'].
  split; [|split; [exact Hc'|]].
  - intros name o Hget. exact (Forall_get_pair _ _ _ _ Hr Hget).
  - pose proof (probe_all_total_bounds w selected (scan_start m) Hc) as B.
    cbv zeta in B. change (total_score (scan_start m)) with 0 in B. lia.
Qed.

Lemma report_scores_are_weights_witness :
  clients_ok granting_world = true
  /\ cache_consistent (service_cache new_validator)
  /\ exists r : report,
       fst (check_service_permissions granting_world
              (of_literal [("high", true)]) new_validator) = Report r
       /\ 0 <= rep_total_score r.
Proof.
  assert (Hc : cache_consistent (service_cache new_validator)) by constructor.
  split; [reflexivity|]. split; [exact Hc|].
  destruct (report_scores_are_weights granting_world new_validator
              (of_literal [("high", true)]) eq_refl Hc)
    as (r & H & _ & _ & Hb & _).
  exists r. split; assumption.
Defined.

(** X19. After a scan every outcome of the report is the outcome the cache
    holds for that operation: each selected operation has a cache entry,
    and its result is the reported one. *)
Theorem report_is_cached
    (w : world) (m : machine) (filters : dict bool) :
  clients_ok w = true ->
  let selected := selected_services (_determine_flows_to_check filters) in
  let run := check_service_permissions w filters m in
  exists r : report,
    fst run = Report r
    /\ forall name, In name selected ->
         exists entry,
           get name (service_cache (snd run)) = Some entry
           /\ get name (rep_results r) = Some (result entry).
Proof.
  intros Hok selected run. subst run.
  destruct (scan_core w m filters Hok) as (r & e & Hrun & Hres & _).
  cbv zeta in *. fold selected in Hrun, Hres.
  exists r. rewrite Hrun, Hres. cbn [fst snd service_cache with_escalation].
  split; [reflexivity|].
  assert (Hinv : results_in_cache
                   (results (snd (probe_all w selected (scan_start m))))
                   (service_cache (snd (probe_all w selected (scan_start m))))).
  { apply (probe_all_invariant w
             (fun m => results_in_cache (results m) (service_cache m))).
    - intros n m0 _ Hin0 name o.
      destruct (probe_result_written w n m0)
        as (r0 & Hr & _ & _ & entry & Hget & Hentry & Hother).
      rewrite Hr.
      destruct (String.eqb_spec n name) as [<-|Hne].
      + rewrite get_set_eq. intros [= <-]. eauto.
      + rewrite get_set_neq by exact Hne. intros Ho.
        rewrite Hother by congruence. now apply Hin0.
    - intros name o H. discriminate. }
  intros name Hin.
  pose proof (probe_all_entries w selected (scan_start m) name (or_introl Hin))
    as Hmem.
  unfold mem in Hmem.
  destruct (get name (results (snd (probe_all w selected (scan_start m)))))
    as [o|] eqn:Ho; [|discriminate].
  destruct (Hinv name o Ho) as (entry & Hget & <-). eauto.
Qed.

Lemma report_is_cached_witness :
  clients_ok granting_world = true
  /\ exists r : report,
       fst (check_service_permissions granting_world
              (of_literal [("high", true)]) new_validator) = Report r.
Proof.
  split; [reflexivity|].
  destruct (report_is_cached granting_world new_validator
              (of_literal [("high", true)]) eq_refl) as (r & H & _).
  exists r. exact H.
Defined.

(** ** The scan: statistics *)

(** X20. A scan counts in the statistics exactly the probes that went to
    the platform: [total_requests] grows by the number of per-probe
    configurations built, probes answered by the cache are not counted, at
    most one request is counted per probe, and the equation
    [total_requests = successful_requests + failed_requests] is kept. *)
Theorem scan_counts_platform_probes
    (w : world) (m : machine) (filters : dict bool) :
  clients_ok w = true ->
  let selected := selected_services (_determine_flows_to_check filters) in
  let run := check_service_permissions w filters m in
  let p := performance_stats m in
  let p' := performance_stats (snd run) in
  exists n : nat,
    config_count (trace (snd run)) = (config_count (trace m) + n)%nat
    /\ total_requests p' = total_requests p + Z.of_nat n
    /\ (n <= List.length selected)%nat
    /\ (total_requests p = successful_requests p + failed_requests p ->
        total_requests p' = successful_requests p' + failed_requests p').
Proof.
  intros Hok selected run p p'. subst run p p'.
  destruct (scan_core w m filters Hok) as (r & e & Hrun & _).
  cbv zeta in *. fold selected in Hrun. rewrite Hrun.
  cbn [snd trace performance_stats with_escalation].
  change (trace m) with (trace (scan_start m)).
  change (performance_stats m) with (performance_stats (scan_start m)).
  generalize (scan_start m) as m0. clear Hrun r e.
  induction selected as [|s l IH]; intros m0.
  - exists 0%nat. cbn. repeat split; lia.
  - cbn [probe_all]. unfold bind.
    destruct (probe_effect w s m0) as (_ & _ & Hhit & Hmiss).
    destruct (probe w s m0) as [[] m1]. cbn [snd] in *.
    destruct (IH m1) as (n & Hc & Ht & Hn & Heq).
    destruct (cache_fresh w m0 s).
    + destruct (Hhit eq_refl) as (entry & _ & _ & _ & _ & Hp & Htr).
      exists n. cbn [List.length].
      split; [rewrite Hc, Htr; reflexivity|].
      split; [rewrite Ht, Hp; reflexivity|].
      split; [lia|]. intros H. apply Heq. now rewrite Hp.
    + destruct (Hmiss eq_refl) as (ok & k & t & evs & _ & _ & _ & Hp & Htr & Hev).
      exists (S n). cbn [List.length].
      split.
      { rewrite Hc, Htr, config_count_app.
        change (config_count (MakeConfig s
                  (_get_optimized_timeout (performance_stats m0) s) :: evs))
          with (S (config_count evs)).
        rewrite Hev. lia. }
      split.
      { rewrite Ht, Hp. unfold record_sample. cbn [total_requests]. lia. }
      split; [lia|].
      intros H. apply Heq. rewrite Hp. unfold record_sample.
      cbn [total_requests successful_requests failed_requests].
      destruct ok; lia.
Qed.

Lemma scan_counts_platform_probes_witness :
  clients_ok granting_world = true
  /\ exists n : nat,
       total_requests
         (performance_stats
            (snd (check_service_permissions granting_world
                    (of_literal [("high", true)]) new_validator)))
       = total_requests (performance_stats new_validator) + Z.of_nat n.
Proof.
  split; [reflexivity|].
  destruct (scan_counts_platform_probes granting_world new_validator
              (of_literal [("high", true)]) eq_refl) as (n & _ & H & _).
  exists n. exact H.
Defined.

(** ** Scanning again within the TTL *)

Lemma probe_young (w : world) (n : string) (m : machine) :
  clock_within_ttl w ->
  cache_young w (service_cache m) ->
  let m' := snd (probe w n m) in
  cache_young w (service_cache m')
  /\ (forall n' e, get n' (service_cache m) = Some e ->
                   get n' (service_cache m') = Some e)
  /\ (exists e, get n (service_cache m') = Some e
                /\ results m' = set n (result e) (results m)
                /\ total_score m' = total_score m + score (result e))
  /\ (mem n (service_cache m) = true ->
      service_cache m' = service_cache m
      /\ trace m' = trace m
      /\ performance_stats m' = performance_stats m).
Proof.
  intros Hw Hy. cbv zeta.
  destruct (probe_effect w n m) as (_ & _ & Hhit & Hmiss).
  destruct (cache_fresh w m n) eqn:F.
  - destruct (Hhit eq_refl) as (entry & Hget & Hr & Ht & Hc & Hp & Htr).
    rewrite Hc. split; [exact Hy|]. split; [auto|].
    split; [exists entry; auto|]. auto.
  - assert (Hnone : get n (service_cache m) = None).
    { unfold cache_fresh in F.
      destruct (get n (service_cache m)) as [entry|] eqn:G; [|reflexivity].
      pose proof (Forall_get_pair _ _ _ _ Hy G (S (clock_reads m))) as Hlt.
      cbn [snd] in Hlt. apply Qltb_lt in Hlt. congruence. }
    destruct (Hmiss eq_refl) as (ok & k & t & evs & Hr & Ht & Hc & _).
    cbv zeta in *. rewrite Hc. split; [|split; [|split]].
    + apply Forall_set_pair; [exact Hy|]. intros k'. cbn [snd timestamp].
      apply Hw.
    + intros n' e G. rewrite get_set_neq; [exact G | congruence].
    + eexists. rewrite get_set_eq. split; [reflexivity|].
      cbn [result]. auto.
    + unfold mem. rewrite Hnone. discriminate.
Qed.

Lemma probe_all_young (w : world) :
  forall (l : list string) (m : machine),
    clock_within_ttl w ->
    cache_young w (service_cache m) ->
    let m' := snd (probe_all w l m) in
    cache_young w (service_cache m')
    /\ (forall n e, get n (service_cache m) = Some e ->
                    get n (service_cache m') = Some e)
    /\ (forall n, In n l -> mem n (service_cache m') = true).
Proof.
  induction l as [|n l IH]; intros m Hw Hy; cbv zeta.
  - cbn. repeat split; auto; intros n [].
  - cbn [probe_all]. unfold bind.
    destruct (probe_young w n m Hw Hy) as (Hy1 & Hkeep & (e & He & _) & _).
    destruct (probe w n m) as [[] m1]. cbn [snd] in *.
    destruct (IH m1 Hw Hy1) as (Hy' & Hkeep' & Hin'). cbv zeta in *.
    split; [exact Hy'|]. split; [auto|].
    intros n' [<-|Hin]; [|auto].
    unfold mem. now rewrite (Hkeep' _ _ He).
Qed.

Lemma probe_all_records_cache (w : world) :
  forall (l : list string) (m : machine),
    clock_within_ttl w ->
    cache_young w (service_cache m) ->
    let m' := snd (probe_all w l m) in
    results m' = results_from_cache (service_cache m') l (results m)
    /\ total_score m' = total_from_cache (service_cache m') l (total_score m).
Proof.
  induction l as [|n l IH]; intros m Hw Hy; cbv zeta.
  - cbn. split; reflexivity.
  - cbn [probe_all]. unfold bind.
    destruct (probe_young w n m Hw Hy) as (Hy1 & _ & (e & He & Hr & Ht) & _).
    destruct (probe w n m) as [[] m1]. cbn [snd] in *.
    destruct (IH m1 Hw Hy1) as [Hr' Ht'].
    destruct (probe_all_young w l m1 Hw Hy1) as (_ & Hkeep & _).
    cbv zeta in *.
    unfold results_from_cache, total_from_cache in *. cbn [fold_left].
    unfold cached_result at 2 4. rewrite (Hkeep _ _ He).
    rewrite <- Hr, <- Ht. split; assumption.
Qed.

Lemma probe_all_cached (w : world) :
  forall (l : list string) (m : machine),
    clock_within_ttl w ->
    cache_young w (service_cache m) ->
    (forall n, In n l -> mem n (service_cache m) = true) ->
    let m' := snd (probe_all w l m) in
    service_cache m' = service_cache m
    /\ trace m' = trace m
    /\ performance_stats m' = performance_stats m.
Proof.
  induction l as [|n l IH]; intros m Hw Hy Hin; cbv zeta.
  - cbn. repeat split.
  - cbn [probe_all]. unfold bind.
    destruct (probe_young w n m Hw Hy) as (Hy1 & _ & _ & Hsame).
    destruct (Hsame (Hin n (or_introl eq_refl))) as (Hc & Htr & Hp).
    destruct (probe w n m) as [[] m1]. cbn [snd] in *.
    assert (Hin1 : forall n', In n' l -> mem n' (service_cache m1) = true).
    { intros n' H. rewrite Hc. apply Hin. now right. }
    destruct (IH m1 Hw Hy1 Hin1) as (Hc' & Htr' & Hp'). cbv zeta in *.
    rewrite Hc', Htr', Hp'. auto.
Qed.

(** X21. A scan repeated while every clock reading stays within the TTL
    touches the platform no more: the second run appends nothing to the
    trace (no configuration, no remote call, no sleep), leaves the cache and
    the statistics as they were, and reports the same outcomes, total and
    accessible operations as the first. *)
Theorem rescan_within_ttl_is_cached
    (w : world) (m : machine) (filters : dict bool) :
  clients_ok w = true ->
  clock_within_ttl w ->
  cache_young w (service_cache m) ->
  let first := check_service_permissions w filters m in
  let second := check_service_permissions w filters (snd first) in
  exists r1 r2 : report,
    fst first = Report r1
    /\ fst second = Report r2
    /\ rep_results r2 = rep_results r1
    /\ rep_total_score r2 = rep_total_score r1
    /\ rep_accessible_services r2 = rep_accessible_services r1
    /\ rep_performance_stats r2 = rep_performance_stats r1
    /\ trace (snd second) = trace (snd first)
    /\ service_cache (snd second) = service_cache (snd first).
Proof.
  intros Hok Hw Hy first second. subst second first.
  destruct (scan_core w m filters Hok)
    as (r1 & e1 & Hrun1 & Hres1 & Htot1 & Hacc1 & Hp1).
  cbv zeta in *. rewrite Hrun1. cbn [fst snd].
  set (selected := selected_services (_determine_flows_to_check filters)) in *.
  set (m1 := snd (probe_all w selected (scan_start m))) in *.
  destruct (scan_core w (with_escalation e1 m1) filters Hok)
    as (r2 & e2 & Hrun2 & Hres2 & Htot2 & Hacc2 & Hp2).
  cbv zeta in *. fold selected in Hrun2, Hres2, Htot2, Hacc2, Hp2.
  rewrite Hrun2. cbn [fst snd].
  set (m2 := snd (probe_all w selected (scan_start (with_escalation e1 m1)))) in *.
  assert (Hy0 : cache_young w (service_cache (scan_start m))) by exact Hy.
  destruct (probe_all_young w selected (scan_start m) Hw Hy0) as (Hy1 & _ & Hin1).
  destruct (probe_all_records_cache w selected (scan_start m) Hw Hy0) as [R1 T1].
  cbv zeta in *. fold m1 in Hy1, Hin1, R1, T1.
  assert (Hy1' : cache_young w
                   (service_cache (scan_start (with_escalation e1 m1))))
    by exact Hy1.
  destruct (probe_all_cached w selected _ Hw Hy1' Hin1) as (C2 & Tr2 & P2).
  destruct (probe_all_records_cache w selected _ Hw Hy1') as [R2 T2].
  cbv zeta in *. fold m2 in C2, Tr2, P2, R2, T2.
  change (service_cache (scan_start (with_escalation e1 m1)))
    with (service_cache m1) in C2.
  change (trace (scan_start (with_escalation e1 m1))) with (trace m1) in Tr2.
  change (performance_stats (scan_start (with_escalation e1 m1)))
    with (performance_stats m1) in P2.
  change (results (scan_start (with_escalation e1 m1)))
    with (results (scan_start m)) in R2.
  change (total_score (scan_start (with_escalation e1 m1)))
    with (total_score (scan_start m)) in T2.
  rewrite C2 in R2, T2.
  assert (HR : results m2 = results m1) by congruence.
  exists r1, r2. cbn [trace service_cache with_escalation].
  split; [reflexivity|]. split; [reflexivity|].
  repeat split; congruence.
Qed.

Lemma rescan_within_ttl_is_cached_witness :
  clients_ok still_world = true
  /\ clock_within_ttl still_world
  /\ cache_young still_world (service_cache new_validator)
  /\ trace (snd (check_service_permissions still_world
                   (of_literal [("high", true)])
                   (snd (check_service_permissions still_world
                           (of_literal [("high", true)]) new_validator))))
     = trace (snd (check_service_permissions still_world
                     (of_literal [("high", true)]) new_validator)).
Proof.
  assert (Hw : clock_within_ttl still_world) by (intros j k; reflexivity).
  assert (Hy : cache_young still_world (service_cache new_validator))
    by constructor.
  split; [reflexivity|]. split; [exact Hw|]. split; [exact Hy|].
  destruct (rescan_within_ttl_is_cached still_world new_validator
              (of_literal [("high", true)]) eq_refl Hw Hy)
    as (r1 & r2 & _ & _ & _ & _ & _ & _ & H & _).
  exact H.
Defined.

(** ** The format check of the keys *)

Lemma startswith_AKIA_inv (s : pystr) :
  startswith AKIA s = true -> exists rest, s = (AKIA ++ rest)%list.
Proof.
  destruct s as [|c1 [|c2 [|c3 [|c4 rest]]]]; cbn [startswith AKIA];
    rewrite ?andb_false_r; try discriminate.
  intros H. repeat (apply andb_prop in H; destruct H as [?E H]).
  apply N.eqb_eq in E, E0, E1, E2. subst. exists rest. reflexivity.
Qed.

Lemma replace_AKIA_match (rest : pystr) :
  replace_AKIA (AKIA ++ rest)%list = replace_AKIA rest.
Proof. reflexivity. Qed.

Lemma replace_AKIA_other (c : N) (s : pystr) :
  startswith AKIA (c :: s) = false ->
  replace_AKIA (c :: s) = c :: replace_AKIA s.
Proof.
  intros H. cbn [replace_AKIA].
  destruct s as [|c2 [|c3 [|c4 rest]]]; try reflexivity.
  now rewrite H.
Qed.

(** Induction along the scan of [replace]. *)
Lemma replace_AKIA_ind (P : pystr -> Prop) :
  P [] ->
  (forall rest, P rest -> P (AKIA ++ rest)%list) ->
  (forall c s, startswith AKIA (c :: s) = false -> P s -> P (c :: s)) ->
  forall s, P s.
Proof.
  intros Hnil Hmatch Hother s.
  assert (H : forall n s, (List.length s <= n)%nat -> P s).
  { clear s. induction n as [|n IH]; intros s Hl.
    - destruct s; [exact Hnil | cbn in Hl; lia].
    - destruct s as [|c s]; [exact Hnil|].
      destruct (startswith AKIA (c :: s)) eqn:E.
      + destruct (startswith_AKIA_inv _ E) as [rest Hs].
        pose proof (f_equal (@List.length N) Hs) as HL.
        rewrite length_app in HL. cbn in HL, Hl.
        rewrite Hs. apply Hmatch, IH. lia.
      + apply Hother; [exact E|]. apply IH. cbn in Hl. lia. }
  exact (H (List.length s) s (le_n _)).
Qed.

Lemma replace_AKIA_keeps (P : N -> bool) (s : pystr) :
  forallb P s = true -> forallb P (replace_AKIA s) = true.
Proof.
  induction s as [|rest IH|c s E IH] using replace_AKIA_ind.
  - reflexivity.
  - rewrite replace_AKIA_match, forallb_app. intros H.
    apply andb_prop in H. tauto.
  - rewrite (replace_AKIA_other _ _ E). cbn [forallb]. intros H.
    apply andb_prop in H. destruct H as [-> H]. auto.
Qed.

Lemma replace_AKIA_removes_letters (P : N -> bool) (s : pystr) :
  forallb P AKIA = true ->
  forallb P (replace_AKIA s) = true -> forallb P s = true.
Proof.
  intros HA. induction s as [|rest IH|c s E IH] using replace_AKIA_ind.
  - reflexivity.
  - rewrite replace_AKIA_match, forallb_app, HA. exact IH.
  - rewrite (replace_AKIA_other _ _ E). cbn [forallb]. intros H.
    apply andb_prop in H. destruct H as [-> H]. auto.
Qed.

Lemma replace_AKIA_nil (s : pystr) :
  replace_AKIA s = [] <-> exists n, s = AKIA_times n.
Proof.
  induction s as [|rest IH|c s E IH] using replace_AKIA_ind.
  - split; [exists 0%nat; reflexivity | reflexivity].
  - rewrite replace_AKIA_match, IH. split.
    + intros [n ->]. exists (S n). reflexivity.
    + intros [[|n] H]; [discriminate|].
      cbn [AKIA_times] in H. apply app_inv_head in H. eauto.
  - rewrite (replace_AKIA_other _ _ E). split; [discriminate|].
    intros [[|n] H]; [discriminate|].
    rewrite H in E. discriminate.
Qed.

Lemma AKIA_times_length (n : nat) : List.length (AKIA_times n) = (4 * n)%nat.
Proof.
  induction n as [|n IH]; [reflexivity|].
  cbn [AKIA_times]. rewrite length_app, IH. cbn. lia.
Qed.

(** X22. The format check accepts a pair of keys exactly when the access
    key has 20 characters, starts with [AKIA], consists of alphanumeric
    characters and is not [AKIA] written five times, and the secret key has
    40 characters, each alphanumeric or one of [+], [/], [=].  (The letters
    A, K and I are alphanumeric.)  The exception comes from the test on
    what is left after every [AKIA] is removed, which is empty for that
    key. *)
Theorem key_format_accepted_iff
    (isalnum : N -> bool) (access_key secret_key : pystr) :
  forallb isalnum AKIA = true ->
  fmt_valid (_validate_key_format isalnum access_key secret_key) = true
  <-> (List.length access_key = 20%nat
       /\ startswith AKIA access_key = true
       /\ forallb isalnum access_key = true
       /\ access_key <> AKIA_times 5)
      /\ (List.length secret_key = 40%nat
          /\ forallb (secret_char isalnum) secret_key = true).
Proof.
  intros HA.
  assert (Hacc : access_key_errors isalnum access_key = []
                 <-> List.length access_key = 20%nat
                     /\ startswith AKIA access_key = true
                     /\ forallb isalnum access_key = true
                     /\ access_key <> AKIA_times 5).
  { unfold access_key_errors.
    destruct access_key as [|c a] eqn:Ea.
    { split; [discriminate | intros [H _]; discriminate]. }
    rewrite <- Ea. clear Ea.
    destruct (List.length access_key =? 20)%nat eqn:L; cbn [negb].
    2:{ apply Nat.eqb_neq in L. split; [discriminate | tauto]. }
    apply Nat.eqb_eq in L.
    destruct (startswith AKIA access_key) eqn:S; cbn [negb].
    2:{ split; [discriminate | intros (_ & H & _); discriminate]. }
    assert (Hal : str_isalnum isalnum (replace_AKIA access_key) = true
                  <-> forallb isalnum access_key = true
                      /\ access_key <> AKIA_times 5).
    { unfold str_isalnum.
      destruct (replace_AKIA access_key) as [|x r] eqn:R.
      - split; [discriminate|]. intros [_ Hne]. exfalso. apply Hne.
        apply replace_AKIA_nil in R. destruct R as [n Hn].
        pose proof (AKIA_times_length n) as Hl. rewrite <- Hn, L in Hl.
        assert (n = 5%nat) by lia. now subst n.
      - rewrite <- R. split.
        + intros H. split.
          * now apply (replace_AKIA_removes_letters isalnum).
          * intros Heq. rewrite Heq in R. discriminate.
        + intros [H _]. now apply replace_AKIA_keeps. }
    destruct (str_isalnum isalnum (replace_AKIA access_key)); cbn [negb].
    - split; [intros _ | reflexivity].
      destruct Hal as [Hal _]. specialize (Hal eq_refl). tauto.
    - split; [discriminate|]. intros (_ & _ & H).
      apply Hal in H. discriminate. }
  assert (Hsec : secret_key_errors isalnum secret_key = []
                 <-> List.length secret_key = 40%nat
                     /\ forallb (secret_char isalnum) secret_key = true).
  { unfold secret_key_errors.
    destruct secret_key as [|c s] eqn:Es.
    { split; [discriminate | intros [H _]; discriminate]. }
    rewrite <- Es. clear Es.
    destruct (List.length secret_key =? 40)%nat eqn:L; cbn [negb].
    2:{ apply Nat.eqb_neq in L. split; [discriminate | tauto]. }
    apply Nat.eqb_eq in L.
    destruct (forallb (secret_char isalnum) secret_key); cbn [negb].
    - tauto.
    - split; [discriminate | intros [_ H]; discriminate]. }
  unfold _validate_key_format. cbn [fmt_valid].
  rewrite Nat.eqb_eq, length_zero_iff_nil.
  rewrite <- Hacc, <- Hsec. split.
  - intros H. apply app_eq_nil in H. exact H.
  - intros [-> ->]. reflexivity.
Qed.

Lemma key_format_accepted_iff_witness :
  forallb ascii_isalnum AKIA = true
  /\ fmt_valid (_validate_key_format ascii_isalnum (AKIA_times 5)
                  (AKIA_times 10)) = false.
Proof.
  split; [reflexivity|].
  destruct (fmt_valid (_validate_key_format ascii_isalnum (AKIA_times 5)
                         (AKIA_times 10))) eqn:E; [|reflexivity].
  exfalso.
  destruct (proj1 (key_format_accepted_iff ascii_isalnum (AKIA_times 5)
                     (AKIA_times 10) eq_refl) E) as [(_ & _ & _ & H) _].
  now apply H.
Defined.

(** ** The notifier's summary of flows *)

Lemma of_literal_nodup {V} (l : list (string * V)) : NoDup (keys (of_literal l)).
Proof.
  unfold of_literal.
  assert (H : forall d : dict V, NoDup (keys d) ->
              NoDup (keys (fold_left (fun d kv => set (fst kv) (snd kv) d) l d))).
  { induction l as [|kv l IH]; intros d Hd; cbn [fold_left]; [exact Hd|].
    apply IH. now apply set_keys_nodup. }
  apply H. constructor.
Qed.

Lemma get_not_in_keys {V} (k : string) (d : dict V) :
  ~ In k (keys d) -> get k d = None.
Proof.
  intros H. pose proof (mem_in_keys k d) as M. unfold mem in M.
  destruct (get k d); [|reflexivity].
  exfalso. apply H, M. reflexivity.
Qed.

Lemma analyze_definition_get (accessible_services : list string)
    (acc : dict notified_flow) (k : string) (info : escalation_definition)
    (name : string) :
  get name (analyze_definition accessible_services acc (k, info))
  = if String.eqb name k
    then if forallb (fun s => list_in s accessible_services)
              (def_required_services info)
         then Some (ready_flow info)
         else if existsb (fun s => list_in s accessible_services)
                   (def_required_services info)
         then Some (partial_flow info)
         else get name acc
    else get name acc.
Proof.
  unfold analyze_definition.
  rewrite filter_all_length, filter_some_length.
  fold (ready_flow info). fold (partial_flow info).
  destruct (String.eqb name k) eqn:E.
  - apply String.eqb_eq in E. subst k.
    destruct (forallb _ _); [apply get_set_eq|].
    destruct (existsb _ _); [apply get_set_eq | reflexivity].
  - assert (N : k <> name) by (intros ->; now rewrite String.eqb_refl in E).
    destruct (forallb _ _); [now apply get_set_neq|].
    destruct (existsb _ _); [now apply get_set_neq | reflexivity].
Qed.

Lemma analyze_fold_get (accessible_services : list string) :
  forall (l : dict escalation_definition) (acc : dict notified_flow)
         (name : string),
    NoDup (keys l) ->
    get name (fold_left (analyze_definition accessible_services) (items l) acc)
    = match get name l with
      | Some info =>
          if forallb (fun s => list_in s accessible_services)
               (def_required_services info)
          then Some (ready_flow info)
          else if existsb (fun s => list_in s accessible_services)
                    (def_required_services info)
          then Some (partial_flow info)
          else get name acc
      | None => get name acc
      end.
Proof.
  unfold items.
  induction l as [|[k info] l IH]; intros acc name Hnd; [reflexivity|].
  cbn [fold_left get]. unfold keys in Hnd. cbn [map fst] in Hnd.
  inversion Hnd as [|? ? Hnot Hnd']; subst.
  rewrite (IH _ name Hnd'), analyze_definition_get.
  destruct (String.eqb name k) eqn:E.
  - apply String.eqb_eq in E. subst k.
    now rewrite (get_not_in_keys name l Hnot).
  - destruct (get name l); reflexivity.
Qed.

Lemma notified_flows_by_coverage_aux
    (accessible_services : list string) (name : string) :
  get name (_analyze_available_escalations accessible_services)
  = match get name escalation_definitions with
    | Some info =>
        if forallb (fun s => list_in s accessible_services)
             (def_required_services info)
        then Some (ready_flow info)
        else if existsb (fun s => list_in s accessible_services)
                  (def_required_services info)
        then Some (partial_flow info)
        else None
    | None => None
    end.
Proof.
  unfold _analyze_available_escalations, analyze_escalations_in.
  rewrite analyze_fold_get by apply of_literal_nodup.
  reflexivity.
Qed.

Lemma forallb_list_in (l acc : list string) :
  forallb (fun s => list_in s acc) l = true <-> forall s, In s l -> In s acc.
Proof.
  rewrite forallb_forall. split; intros H s Hs; apply list_in_iff; auto.
Qed.

Lemma existsb_list_in (l acc : list string) :
  existsb (fun s => list_in s acc) l = true <-> exists s, In s l /\ In s acc.
Proof.
  rewrite existsb_exists. split; intros [s [Hs H]]; exists s; split; auto;
    now apply list_in_iff.
Qed.

Lemma ready_not_partial (info : escalation_definition) :
  ready_flow info <> partial_flow info.
Proof. intros H. apply (f_equal nf_status) in H. discriminate. Qed.

(** X23. What the notifier's summary holds for a defined flow is decided
    by the accessible operations among those its definition requires: the
    full entry with status READY exactly when all are accessible, the
    entry with status PARTIAL, cut to at most two capabilities, exactly
    when some but not all are, and no entry exactly when one is required and
    none is accessible. *)
Theorem notified_flows_by_coverage
    (accessible_services : list string) (name : string)
    (info : escalation_definition) :
  get name escalation_definitions = Some info ->
  let flows := _analyze_available_escalations accessible_services in
  let required := def_required_services info in
  (get name flows = Some (ready_flow info)
   <-> forall s, In s required -> In s accessible_services)
  /\ (get name flows = Some (partial_flow info)
      <-> (exists s, In s required /\ In s accessible_services)
          /\ (exists s, In s required /\ ~ In s accessible_services))
  /\ (get name flows = None
      <-> required <> []
          /\ forall s, In s required -> ~ In s accessible_services)
  /\ (List.length (nf_capabilities (partial_flow info)) <= 2)%nat.
Proof.
  intros Hget flows required. subst flows.
  rewrite notified_flows_by_coverage_aux, Hget. fold required.
  pose proof (forallb_list_in required accessible_services) as HF.
  pose proof (existsb_list_in required accessible_services) as HE.
  pose proof (ready_not_partial info) as Hne.
  destruct (forallb (fun s => list_in s accessible_services) required) eqn:F.
  - destruct HF as [HF _]. specialize (HF eq_refl).
    split; [tauto|]. split; [|split].
    + split; [congruence|]. intros [_ [s [Hs Hn]]]. exfalso. auto.
    + split; [discriminate|]. intros [Hreq Hnone].
      destruct required as [|s l]; [congruence|].
      exfalso. apply (Hnone s); [now left | apply HF; now left].
    + cbn [nf_capabilities partial_flow]. apply firstn_le_length.
  - assert (Hmiss : exists s, In s required /\ ~ In s accessible_services).
    { destruct (forallb_false_existsb_negb _ _ F) as [Hex _].
      apply existsb_exists in Hex as [s [Hs Hn]]. exists s. split; [exact Hs|].
      apply list_in_false_iff. now destruct (list_in s accessible_services). }
    assert (Hnall : ~ forall s, In s required -> In s accessible_services).
    { intros H. destruct Hmiss as [s [Hs Hn]]. auto. }
    destruct (existsb (fun s => list_in s accessible_services) required) eqn:E.
    + destruct HE as [HE _]. specialize (HE eq_refl).
      split; [split; [congruence | tauto]|].
      split; [tauto|]. split.
      * split; [discriminate|]. intros [_ Hnone]. exfalso.
        destruct HE as [s [Hs Ha]]. exact (Hnone s Hs Ha).
      * cbn [nf_capabilities partial_flow]. apply firstn_le_length.
    + split; [split; [discriminate | tauto]|].
      split; [|split].
      * split; [discriminate|]. intros [Hsome _]. apply HE in Hsome.
        discriminate.
      * split; [intros _ | reflexivity]. split.
        -- destruct Hmiss as [s [Hs _]]. intros Hnil. rewrite Hnil in Hs.
           destruct Hs.
        -- intros s Hs Ha.
           assert (X : exists s, In s required /\ In s accessible_services)
             by eauto.
           apply HE in X. discriminate.
      * cbn [nf_capabilities partial_flow]. apply firstn_le_length.
Qed.

Lemma notified_flows_by_coverage_witness :
  get "Security & Compliance" escalation_definitions
  = Some {| def_emoji := "🔒";
            def_required_services :=
              ["kms_keys"; "kms_aliases"; "kms_create_key";
               "kms_put_key_policy"];
            def_description := "Ключи и шифрование";
            def_capabilities :=
              ["Расшифровка зашифрованных данных";
               "Доступ к ключам шифрования";
               "Создание новых ключей шифрования для контроля";
               "Удаление ключей шифрования для нарушения работы системы";
               "Изменение политик ключей для эскалации привилегий";
               "Обход защиты данных";
               "Получение зашифрованных секретов"] |}
  /\ option_map nf_status
       (get "Security & Compliance"
          (_analyze_available_escalations ["kms_keys"]))
     = Some "PARTIAL".
Proof.
  split; [reflexivity|].
  pose proof (notified_flows_by_coverage ["kms_keys"] "Security & Compliance"
                _ eq_refl) as H.
  cbv zeta in H. destruct H as (_ & [_ H] & _).
  rewrite H; [reflexivity|].
  split.
  - exists "kms_keys". split; [now left | now left].
  - exists "kms_aliases". split; [right; now left|].
    intros [E|[]]. discriminate.
Defined.

Lemma selected_services_probed (flows : list string) :
  incl (selected_services flows) probed_operations.
Proof.
  unfold selected_services, probed_operations. intros name H.
  apply in_flat_map in H as [b [Hb Hin]].
  apply filter_In in Hb as [Hb _].
  apply in_flat_map. eauto.
Qed.

Lemma scan_accessible_probed (w : world) (m : machine) (filters : dict bool) :
  clients_ok w = true ->
  exists r : report,
    fst (check_service_permissions w filters m) = Report r
    /\ incl (rep_accessible_services r) probed_operations.
Proof.
  intros Hok.
  destruct (scan_core w m filters Hok) as (r & e & Hrun & _ & _ & Hacc & _).
  cbv zeta in *. exists r. rewrite Hrun, Hacc. split; [reflexivity|].
  set (selected := selected_services (_determine_flows_to_check filters)).
  destruct (scan_results_keys w selected m) as [Hnd Hsub]. cbv zeta in *.
  intros name H. apply (accessible_services_iff _ _ Hnd) in H.
  destruct H as [o [Hget _]].
  apply (selected_services_probed (_determine_flows_to_check filters)).
  apply Hsub. unfold mem. now rewrite Hget.
Qed.

(** X24. A flow of the notifier whose definition requires an operation
    that no block of the scan probes is never reported READY after a scan:
    whatever the platform grants, its entry is the PARTIAL one or is
    missing. Seven of the twelve definitions have such a requirement. *)
Theorem unprobed_requirement_never_ready
    (w : world) (m : machine) (filters : dict bool) :
  clients_ok w = true ->
  (exists r : report,
     fst (check_service_permissions w filters m) = Report r
     /\ forall name info s,
          get name escalation_definitions = Some info ->
          In s (def_required_services info) ->
          list_in s probed_operations = false ->
          let flows :=
            _analyze_available_escalations (rep_accessible_services r) in
          get name flows = Some (partial_flow info) \/ get name flows = None)
  /\ map fst
       (filter
          (fun entry =>
             negb (forallb (fun s => list_in s probed_operations)
                     (def_required_services (snd entry))))
          (items escalation_definitions))
     = ["Secrets Manager"; "Systems Manager"; "S3 Data Exfiltration";
        "EC2 Management"; "Lambda Privilege Escalation";
        "Data Exfiltration Complete"; "Infrastructure Control"].
Proof.
  intros Hok. split; [|vm_compute; reflexivity].
  destruct (scan_accessible_probed w m filters Hok) as (r & Hrun & Hincl).
  exists r. split; [exact Hrun|].
  intros name info s Hget Hin Hun. cbv zeta.
  rewrite notified_flows_by_coverage_aux, Hget.
  assert (F : forallb (fun s => list_in s (rep_accessible_services r))
                (def_required_services info) = false).
  { destruct (forallb _ _) eqn:E; [|reflexivity].
    rewrite forallb_forall in E. specialize (E s Hin).
    apply list_in_iff in E. apply Hincl in E.
    apply list_in_iff in E. congruence. }
  rewrite F. destruct (existsb _ _); auto.
Qed.

Lemma unprobed_requirement_never_ready_witness :
  clients_ok granting_world = true
  /\ exists r : report,
       fst (check_service_permissions granting_world
              (of_literal [("critical", true)]) new_validator) = Report r.
Proof.
  split; [reflexivity|].
  destruct (proj1 (unprobed_requirement_never_ready granting_world
                     new_validator (of_literal [("critical", true)]) eq_refl))
    as (r & H & _).
  exists r. exact H.
Defined.

(** ** [main] *)

Lemma get_account_category_total (score : Z) :
  exists c, get_account_category score = Some c.
Proof.
  unfold get_account_category, get_account_category_in.
  destruct (first_category (items account_categories) score) as [c|];
    [eauto|]. eexists. reflexivity.
Qed.

Lemma scan_without_clients (w : world) (filters : dict bool) (m : machine) :
  clients_ok w = false ->
  fst (check_service_permissions w filters m) = ClientConstructionError.
Proof.
  intros H. unfold check_service_permissions, bind, modify. rewrite H.
  reflexivity.
Qed.

Lemma args_selection (c h m l : bool) :
  Zsum (map Z.b2z [c; h; m; l]) <= 1 ->
  selected_services
    (_determine_flows_to_check
       (of_literal [("critical", c); ("high", h); ("medium", m); ("low", l)]))
  = [] <-> l = true.
Proof.
  destruct c, h, m, l; vm_compute; intros H;
    try (exfalso; apply H; reflexivity); split; try discriminate; reflexivity.
Qed.

Lemma scan_results_empty_iff (w : world) (selected : list string) (m : machine) :
  List.length (results (snd (probe_all w selected (scan_start m)))) = 0%nat
  <-> selected = [].
Proof.
  split.
  - destruct selected as [|x l]; [reflexivity|]. intros H.
    pose proof (probe_all_entries w (x :: l) (scan_start m) x
                  (or_introl (or_introl eq_refl))) as E.
    apply length_zero_iff_nil in H. rewrite H in E. discriminate.
  - intros ->. reflexivity.
Qed.

Lemma notifier_enabled (env_bot_token env_chat_id : option string)
    (n : notifier) :
  telegram_notifier env_bot_token env_chat_id = Some n -> enabled n = true.
Proof.
  unfold telegram_notifier.
  destruct env_bot_token as [t|]; [|discriminate].
  destruct env_chat_id as [c|]; [|discriminate].
  destruct (truthy t && truthy c) eqn:E; [|discriminate].
  intros [= <-]. exact E.
Qed.

Lemma send_message_enabled (telegram : nat -> option Z) (n : notifier)
    (msg : message) (posts : list message) :
  enabled n = true ->
  snd (send_message telegram n msg posts) = (posts ++ [msg])%list.
Proof.
  intros H. unfold send_message. rewrite H. cbn [negb].
  destruct (telegram (List.length posts)); reflexivity.
Qed.

(** X25. With at most one priority flag, [main] returns normally exactly
    when [validate_key] reports success, the clients of the scan can be
    built, and either no notifier is configured or the flag is not [--low];
    in every other case the process exits with status 1. With [--low] and a
    notifier the scan has no result and the percentage of the notification
    divides by zero. *)
Theorem main_returns_iff
    (w : world) (g : gate_inputs) (telegram : nat -> option Z)
    (env_bot_token env_chat_id : option string) (args : arguments) :
  priority_flag_count args <= 1 ->
  let run := main w g telegram env_bot_token env_chat_id args in
  (run_ending run = Returned
   <-> (exists i, fst (validate_key w g (snd (time_time w new_validator)))
                  = Returns (Valid i))
       /\ clients_ok w = true
       /\ (telegram_notifier env_bot_token env_chat_id = None
           \/ arg_low args = false))
  /\ (run_ending run = Returned \/ run_ending run = SystemExit 1).
Proof.
  intros Hflags run. subst run. unfold main.
  fold (priority_flag_count args). fold (filters_of args).
  destruct (1 <? priority_flag_count args) eqn:Hc;
    [apply Z.ltb_lt in Hc; lia|].
  destruct (time_time w new_validator) as [start_time m0]. cbn [snd].
  destruct (validate_key w g m0) as [[[error errs|i]|exc] m1]; cbn [fst].
  - split; [|now right]. cbn [run_ending].
    split; [discriminate | intros [[i H] _]; discriminate].
  - destruct (clients_ok w) eqn:Hok.
    + destruct (scan_core w m1 (filters_of args) Hok)
        as (r & e & Hrun & Hres & _).
      cbv zeta in Hrun, Hres. rewrite Hrun.
      destruct (get_account_category_total (rep_total_score r)) as [c Hcat].
      rewrite Hcat.
      destruct (time_time w _) as [now_ m3].
      assert (Hlow : List.length (rep_results r) = 0%nat <-> arg_low args = true).
      { rewrite Hres, scan_results_empty_iff.
        apply (args_selection (arg_critical args) (arg_high args)
                 (arg_medium args) (arg_low args)). exact Hflags. }
      destruct (telegram_notifier env_bot_token env_chat_id) as [n|] eqn:N.
      * unfold send_validation_result. cbn [nd_total_services].
        destruct (List.length (rep_results r)) as [|k] eqn:Len.
        -- unfold unexpected_error. cbn [run_ending]. split; [|now right].
           split; [discriminate|]. intros (_ & _ & [H|H]); [discriminate|].
           destruct Hlow as [Hlow _]. rewrite Hlow in H by reflexivity.
           discriminate.
        -- destruct (send_message _ _ _ _) as [sent posts']. cbn [run_ending].
           split; [|now left]. split; [intros _ | reflexivity].
           split; [eauto|]. split; [reflexivity|]. right.
           destruct (arg_low args); [|reflexivity].
           destruct Hlow as [_ Hlow]. discriminate (Hlow eq_refl).
      * cbn [run_ending]. split; [|now left].
        split; [intros _ | reflexivity]. eauto.
    + pose proof (scan_without_clients w (filters_of args) m1 Hok) as Hrun.
      destruct (check_service_permissions w (filters_of args) m1)
        as [[|r] m2]; [|discriminate].
      cbn [run_ending]. split; [|now right].
      split; [discriminate | intros (_ & H & _); discriminate].
  - unfold unexpected_error. cbn [run_ending]. split; [|now right].
    split; [discriminate | intros [[i H] _]; discriminate].
Qed.

Lemma main_returns_iff_witness :
  let args := {| arg_access_key := "AKIAEXAMPLEEXAMPLE00";
                 arg_secret_key := "0123456789012345678901234567890123456789";
                 arg_region := "us-east-1";
                 arg_critical := false; arg_high := false;
                 arg_medium := false; arg_low := true |} in
  priority_flag_count args <= 1
  /\ run_ending (main granting_world passing_gate (fun _ => Some 200)
                   (Some "token") (Some "chat") args)
     = SystemExit 1.
Proof.
  intros args.
  assert (Hflags : priority_flag_count args <= 1) by (vm_compute; discriminate).
  split; [exact Hflags|].
  destruct (main_returns_iff granting_world passing_gate (fun _ => Some 200)
              (Some "token") (Some "chat") args Hflags) as [[Hret _] [H|H]];
    [|exact H].
  destruct (Hret H) as (_ & _ & [E|E]); discriminate.
Defined.

(** The facts of X26 that hold for the same reason on every path. *)
Ltac run_facts Hnc :=
  cbn [run_ending run_posts run_trace List.length In app];
  split; [reflexivity|];
  split; [lia|];
  split; [try discriminate; intros _; reflexivity|];
  split; [intros Hconflict; exfalso; exact (Hnc Hconflict)|];
  split.

(** X26. What Telegram answers changes neither how [main] ends, nor the
    events at the platform, nor the messages posted. A run posts at most
    one message, and none without a notifier, with conflicting flags, or
    when the clients of the scan cannot be built; the result message is
    posted only by a run that returns, an error message only by a run that
    exits with status 1. *)
Theorem main_telegram_effects
    (w : world) (g : gate_inputs) (telegram telegram' : nat -> option Z)
    (env_bot_token env_chat_id : option string) (args : arguments) :
  let run := main w g telegram env_bot_token env_chat_id args in
  let run' := main w g telegram' env_bot_token env_chat_id args in
  run = run'
  /\ (List.length (run_posts run) <= 1)%nat
  /\ (telegram_notifier env_bot_token env_chat_id = None -> run_posts run = [])
  /\ (1 < priority_flag_count args ->
      run_posts run = [] /\ run_trace run = [])
  /\ (clients_ok w = false ->
      forall msg, In msg (run_posts run) ->
                  exists error, msg = ValidationFailed error
                                \/ msg = AnalysisFailed error)
  /\ (forall msg, In msg (run_posts run) ->
        match msg with
        | ValidationResult _ _ _ _ _ _ _ _ _ _ => run_ending run = Returned
        | _ => run_ending run = SystemExit 1
        end).
Proof.
  cbv zeta. unfold main.
  fold (priority_flag_count args). fold (filters_of args).
  destruct (1 <? priority_flag_count args) eqn:Hc.
  { cbn [run_ending run_posts run_trace List.length In].
    split; [reflexivity|]. split; [lia|].
    repeat split; intros; contradiction. }
  assert (Hnc : ~ 1 < priority_flag_count args)
    by (apply Z.ltb_ge in Hc; lia).
  destruct (time_time w new_validator) as [start_time m0].
  destruct (validate_key w g m0) as [[[error errs|i]|exc] m1].
  - destruct (telegram_notifier env_bot_token env_chat_id) as [n|] eqn:N.
    + pose proof (notifier_enabled _ _ _ N) as En.
      rewrite !(send_message_enabled _ _ _ _ En). run_facts Hnc.
      * intros _ msg [<-|[]]. eauto.
      * intros msg [<-|[]]. reflexivity.
    + run_facts Hnc; intros; contradiction.
  - destruct (check_service_permissions w (filters_of args) m1)
      as [[|r] m2] eqn:Hrun.
    { run_facts Hnc; intros; contradiction. }
    assert (Hok : clients_ok w = true).
    { destruct (clients_ok w) eqn:Hok; [reflexivity|].
      pose proof (scan_without_clients w (filters_of args) m1 Hok) as H.
      rewrite Hrun in H. discriminate. }
    destruct (get_account_category (rep_total_score r)) as [c|].
    2:{ unfold unexpected_error.
        destruct (telegram_notifier env_bot_token env_chat_id) as [n|] eqn:N.
        - pose proof (notifier_enabled _ _ _ N) as En.
          rewrite !(send_message_enabled _ _ _ _ En). run_facts Hnc.
          + intros Hcl. congruence.
          + intros msg [<-|[]]. reflexivity.
        - run_facts Hnc; intros; contradiction. }
    destruct (time_time w m2) as [now_ m3].
    destruct (telegram_notifier env_bot_token env_chat_id) as [n|] eqn:N.
    2:{ run_facts Hnc; intros; contradiction. }
    pose proof (notifier_enabled _ _ _ N) as En.
    unfold send_validation_result. cbn [nd_total_services].
    destruct (List.length (rep_results r)) as [|k].
    + unfold unexpected_error. rewrite N.
      rewrite !(send_message_enabled _ _ _ _ En). run_facts Hnc.
      * intros Hcl. congruence.
      * intros msg [<-|[]]. reflexivity.
    + pose proof (send_message_enabled telegram n) as S1.
      pose proof (send_message_enabled telegram' n) as S2.
      match goal with
      | |- context [send_message telegram n ?msg []] =>
          specialize (S1 msg [] En); specialize (S2 msg [] En);
          destruct (send_message telegram n msg []) as [s1 p1];
          destruct (send_message telegram' n msg []) as [s2 p2]
      end.
      cbn [snd] in S1, S2. subst p1 p2. run_facts Hnc.
      * intros Hcl. congruence.
      * intros msg [<-|[]]. reflexivity.
  - unfold unexpected_error.
    destruct (telegram_notifier env_bot_token env_chat_id) as [n|] eqn:N.
    + pose proof (notifier_enabled _ _ _ N) as En.
      rewrite !(send_message_enabled _ _ _ _ En). run_facts Hnc.
      * intros _ msg [<-|[]]. eauto.
      * intros msg [<-|[]]. reflexivity.
    + run_facts Hnc; intros; contradiction.
Qed.
